(** * mcp-video-gen: the job pollers and the tools that start them

    A shallow embedding of [src/utils/luma-polling.ts] ([pollLumaTask]),
    [src/utils/polling.ts] ([pollRunwayTask]), of the tools that start a
    job and hand it to a poller, of the Luma management tools, the prompt
    enhancer and the request handler of [src/server-index.ts].

    A poller is a [setInterval] callback closed over a counter, a promise
    and an interval handle.  The callback is [async]: it runs up to its
    one [await], the status fetch, and is resumed when that fetch settles.
    The embedding threads the closed-over state through a small state and
    exception monad whose state also records, in order, every effect the
    callback performs: the status fetch, [clearInterval], each call of the
    local [sendProgress], each message handed to
    [mcpExchange.sendProgress], each call of [resolve] / [reject], and an
    exception that leaves the callback.  Console logging is left out.

    Timer model: a session is driven by a schedule of events, a firing of
    the interval or the settling of a fetch that is in flight.  A cleared
    interval does not run the callback again.  Nothing orders the firings
    against the fetches: the interval fires every five seconds whether or
    not the fetch of the previous firing has settled, so several fetches
    can be in flight, and they settle in any order. *)

From Stdlib Require Import String Ascii List Bool Arith ZArith Lia.
From Stdlib Require Import DecimalString.
Import ListNotations.
Open Scope string_scope.

(* ------------------------------------------------------------------ *)
(** ** JavaScript values *)

(** The objects passed to the progress channel: strings, records, and
    [undefined] for a field whose value is missing. *)
#[local] Unset Elimination Schemes.
Inductive JsVal : Type :=
| JUndefined
| JStr (s : string)
| JObj (fields : list (string * JsVal)).
#[local] Set Elimination Schemes.

(** Truthiness of a [string | undefined | null] value: only a non-empty
    string is truthy. *)
Definition truthy (v : option string) : bool :=
  match v with
  | Some s => negb (s =? "")
  | None => false
  end.

(** [a || b] on such values. *)
Definition js_or (a : option string) (b : string) : string :=
  match a with
  | Some s => if s =? "" then b else s
  | None => b
  end.

Definition upper_ascii (c : ascii) : ascii :=
  let n := nat_of_ascii c in
  if (97 <=? n)%nat && (n <=? 122)%nat then ascii_of_nat (n - 32) else c.

(** [String.prototype.toUpperCase], on ASCII text. *)
Fixpoint toUpperCase (s : string) : string :=
  match s with
  | EmptyString => EmptyString
  | String c s' => String (upper_ascii c) (toUpperCase s')
  end.

(* ------------------------------------------------------------------ *)
(** ** MCP errors *)

Inductive ErrorCode : Type :=
| InternalError
| InvalidRequest
| InvalidParams
| MethodNotFound.

(** [new McpError(code, message)]: the two constructor arguments. *)
Record McpError : Type := mkMcpError {
  err_code : ErrorCode;
  err_text : string
}.

(* ------------------------------------------------------------------ *)
(** ** Thrown values and the exchange *)

(** A value caught by a callback's [catch (error)], as far as the clause
    looks at it: [error instanceof <SDK>.APIError], [error.status],
    [error.message]. *)
Record JsError : Type := mkJsError {
  je_isAPIError : bool;
  je_status : option Z;
  je_message : string
}.

(** [error instanceof APIError && error.status === 404] *)
Definition is_not_found (e : JsError) : bool :=
  je_isAPIError e &&
  match je_status e with
  | Some s => (s =? 404)%Z
  | None => false
  end.

(** The [exchange] a tool is called with and passes on as [mcpExchange]:
    its [progressToken], and whether it has a [sendProgress] method.  A
    method that is there returns normally. *)
Record Exchange : Type := mkExchange {
  exchange_progressToken : option string;
  exchange_has_sendProgress : bool
}.

(** The [TypeError] of calling the method on an exchange that has none. *)
Definition not_a_function : JsError :=
  {| je_isAPIError := false;
     je_status := None;
     je_message := "mcpExchange.sendProgress is not a function" |}.

(* ------------------------------------------------------------------ *)
(** ** The state a poll session closes over, and its effects *)

Inductive Outcome : Type :=
| Resolved (url : string)
| Rejected (e : McpError).

Inductive Action : Type :=
| Fetch (id : string)
| ClearInterval
| Progress (status : string) (data : option JsVal)
| ExchangeSend (msg : JsVal)
| Resolve (url : string)
| Reject (e : McpError)
| Unhandled (e : JsError).

Record World : Type := mkWorld {
  attempts : nat;              (* let attempts = 0 *)
  cleared : bool;              (* clearInterval(intervalId) was called *)
  settled : option Outcome;    (* state of the returned promise *)
  inflight : list nat;         (* the firings suspended at their await,
                                  by the value of attempts they set *)
  trace : list Action          (* effects so far, oldest first *)
}.

Definition initial : World :=
  {| attempts := 0; cleared := false; settled := None;
     inflight := []; trace := [] |}.

(** How a run of statements ends: normally with a value, or by a throw. *)
Inductive Completion (A : Type) : Type :=
| Normal (a : A)
| Throw (e : JsError).

Arguments Normal {A} a.
Arguments Throw {A} e.

Definition M (A : Type) : Type := World -> Completion A * World.

Definition ret {A} (a : A) : M A := fun w => (Normal a, w).

Definition throw {A} (e : JsError) : M A := fun w => (Throw e, w).

Definition bind {A B} (m : M A) (k : A -> M B) : M B :=
  fun w => match m w with
           | (Normal a, w') => k a w'
           | (Throw e, w') => (Throw e, w')
           end.

Notation "x <- c1 ;; c2" := (bind c1 (fun x => c2))
  (at level 61, c1 at next level, right associativity).
Notation "c1 ;; c2" := (bind c1 (fun _ => c2))
  (at level 61, right associativity).

(** [try { body } catch (error) { handler }] *)
Definition try_catch {A} (body : M A) (handler : JsError -> M A) : M A :=
  fun w => match body w with
           | (Normal a, w') => (Normal a, w')
           | (Throw e, w') => handler e w'
           end.

Definition exec {A} (m : M A) (w : World) : World := snd (m w).

Definition log (a : Action) : M unit :=
  fun w => (Normal tt,
            {| attempts := attempts w; cleared := cleared w;
               settled := settled w; inflight := inflight w;
               trace := trace w ++ [a] |}).

(** [attempts++] *)
Definition incr_attempts : M unit :=
  fun w => (Normal tt,
            {| attempts := S (attempts w); cleared := cleared w;
               settled := settled w; inflight := inflight w;
               trace := trace w |}).

Definition get_attempts : M nat := fun w => (Normal (attempts w), w).

Definition clearInterval : M unit :=
  fun w => (Normal tt,
            {| attempts := attempts w; cleared := true;
               settled := settled w; inflight := inflight w;
               trace := trace w ++ [ClearInterval] |}).

(** A promise keeps the first settlement; later calls of its [resolve] or
    [reject] do nothing. *)
Definition settle_first (o : Outcome) (s : option Outcome) : option Outcome :=
  match s with
  | None => Some o
  | Some first => Some first
  end.

Definition settle (o : Outcome) : M unit :=
  fun w => (Normal tt,
            {| attempts := attempts w; cleared := cleared w;
               settled := settle_first o (settled w);
               inflight := inflight w; trace := trace w |}).

Definition resolve (url : string) : M unit :=
  log (Resolve url) ;; settle (Resolved url).

Definition reject (e : McpError) : M unit :=
  log (Reject e) ;; settle (Rejected e).

(** [mcpExchange.sendProgress(msg)], called without a test for the
    method. *)
Definition exchange_sendProgress (x : Exchange) (msg : JsVal) : M unit :=
  if exchange_has_sendProgress x then log (ExchangeSend msg)
  else throw not_a_function.

(** [...(data && { key: data })] *)
Definition spread_data (key : string) (data : option JsVal)
  : list (string * JsVal) :=
  match data with
  | Some d => [(key, d)]
  | None => []
  end.

(** [await <fetch>(id)], up to the suspension: the request goes out and
    the firing waits for it under the number [attempts] has. *)
Definition await_fetch (id : string) : M unit :=
  fun w => (Normal tt,
            {| attempts := attempts w; cleared := cleared w;
               settled := settled w;
               inflight := inflight w ++ [attempts w];
               trace := trace w ++ [Fetch id] |}).

(** ... and from the resumption on: the value the fetch resolved with, or
    its rejection, thrown at the [await]. *)
Definition resumed {S} (r : S + JsError) : M S :=
  match r with
  | inl s => ret s
  | inr e => throw e
  end.

(** *** The interval and the fetches in flight *)

(** An event of a session: the interval fires, or the fetch awaited by
    the firing that counted [k] settles with [r]. *)
Inductive Event (R : Type) : Type :=
| Fires
| Returns (k : nat) (r : R).

Arguments Fires {R}.
Arguments Returns {R} k r.

(** The promise of an [async] callback is dropped by [setInterval]: a
    throw that leaves the callback is an unhandled rejection, and the
    effects made before it stay. *)
Definition invoke (m : M unit) (w : World) : World :=
  match m w with
  | (Normal _, w') => w'
  | (Throw e, w') =>
      {| attempts := attempts w'; cleared := cleared w';
         settled := settled w'; inflight := inflight w';
         trace := trace w' ++ [Unhandled e] |}
  end.

Definition in_flight (k : nat) (w : World) : bool :=
  existsb (Nat.eqb k) (inflight w).

Fixpoint remove_first (k : nat) (l : list nat) : list nat :=
  match l with
  | [] => []
  | j :: l' => if (j =? k)%nat then l' else j :: remove_first k l'
  end.

(** The firing that counted [k] leaves its [await]. *)
Definition landed (k : nat) (w : World) : World :=
  {| attempts := attempts w; cleared := cleared w; settled := settled w;
     inflight := remove_first k (inflight w); trace := trace w |}.

(** One event.  A firing runs the callback up to its [await] unless the
    handle was cleared; a settling fetch resumes the firing that awaits
    it, cleared handle or not. *)
Definition step {R} (until_await : M unit) (after_await : R -> M unit)
    (w : World) (ev : Event R) : World :=
  match ev with
  | Fires => if cleared w then w else invoke until_await w
  | Returns k r =>
      if in_flight k w then invoke (after_await r) (landed k w) else w
  end.

Definition run {R} (until_await : M unit) (after_await : R -> M unit)
    (sch : list (Event R)) (w : World) : World :=
  fold_left (step until_await after_await) sch w.

(** The schedule in which every fetch settles before the next firing:
    firing, result, firing, result, ... *)
Fixpoint sequential_from {R} (k : nat) (rs : list R) : list (Event R) :=
  match rs with
  | [] => []
  | r :: rs' => Fires :: Returns k r :: sequential_from (S k) rs'
  end.

Definition sequential {R} (rs : list R) : list (Event R) :=
  sequential_from 1 rs.

(** The firings of a schedule. *)
Definition fires {R} (sch : list (Event R)) : nat :=
  length (filter (fun ev => match ev with Fires => true | _ => false end) sch).

(* ------------------------------------------------------------------ *)
(** ** The shape the two callbacks share

    Both callbacks count the firing, give up past the bound, and
    otherwise fetch; resumed, they either keep polling after one progress
    call or clear the interval, make one progress call and settle the
    promise.  [Luma.classify] and [Runway.classify] say which way a fetch
    result goes; [engine_until_await] and [engine_after_await] are the
    callbacks written over such a classification.  The callbacks of the
    source are shown equal to them below, so that one set of lemmas serves
    both. *)

Inductive Verdict : Type :=
| KeepPolling (status : string) (data : option JsVal)
| Finish (status : string) (data : option JsVal) (o : Outcome).

Definition settle_call (o : Outcome) : M unit :=
  match o with
  | Resolved url => resolve url
  | Rejected e => reject e
  end.

Definition settle_action (o : Outcome) : Action :=
  match o with
  | Resolved url => Resolve url
  | Rejected e => Reject e
  end.

Definition keeps_polling (v : Verdict) : bool :=
  match v with
  | KeepPolling _ _ => true
  | Finish _ _ _ => false
  end.

(** The message a poller hands to the exchange for a progress call. *)
Definition progress_message (key token status : string)
    (data : option JsVal) : JsVal :=
  JObj [("token", JStr token);
        ("value", JObj (("status", JStr status)
                          :: match data with
                             | Some d => [(key, d)]
                             | None => []
                             end))].

(** A poller's [sendProgress] over its nesting key, token and exchange. *)
Definition emit (key : string) (token : option string) (x : Exchange)
    (status : string) (data : option JsVal) : M unit :=
  log (Progress status data) ;;
  match token with
  | Some t =>
      if t =? "" then ret tt
      else if exchange_has_sendProgress x
           then log (ExchangeSend (progress_message key t status data))
           else throw not_a_function
  | None => ret tt
  end.

Definition act (key : string) (token : option string) (x : Exchange)
    (v : Verdict) : M unit :=
  match v with
  | KeepPolling status data => emit key token x status data
  | Finish status data o =>
      clearInterval ;; emit key token x status data ;; settle_call o
  end.

Definition engine_until_await (max : nat) (key : string)
    (token : option string) (x : Exchange) (id : string)
    (timeout : McpError) : M unit :=
  incr_attempts ;;
  n <- get_attempts ;;
  if (max <? n)%nat then
    clearInterval ;; emit key token x "TIMEOUT" None ;; reject timeout
  else
    await_fetch id.

Definition engine_after_await {S} (key : string) (token : option string)
    (x : Exchange) (classify : S + JsError -> Verdict) (r : S + JsError)
  : M unit :=
  try_catch
    (s <- resumed r ;; act key token x (classify (inl s)))
    (fun error => act key token x (classify (inr error))).

(** *** Reading a trace *)

Definition is_fetch (a : Action) : bool :=
  match a with Fetch _ => true | _ => false end.

Definition is_clear (a : Action) : bool :=
  match a with ClearInterval => true | _ => false end.

Definition is_settle (a : Action) : bool :=
  match a with Resolve _ | Reject _ => true | _ => false end.

Definition is_progress (status : string) (a : Action) : bool :=
  match a with Progress s _ => s =? status | _ => false end.

(** A progress call that announces the end of a session. *)
Definition is_terminal_progress (a : Action) : bool :=
  is_progress "SUCCEEDED" a || is_progress "FAILED" a || is_progress "TIMEOUT" a.

(** Any call of a poller's [sendProgress]. *)
Definition is_progress_call (a : Action) : bool :=
  match a with Progress _ _ => true | _ => false end.

(** Any message handed to [mcpExchange.sendProgress]. *)
Definition is_exchange_send (a : Action) : bool :=
  match a with ExchangeSend _ => true | _ => false end.

Definition is_unhandled (a : Action) : bool :=
  match a with Unhandled _ => true | _ => false end.

Definition count (p : Action -> bool) (t : list Action) : nat :=
  length (filter p t).

(** The messages that reached [mcpExchange.sendProgress], oldest first. *)
Definition sent (t : list Action) : list JsVal :=
  flat_map (fun a => match a with ExchangeSend m => [m] | _ => [] end) t.

(** The [status] of a message built by [sendProgress]. *)
Definition msg_status (m : JsVal) : option string :=
  match m with
  | JObj [(_, _); (_, JObj ((_, JStr s) :: _))] => Some s
  | _ => None
  end.

(** The [token] of a message built by [sendProgress]. *)
Definition msg_token (m : JsVal) : option string :=
  match m with
  | JObj ((_, JStr t) :: _) => Some t
  | _ => None
  end.

(** A message on the exchange that carries [status]. *)
Definition is_message (status : string) (a : Action) : bool :=
  match a with
  | ExchangeSend m => match msg_status m with
                      | Some s => s =? status
                      | None => false
                      end
  | _ => false
  end.

(* ------------------------------------------------------------------ *)
(** ** src/utils/luma-polling.ts *)

Module Luma.

Definition POLLING_INTERVAL_MS : nat := 5000.
Definition MAX_POLLING_ATTEMPTS : nat := 60.

Inductive ExpectedAssetType : Type := video | image | upscaled_video.

Definition asset_type_name (t : ExpectedAssetType) : string :=
  match t with
  | video => "video"
  | image => "image"
  | upscaled_video => "upscaled_video"
  end.

(** [lumaClient] is left out: what its [generations.get] answers comes
    with the events of a session. *)
Record LumaPollOptions : Type := mkLumaPollOptions {
  generationId : string;
  mcpExchange : Exchange;
  progressToken : option string;
  expectedAssetType : option ExpectedAssetType
}.

(** [expectedAssetType = 'video'] in the parameter list. *)
Definition expected (o : LumaPollOptions) : ExpectedAssetType :=
  match expectedAssetType o with
  | Some t => t
  | None => video
  end.

Record Assets : Type := mkAssets {
  assets_video : option string;
  assets_image : option string
}.

(** What [lumaClient.generations.get] resolves with. *)
Record Generation : Type := mkGeneration {
  state : string;
  assets : option Assets;
  failure_reason : option string
}.

Definition FetchResult : Type := (Generation + JsError)%type.

(** [generationStatus.assets?.video] and [generationStatus.assets?.image] *)
Definition assets_video_of (g : Generation) : option string :=
  match assets g with
  | Some a => assets_video a
  | None => None
  end.

Definition assets_image_of (g : Generation) : option string :=
  match assets g with
  | Some a => assets_image a
  | None => None
  end.

Definition sendProgress (o : LumaPollOptions) (status : string)
    (data : option JsVal) : M unit :=
  log (Progress status data) ;;
  match progressToken o with
  | Some token =>
      if token =? "" then ret tt
      else exchange_sendProgress (mcpExchange o)
             (JObj [("token", JStr token);
                    ("value", JObj (("status", JStr status)
                                      :: spread_data "result" data))])
  | None => ret tt
  end.

(** The [setInterval] callback, from its first statement to the
    [await]. *)
Definition callback_until_await (o : LumaPollOptions) : M unit :=
  incr_attempts ;;
  n <- get_attempts ;;
  if (MAX_POLLING_ATTEMPTS <? n)%nat then
    clearInterval ;;
    sendProgress o "TIMEOUT" None ;;
    reject (mkMcpError InternalError
              ("Polling timed out for Luma AI task " ++ generationId o))
  else
    await_fetch (generationId o).

(** The statements of the [try] block after the [await]. *)
Definition try_block (o : LumaPollOptions) (generationStatus : Generation)
  : M unit :=
  if state generationStatus =? "completed" then
    clearInterval ;;
    let '(assetUrl, assetKey) :=
      match expected o with
      | video => (assets_video_of generationStatus, "videoUrl")
      | image => (assets_image_of generationStatus, "imageUrl")
      | upscaled_video =>
          (assets_video_of generationStatus, "upscaledVideoUrl")
      end in
    match assetUrl with
    | Some url =>
        if url =? "" then
          let reason := "Task completed but no "
                        ++ asset_type_name (expected o) ++ " URL found." in
          sendProgress o "FAILED" (Some (JObj [("reason", JStr reason)])) ;;
          reject (mkMcpError InternalError
                    ("Luma AI task " ++ generationId o ++ " " ++ reason))
        else
          sendProgress o "SUCCEEDED" (Some (JObj [(assetKey, JStr url)])) ;;
          resolve url
    | None =>
        let reason := "Task completed but no "
                      ++ asset_type_name (expected o) ++ " URL found." in
        sendProgress o "FAILED" (Some (JObj [("reason", JStr reason)])) ;;
        reject (mkMcpError InternalError
                  ("Luma AI task " ++ generationId o ++ " " ++ reason))
    end
  else if state generationStatus =? "failed" then
    clearInterval ;;
    let failureReason :=
      js_or (failure_reason generationStatus) "Unknown failure reason" in
    sendProgress o "FAILED" (Some (JObj [("reason", JStr failureReason)])) ;;
    reject (mkMcpError InternalError
              ("Luma AI task " ++ generationId o ++ " failed: "
               ++ failureReason))
  else if (state generationStatus =? "queued")
          || (state generationStatus =? "dreaming") then
    sendProgress o (toUpperCase (state generationStatus)) None
  else
    sendProgress o "UNKNOWN_STATUS"
      (Some (JObj [("status", JStr (state generationStatus))])).

(** The [catch (error)] clause. *)
Definition catch_clause (o : LumaPollOptions) (error : JsError) : M unit :=
  if is_not_found error then
    clearInterval ;;
    sendProgress o "FAILED"
      (Some (JObj [("reason",
                    JStr ("Generation ID " ++ generationId o
                          ++ " not found."))])) ;;
    reject (mkMcpError InvalidRequest
              ("Luma AI generation ID " ++ generationId o ++ " not found."))
  else
    sendProgress o "POLLING_ERROR"
      (Some (JObj [("message", JStr (je_message error))])).

(** The callback from the [await] on, resumed with what the fetch settled
    with: a rejected fetch throws inside the [try]. *)
Definition callback_after_await (o : LumaPollOptions) (r : FetchResult)
  : M unit :=
  try_catch (generationStatus <- resumed r ;; try_block o generationStatus)
            (catch_clause o).

(** [pollLumaTask(options)], observed after the events of [sch]. *)
Definition pollLumaTask (o : LumaPollOptions)
    (sch : list (Event FetchResult)) : World :=
  run (callback_until_await o) (callback_after_await o) sch initial.

(** *** The callback, read as a classification of the fetch result *)

Definition expected_asset (o : LumaPollOptions) (g : Generation)
  : option string :=
  match expected o with
  | video => assets_video_of g
  | image => assets_image_of g
  | upscaled_video => assets_video_of g
  end.

Definition assetKey (o : LumaPollOptions) : string :=
  match expected o with
  | video => "videoUrl"
  | image => "imageUrl"
  | upscaled_video => "upscaledVideoUrl"
  end.

Definition no_asset_reason (o : LumaPollOptions) : string :=
  "Task completed but no " ++ asset_type_name (expected o) ++ " URL found.".

Definition timeout_error (o : LumaPollOptions) : McpError :=
  mkMcpError InternalError
    ("Polling timed out for Luma AI task " ++ generationId o).

Definition classify (o : LumaPollOptions) (r : FetchResult) : Verdict :=
  match r with
  | inl g =>
      if state g =? "completed" then
        if truthy (expected_asset o g) then
          let url := js_or (expected_asset o g) "" in
          Finish "SUCCEEDED" (Some (JObj [(assetKey o, JStr url)]))
                 (Resolved url)
        else
          Finish "FAILED" (Some (JObj [("reason", JStr (no_asset_reason o))]))
                 (Rejected (mkMcpError InternalError
                              ("Luma AI task " ++ generationId o ++ " "
                               ++ no_asset_reason o)))
      else if state g =? "failed" then
        let reason := js_or (failure_reason g) "Unknown failure reason" in
        Finish "FAILED" (Some (JObj [("reason", JStr reason)]))
               (Rejected (mkMcpError InternalError
                            ("Luma AI task " ++ generationId o ++ " failed: "
                             ++ reason)))
      else if state g =? "queued" then KeepPolling "QUEUED" None
      else if state g =? "dreaming" then KeepPolling "DREAMING" None
      else KeepPolling "UNKNOWN_STATUS"
                       (Some (JObj [("status", JStr (state g))]))
  | inr e =>
      if is_not_found e then
        Finish "FAILED"
               (Some (JObj [("reason",
                             JStr ("Generation ID " ++ generationId o
                                   ++ " not found."))]))
               (Rejected (mkMcpError InvalidRequest
                            ("Luma AI generation ID " ++ generationId o
                             ++ " not found.")))
      else KeepPolling "POLLING_ERROR"
                       (Some (JObj [("message", JStr (je_message e))]))
  end.

(** A fetch result that ends the session: state [completed] or [failed],
    or a 404 from the API. *)
Definition terminal (r : FetchResult) : bool :=
  match r with
  | inl g => (state g =? "completed") || (state g =? "failed")
  | inr e => is_not_found e
  end.

End Luma.

(* ------------------------------------------------------------------ *)
(** ** src/utils/polling.ts *)

Module Runway.

Definition POLLING_INTERVAL_MS : nat := 5000.
Definition MAX_POLLING_ATTEMPTS : nat := 60.

(** [runwayClient] is left out: what its [tasks.retrieve] answers comes
    with the events of a session. *)
Record PollOptions : Type := mkPollOptions {
  taskId : string;
  mcpExchange : Exchange;
  progressToken : option string
}.

(** What [runwayClient.tasks.retrieve] resolves with. *)
Record Task : Type := mkTask {
  status : string;
  output : option (list string)
}.

Definition FetchResult : Type := (Task + JsError)%type.

Definition sendProgress (o : PollOptions) (status : string)
    (data : option JsVal) : M unit :=
  log (Progress status data) ;;
  match progressToken o with
  | Some token =>
      if token =? "" then ret tt
      else exchange_sendProgress (mcpExchange o)
             (JObj [("token", JStr token);
                    ("value", JObj (("status", JStr status)
                                      :: spread_data "data" data))])
  | None => ret tt
  end.

(** The [setInterval] callback, from its first statement to the
    [await]. *)
Definition callback_until_await (o : PollOptions) : M unit :=
  incr_attempts ;;
  n <- get_attempts ;;
  if (MAX_POLLING_ATTEMPTS <? n)%nat then
    clearInterval ;;
    sendProgress o "TIMEOUT" None ;;
    reject (mkMcpError InternalError
              ("Polling timed out for RunwayML task " ++ taskId o))
  else
    await_fetch (taskId o).

(** The statements of the [try] block after the [await]. *)
Definition try_block (o : PollOptions) (taskStatus : Task) : M unit :=
  if status taskStatus =? "SUCCEEDED" then
    clearInterval ;;
    match output taskStatus with
    | Some (videoUrl :: _) =>
        sendProgress o "SUCCEEDED"
          (Some (JObj [("videoUrl", JStr videoUrl)])) ;;
        resolve videoUrl
    | Some [] | None =>
        sendProgress o "FAILED"
          (Some (JObj [("reason",
                        JStr "Task succeeded but no output URL found.")])) ;;
        reject (mkMcpError InternalError
                  ("RunwayML task " ++ taskId o
                   ++ " succeeded but returned no output URL."))
    end
  else if status taskStatus =? "FAILED" then
    clearInterval ;;
    let failureReason := "RunwayML task failed (Status: FAILED)" in
    sendProgress o "FAILED" (Some (JObj [("reason", JStr failureReason)])) ;;
    reject (mkMcpError InternalError failureReason)
  else if (status taskStatus =? "PENDING")
          || (status taskStatus =? "RUNNING") then
    sendProgress o (status taskStatus) None
  else
    sendProgress o "UNKNOWN_STATUS"
      (Some (JObj [("status", JStr (status taskStatus))])).

(** The [catch (error)] clause. *)
Definition catch_clause (o : PollOptions) (error : JsError) : M unit :=
  if is_not_found error then
    clearInterval ;;
    sendProgress o "FAILED"
      (Some (JObj [("reason",
                    JStr ("Task ID " ++ taskId o ++ " not found."))])) ;;
    reject (mkMcpError InvalidRequest
              ("RunwayML task ID " ++ taskId o ++ " not found."))
  else
    sendProgress o "POLLING_ERROR"
      (Some (JObj [("message", JStr (je_message error))])).

(** The callback from the [await] on, resumed with what the fetch settled
    with: a rejected fetch throws inside the [try]. *)
Definition callback_after_await (o : PollOptions) (r : FetchResult)
  : M unit :=
  try_catch (taskStatus <- resumed r ;; try_block o taskStatus)
            (catch_clause o).

(** [pollRunwayTask(options)], observed after the events of [sch]. *)
Definition pollRunwayTask (o : PollOptions)
    (sch : list (Event FetchResult)) : World :=
  run (callback_until_await o) (callback_after_await o) sch initial.

(** *** The callback, read as a classification of the fetch result *)

Definition timeout_error (o : PollOptions) : McpError :=
  mkMcpError InternalError
    ("Polling timed out for RunwayML task " ++ taskId o).

Definition classify (o : PollOptions) (r : FetchResult) : Verdict :=
  match r with
  | inl t =>
      if status t =? "SUCCEEDED" then
        match output t with
        | Some (videoUrl :: _) =>
            Finish "SUCCEEDED" (Some (JObj [("videoUrl", JStr videoUrl)]))
                   (Resolved videoUrl)
        | Some [] | None =>
            Finish "FAILED"
                   (Some (JObj [("reason",
                                 JStr "Task succeeded but no output URL found.")]))
                   (Rejected (mkMcpError InternalError
                                ("RunwayML task " ++ taskId o
                                 ++ " succeeded but returned no output URL.")))
        end
      else if status t =? "FAILED" then
        Finish "FAILED"
               (Some (JObj [("reason",
                             JStr "RunwayML task failed (Status: FAILED)")]))
               (Rejected (mkMcpError InternalError
                            "RunwayML task failed (Status: FAILED)"))
      else if status t =? "PENDING" then KeepPolling "PENDING" None
      else if status t =? "RUNNING" then KeepPolling "RUNNING" None
      else KeepPolling "UNKNOWN_STATUS"
                       (Some (JObj [("status", JStr (status t))]))
  | inr e =>
      if is_not_found e then
        Finish "FAILED"
               (Some (JObj [("reason",
                             JStr ("Task ID " ++ taskId o ++ " not found."))]))
               (Rejected (mkMcpError InvalidRequest
                            ("RunwayML task ID " ++ taskId o ++ " not found.")))
      else KeepPolling "POLLING_ERROR"
                       (Some (JObj [("message", JStr (je_message e))]))
  end.

(** A fetch result that ends the session: status [SUCCEEDED] or [FAILED],
    or a 404 from the API. *)
Definition terminal (r : FetchResult) : bool :=
  match r with
  | inl t => (status t =? "SUCCEEDED") || (status t =? "FAILED")
  | inr e => is_not_found e
  end.

End Runway.

(* ------------------------------------------------------------------ *)
(** ** Either poller *)

Inductive Poller : Type :=
| LumaPoller (o : Luma.LumaPollOptions)
| RunwayPoller (o : Runway.PollOptions).

(** What a status fetch resolves with. *)
Definition snapshot (p : Poller) : Type :=
  match p with
  | LumaPoller _ => Luma.Generation
  | RunwayPoller _ => Runway.Task
  end.

Definition fetch_result (p : Poller) : Type := (snapshot p + JsError)%type.

(** The [setInterval] callback of the poller, in its two parts. *)
Definition until_await (p : Poller) : M unit :=
  match p with
  | LumaPoller o => Luma.callback_until_await o
  | RunwayPoller o => Runway.callback_until_await o
  end.

Definition after_await (p : Poller) : fetch_result p -> M unit :=
  match p with
  | LumaPoller o => Luma.callback_after_await o
  | RunwayPoller o => Runway.callback_after_await o
  end.

(** The poller's local [sendProgress]. *)
Definition send_progress (p : Poller) : string -> option JsVal -> M unit :=
  match p with
  | LumaPoller o => Luma.sendProgress o
  | RunwayPoller o => Runway.sendProgress o
  end.

(** One event of a session of [p], and a schedule of them from [w]. *)
Definition advance (p : Poller) (w : World) (ev : Event (fetch_result p))
  : World :=
  step (until_await p) (after_await p) w ev.

Definition session (p : Poller) (sch : list (Event (fetch_result p)))
    (w : World) : World :=
  run (until_await p) (after_await p) sch w.

(** The poll call of [p], observed after the events of [sch]. *)
Definition poll (p : Poller) (sch : list (Event (fetch_result p))) : World :=
  session p sch initial.

Definition max_attempts (p : Poller) : nat :=
  match p with
  | LumaPoller _ => Luma.MAX_POLLING_ATTEMPTS
  | RunwayPoller _ => Runway.MAX_POLLING_ATTEMPTS
  end.

Definition job_id (p : Poller) : string :=
  match p with
  | LumaPoller o => Luma.generationId o
  | RunwayPoller o => Runway.taskId o
  end.

Definition token (p : Poller) : option string :=
  match p with
  | LumaPoller o => Luma.progressToken o
  | RunwayPoller o => Runway.progressToken o
  end.

Definition exchange (p : Poller) : Exchange :=
  match p with
  | LumaPoller o => Luma.mcpExchange o
  | RunwayPoller o => Runway.mcpExchange o
  end.

(** The key under which [sendProgress] nests its payload. *)
Definition data_key (p : Poller) : string :=
  match p with
  | LumaPoller _ => "result"
  | RunwayPoller _ => "data"
  end.

Definition timeout_error (p : Poller) : McpError :=
  match p with
  | LumaPoller o => Luma.timeout_error o
  | RunwayPoller o => Runway.timeout_error o
  end.

Definition classify (p : Poller) : fetch_result p -> Verdict :=
  match p with
  | LumaPoller o => Luma.classify o
  | RunwayPoller o => Runway.classify o
  end.

Definition terminal (p : Poller) : fetch_result p -> bool :=
  match p with
  | LumaPoller _ => Luma.terminal
  | RunwayPoller _ => Runway.terminal
  end.

(** The progress messages of the session can be delivered: there is no
    token, so that none is sent, or the exchange has the method. *)
Definition can_send (p : Poller) : bool :=
  negb (truthy (token p)) || exchange_has_sendProgress (exchange p).

(** No fetch of [sch] settles with a result that ends the session. *)
Definition quiet (p : Poller) (sch : list (Event (fetch_result p))) : bool :=
  forallb (fun ev => match ev with
                     | Fires => true
                     | Returns _ r => negb (terminal p r)
                     end) sch.

(** Every fetch of [sch] that settles raises an error that is not a 404
    of the API. *)
Definition only_transport_errors (p : Poller)
    (sch : list (Event (fetch_result p))) : bool :=
  forallb (fun ev => match ev with
                     | Fires => true
                     | Returns _ (inl _) => false
                     | Returns _ (inr e) => negb (is_not_found e)
                     end) sch.

(** What [mcpExchange.sendProgress] receives when the poller reports a
    progress value: one message under the session's token, none without a
    token. *)
Definition delivered (p : Poller) (value : JsVal) : list Action :=
  match token p with
  | Some t =>
      if t =? "" then []
      else [ExchangeSend (JObj [("token", JStr t); ("value", value)])]
  | None => []
  end.

(** The value of a progress message. *)
Definition progress_value (p : Poller) (status : string)
    (data : option JsVal) : JsVal :=
  JObj (("status", JStr status)
          :: match data with
             | Some d => [(data_key p, d)]
             | None => []
             end).

(** What a progress call of [p] adds to the trace when its message can be
    delivered: the call, and the message with a truthy token. *)
Definition emits (p : Poller) (status : string) (data : option JsVal)
  : list Action :=
  Progress status data :: delivered p (progress_value p status data).

(** What handling a verdict adds to the trace. *)
Definition verdict_actions (p : Poller) (v : Verdict) : list Action :=
  match v with
  | KeepPolling status data => emits p status data
  | Finish status data o =>
      ClearInterval :: emits p status data ++ [settle_action o]
  end.

(** ... and what it adds when the exchange has no [sendProgress] for the
    token: the calls up to the one that throws. *)
Definition blocked_actions (v : Verdict) : list Action :=
  match v with
  | KeepPolling status data => [Progress status data]
  | Finish status data _ => [ClearInterval; Progress status data]
  end.

(** The statuses a poller reports while it keeps polling. *)
Definition pending_statuses : list string :=
  ["QUEUED"; "DREAMING"; "PENDING"; "RUNNING"; "UNKNOWN_STATUS"; "POLLING_ERROR"].

(** What a session that keeps polling may leave in the trace: a fetch, a
    progress call or message with one of those statuses, an exception
    that left the callback. *)
Definition pending_action (a : Action) : bool :=
  match a with
  | Fetch _ => true
  | Progress s _ => existsb (String.eqb s) pending_statuses
  | ExchangeSend m => match msg_status m with
                      | Some s => existsb (String.eqb s) pending_statuses
                      | None => false
                      end
  | Unhandled _ => true
  | _ => false
  end.

(** A snapshot that reports success but in which the callback finds no
    asset: a [completed] generation whose asset of the expected kind is
    absent or empty, or a [SUCCEEDED] task whose output list is absent or
    empty. *)
Definition success_without_asset (p : Poller) : fetch_result p -> bool :=
  match p with
  | LumaPoller o => fun r =>
      match r with
      | inl g => (Luma.state g =? "completed")
                 && negb (truthy (Luma.expected_asset o g))
      | inr _ => false
      end
  | RunwayPoller o => fun r =>
      match r with
      | inl t => (Runway.status t =? "SUCCEEDED")
                 && match Runway.output t with
                    | Some (_ :: _) => false
                    | Some [] | None => true
                    end
      | inr _ => false
      end
  end.

(** The asset URL a snapshot that reports success holds for the poller:
    the asset of the expected kind, or the first element of the output
    list. *)
Definition extracted_url (p : Poller) : fetch_result p -> option string :=
  match p with
  | LumaPoller o => fun r =>
      match r with
      | inl g => Luma.expected_asset o g
      | inr _ => None
      end
  | RunwayPoller _ => fun r =>
      match r with
      | inl t => match Runway.output t with
                 | Some (videoUrl :: _) => Some videoUrl
                 | Some [] | None => None
                 end
      | inr _ => None
      end
  end.

(** A snapshot that reports success. *)
Definition reports_success (p : Poller) : fetch_result p -> bool :=
  match p with
  | LumaPoller _ => fun r =>
      match r with
      | inl g => Luma.state g =? "completed"
      | inr _ => false
      end
  | RunwayPoller _ => fun r =>
      match r with
      | inl t => Runway.status t =? "SUCCEEDED"
      | inr _ => false
      end
  end.

(** The key under which a SUCCEEDED progress call carries the URL. *)
Definition asset_key (p : Poller) : string :=
  match p with
  | LumaPoller o => Luma.assetKey o
  | RunwayPoller _ => "videoUrl"
  end.

Definition no_asset_reason (p : Poller) : string :=
  match p with
  | LumaPoller o => Luma.no_asset_reason o
  | RunwayPoller _ => "Task succeeded but no output URL found."
  end.

Definition no_asset_error (p : Poller) : McpError :=
  match p with
  | LumaPoller o =>
      mkMcpError InternalError
        ("Luma AI task " ++ Luma.generationId o ++ " " ++ Luma.no_asset_reason o)
  | RunwayPoller o =>
      mkMcpError InternalError
        ("RunwayML task " ++ Runway.taskId o
         ++ " succeeded but returned no output URL.")
  end.

Definition not_found_reason (p : Poller) : string :=
  match p with
  | LumaPoller o => "Generation ID " ++ Luma.generationId o ++ " not found."
  | RunwayPoller o => "Task ID " ++ Runway.taskId o ++ " not found."
  end.

Definition not_found_error (p : Poller) : McpError :=
  match p with
  | LumaPoller o =>
      mkMcpError InvalidRequest
        ("Luma AI generation ID " ++ Luma.generationId o ++ " not found.")
  | RunwayPoller o =>
      mkMcpError InvalidRequest
        ("RunwayML task ID " ++ Runway.taskId o ++ " not found.")
  end.

(** A snapshot whose status the [switch] has no case for. *)
Definition unrecognized (p : Poller) : fetch_result p -> bool :=
  match p with
  | LumaPoller _ => fun r =>
      match r with
      | inl g => negb (existsb (String.eqb (Luma.state g))
                         ["completed"; "failed"; "queued"; "dreaming"])
      | inr _ => false
      end
  | RunwayPoller _ => fun r =>
      match r with
      | inl t => negb (existsb (String.eqb (Runway.status t))
                         ["SUCCEEDED"; "FAILED"; "PENDING"; "RUNNING"])
      | inr _ => false
      end
  end.

(** The raw status of a snapshot. *)
Definition raw_status (p : Poller) : fetch_result p -> string :=
  match p with
  | LumaPoller _ => fun r =>
      match r with inl g => Luma.state g | inr _ => "" end
  | RunwayPoller _ => fun r =>
      match r with inl t => Runway.status t | inr _ => "" end
  end.

(** Every fetch of [sch] that settles returns such a snapshot. *)
Definition only_unrecognized (p : Poller)
    (sch : list (Event (fetch_result p))) : bool :=
  forallb (fun ev => match ev with
                     | Fires => true
                     | Returns _ r => unrecognized p r
                     end) sch.

(** *** The callbacks read as a transition system

    What a firing and a settling fetch do to the state, written out;
    [advance] is shown equal to [transition] below. *)

(** [sendProgress('POLLING_ERROR', { message: error.message })] for the
    [TypeError] of the missing method, the call the [catch] clause makes
    when a progress call of the [try] block has thrown. *)
Definition retried (p : Poller) (r : fetch_result p) : list Action :=
  match r with
  | inl _ =>
      [Progress "POLLING_ERROR"
         (Some (JObj [("message", JStr (je_message not_a_function))]))]
  | inr _ => []
  end.

Definition fired (p : Poller) (w : World) : World :=
  if (attempts w <? max_attempts p)%nat then
    {| attempts := S (attempts w); cleared := cleared w;
       settled := settled w;
       inflight := inflight w ++ [S (attempts w)];
       trace := trace w ++ [Fetch (job_id p)] |}
  else if can_send p then
    {| attempts := S (attempts w); cleared := true;
       settled := settle_first (Rejected (timeout_error p)) (settled w);
       inflight := inflight w;
       trace := trace w ++ ClearInterval :: emits p "TIMEOUT" None
                           ++ [Reject (timeout_error p)] |}
  else
    {| attempts := S (attempts w); cleared := true;
       settled := settled w;
       inflight := inflight w;
       trace := trace w ++ [ClearInterval; Progress "TIMEOUT" None;
                            Unhandled not_a_function] |}.

Definition returned (p : Poller) (k : nat) (r : fetch_result p) (w : World)
  : World :=
  let v := classify p r in
  if can_send p then
    {| attempts := attempts w;
       cleared := cleared w || negb (keeps_polling v);
       settled := match v with
                  | Finish _ _ o => settle_first o (settled w)
                  | KeepPolling _ _ => settled w
                  end;
       inflight := remove_first k (inflight w);
       trace := trace w ++ verdict_actions p v |}
  else
    {| attempts := attempts w;
       cleared := cleared w || negb (keeps_polling v);
       settled := settled w;
       inflight := remove_first k (inflight w);
       trace := trace w ++ blocked_actions v ++ retried p r
                        ++ [Unhandled not_a_function] |}.

Definition transition (p : Poller) (w : World) (ev : Event (fetch_result p))
  : World :=
  match ev with
  | Fires => if cleared w then w else fired p w
  | Returns k r => if in_flight k w then returned p k r w else w
  end.

(* ------------------------------------------------------------------ *)
(** ** The job initiators

    What lies outside the repository is taken from an [Env]: the wording
    of zod's built-in issues, the [message] the MCP SDK gives an
    [McpError], the API key in [process.env], and what the Luma SDK's
    create calls answer.  Arguments arrive with fields of the right
    JavaScript type; a field may be missing. *)

(** *** Numbers

    A JavaScript number is a double: a finite value [m * 2^e], an
    infinity, or NaN. *)
Inductive JsNumber : Type :=
| Finite (m e : Z)
| PositiveInfinity
| NegativeInfinity
| NotANumber.

(** [Number.isInteger(x)] *)
Definition isInteger (x : JsNumber) : bool :=
  match x with
  | Finite m e => if (0 <=? e)%Z then true else (m mod 2 ^ (- e) =? 0)%Z
  | _ => false
  end.

(** [x > 0] *)
Definition is_positive (x : JsNumber) : bool :=
  match x with
  | Finite m _ => (0 <? m)%Z
  | PositiveInfinity => true
  | _ => false
  end.

(** The value of a number that is an integer. *)
Definition integer_value (x : JsNumber) : Z :=
  match x with
  | Finite m e => if (0 <=? e)%Z then (m * 2 ^ e)%Z else (m / 2 ^ (- e))%Z
  | _ => 0%Z
  end.

(** The double nearest to a natural number below [2^1024], ties to the
    even significand. *)
Definition nearest_double (n : Z) : Z :=
  if (n <? 2 ^ 53)%Z then n
  else
    let e := (Z.log2 n - 52)%Z in
    let q := Z.shiftr n e in
    let r := (n - Z.shiftl q e)%Z in
    let half := Z.shiftl 1 (e - 1) in
    let q' := if (r <? half)%Z then q
              else if (half <? r)%Z then (q + 1)%Z
              else if Z.even q then q else (q + 1)%Z in
    Z.shiftl q' e.

Definition decimal (n : Z) : string := NilZero.string_of_int (Z.to_int n).

Fixpoint zeros (n : nat) : string :=
  match n with
  | O => ""
  | S n' => String "0" (zeros n')
  end.

(** The decimal numbers [s * 10^(n-k)] with [k] digits [s] that read back
    as the double [x], [d] being the number of digits of [x]: each as
    [(s, n)]. *)
Definition candidates (x : Z) (d k : nat) : list (Z * nat) :=
  flat_map
    (fun n =>
       if (k <=? n)%nat then
         let scale := (10 ^ Z.of_nat (n - k))%Z in
         let s := (x / scale)%Z in
         filter (fun c =>
                   (10 ^ Z.of_nat (k - 1) <=? fst c)%Z
                   && (fst c <? 10 ^ Z.of_nat k)%Z
                   && (nearest_double (fst c * scale) =? x)%Z)
                [(s, n); ((s + 1)%Z, n)]
       else [])
    [d; S d].

(** Of two candidates, the one closer to [x], the even one on a tie. *)
Definition closer (x : Z) (k : nat) (a b : Z * nat) : Z * nat :=
  let value c := (fst c * 10 ^ Z.of_nat (snd c - k))%Z in
  let da := Z.abs (value a - x) in
  let db := Z.abs (value b - x) in
  if (da <? db)%Z then a
  else if (db <? da)%Z then b
  else if Z.even (fst a) then a else b.

Definition closest (x : Z) (k : nat) (cs : list (Z * nat))
  : option (Z * nat) :=
  match cs with
  | [] => None
  | c :: cs' => Some (fold_left (closer x k) cs' c)
  end.

(** The shortest digits that read back as [x]: [k] from [k0] upwards. *)
Fixpoint shortest (x : Z) (d : nat) (fuel k : nat) : option (Z * nat * nat) :=
  match fuel with
  | O => None
  | S fuel' =>
      match closest x k (candidates x d k) with
      | Some (s, n) => Some (s, n, k)
      | None => shortest x d fuel' (S k)
      end
  end.

(** [Number.prototype.toString] on a natural number that is a double:
    the shortest digits that read back as the number, written out in
    full below [10^21] and with an exponent from there on. *)
Definition natural_toString (x : Z) : string :=
  if (x =? 0)%Z then "0"
  else
    let d := String.length (decimal x) in
    match shortest x d 17 1 with
    | Some (s, n, k) =>
        if (n <=? 21)%nat then decimal s ++ zeros (n - k)
        else
          match decimal s with
          | String c rest =>
              String c (if (k =? 1)%nat then "" else "." ++ rest)
              ++ "e+" ++ decimal (Z.of_nat (n - 1))
          | EmptyString => ""
          end
    | None => decimal x
    end.

(** [`${z}`] for a number whose value is the integer [z]; an integer that
    is no double stands for the double nearest to it, which is what
    [JSON.parse] reads its digits as. *)
Definition js_string_of_Z (z : Z) : string :=
  if (z <? 0)%Z then "-" ++ natural_toString (nearest_double (- z))
  else natural_toString (nearest_double z).

(** [`${status}`] for a [number | undefined]. *)
Definition js_string_of_status (status : option Z) : string :=
  match status with
  | Some z => js_string_of_Z z
  | None => "undefined"
  end.

Inductive IssueCode : Type :=
| required
| invalid_enum_value (options : list string) (received : string)
| not_a_number
| not_integer
| not_positive
| custom (msg : string).

Record ZodIssue : Type := mkIssue {
  issue_path : string;
  issue_code : IssueCode
}.

(** What a statement inside a tool's [try] block can throw. *)
Inductive Thrown : Type :=
| ThrownMcp (e : McpError)
| ThrownLumaAPI (status : option Z) (message : string)
| ThrownAxios (response_status : option Z) (response_message : option string)
              (message : string)
| ThrownOther (message : string).

(** What [generations.create] and [generations.image.create] resolve
    with, as far as the tools read it: [generation.id]. *)
Record Created : Type := mkCreated { created_id : option string }.

Record LumaPayload : Type := mkLumaPayload {
  payload_prompt : string;
  payload_model : option string;
  payload_aspect_ratio : option string;
  payload_loop : option bool;
  payload_duration : option string
}.

Record LumaImagePayload : Type := mkLumaImagePayload {
  image_payload_prompt : string;
  image_payload_aspect_ratio : string;
  image_payload_model : string;
  image_payload_image_ref : option JsVal;
  image_payload_style_ref : option JsVal;
  image_payload_character_ref : option JsVal;
  image_payload_modify_image_ref : option JsVal
}.

Record Env : Type := mkEnv {
  zod_default_message : IssueCode -> string;
  sdk_message : McpError -> string;
  LUMAAI_API_KEY : option string;
  generations_create : LumaPayload -> Created + Thrown;
  generations_image_create : LumaImagePayload -> Created + Thrown
}.

Inductive ToolAction : Type :=
| CreateVideoJob (payload : LumaPayload)
| CreateImageJob (payload : LumaImagePayload)
| StartLumaPoll (o : Luma.LumaPollOptions)
| StartRunwayPoll (o : Runway.PollOptions)
| ToolSend (msg : JsVal).

(** The [text] of the single content item a tool returns. *)
Definition ToolResponse : Type := string.

Definition issue_message (env : Env) (i : ZodIssue) : string :=
  match issue_code i with
  | custom msg => msg
  | c => zod_default_message env c
  end.

(** [error.errors.map(e => `${e.path.join('.')} - ${e.message}`).join(', ')] *)
Definition invalid_arguments (env : Env) (issues : list ZodIssue) : McpError :=
  mkMcpError InvalidParams
    ("Invalid arguments: "
     ++ String.concat ", "
          (map (fun i => issue_path i ++ " - " ++ issue_message env i) issues)).

(** [error.message] *)
Definition thrown_message (env : Env) (t : Thrown) : string :=
  match t with
  | ThrownMcp e => sdk_message env e
  | ThrownLumaAPI _ m => m
  | ThrownAxios _ _ m => m
  | ThrownOther m => m
  end.

Definition token_value (t : option string) : JsVal :=
  match t with
  | Some s => JStr s
  | None => JUndefined
  end.

(** [exchange.sendProgress?.(msg)] *)
Definition exchange_send_opt (x : Exchange) (msg : JsVal) : list ToolAction :=
  if exchange_has_sendProgress x then [ToolSend msg] else [].

(** [z.enum(options)] on a present field. *)
Definition check_enum (path : string) (options : list string) (v : string)
  : list ZodIssue :=
  if existsb (String.eqb v) options then []
  else [mkIssue path (invalid_enum_value options v)].

Definition check_optional_enum (path : string) (options : list string)
    (v : option string) : list ZodIssue :=
  match v with
  | Some s => check_enum path options s
  | None => []
  end.

(** *** src/tools/text-to-video-tool.ts *)

Module TextToVideo.

Inductive Provider : Type := runwayml | lumaai.

Definition provider_name (p : Provider) : string :=
  match p with
  | runwayml => "runwayml"
  | lumaai => "lumaai"
  end.

Definition providerEnum_options : list string := ["runwayml"; "lumaai"].
Definition lumaAspectRatios_options : list string :=
  ["16:9"; "1:1"; "3:4"; "4:3"; "9:16"; "9:21"; "21:9"].
Definition lumaModels_options : list string := ["ray-flash-2"; "ray-2"; "ray-1-6"].
Definition runwayResolutions_options : list string := ["1280:768"; "768:1280"].

(** The tool's arguments as received. *)
Record Args : Type := mkArgs {
  provider : option string;
  promptText : option string;
  runway_model : option string;
  runway_resolution : option string;
  runway_watermark : option bool;
  luma_model : option string;
  luma_aspect_ratio : option string;
  luma_loop : option bool;
  duration : option JsNumber;
  seed : option JsNumber
}.

(** [z.infer<typeof generateTextToVideoSchema>] *)
Record TextToVideoParams : Type := mkParams {
  v_provider : Provider;
  v_promptText : string;
  v_runway_model : option string;
  v_runway_resolution : option string;
  v_runway_watermark : bool;
  v_luma_model : string;
  v_luma_aspect_ratio : string;
  v_luma_loop : option bool;
  v_duration : option Z;
  v_seed : option Z
}.

(** [providerEnum]: one of the two names, ['runwayml'] when omitted. *)
Definition parse_provider (v : option string) : Provider + list ZodIssue :=
  match v with
  | None => inl runwayml
  | Some s =>
      if s =? "runwayml" then inl runwayml
      else if s =? "lumaai" then inl lumaai
      else inr [mkIssue "provider" (invalid_enum_value providerEnum_options s)]
  end.

Definition issues_of {A} (r : A + list ZodIssue) : list ZodIssue :=
  match r with
  | inl _ => []
  | inr l => l
  end.

Definition check_promptText (v : option string) : list ZodIssue :=
  match v with
  | None => [mkIssue "promptText" required]
  | Some s => if s =? "" then
                [mkIssue "promptText" (custom "Prompt text cannot be empty.")]
              else []
  end.

(** [z.number().int()] on a present field: NaN is no number, and a
    number has to pass [Number.isInteger]. *)
Definition check_int (path : string) (x : JsNumber) : list ZodIssue :=
  if isInteger x then [] else [mkIssue path not_integer].

(** [.positive()] *)
Definition check_positive (path : string) (x : JsNumber) : list ZodIssue :=
  if is_positive x then [] else [mkIssue path not_positive].

(** [duration: z.number().int().positive().optional()]: every check that
    fails leaves its issue. *)
Definition check_duration (v : option JsNumber) : list ZodIssue :=
  match v with
  | Some NotANumber => [mkIssue "duration" not_a_number]
  | Some x => check_int "duration" x ++ check_positive "duration" x
  | None => []
  end.

(** [seed: z.number().int().optional()] *)
Definition check_seed (v : option JsNumber) : list ZodIssue :=
  match v with
  | Some NotANumber => [mkIssue "seed" not_a_number]
  | Some x => check_int "seed" x
  | None => []
  end.

(** [generateTextToVideoSchema.parse(args)] *)
Definition generateTextToVideoSchema_parse (a : Args)
  : TextToVideoParams + list ZodIssue :=
  let issues :=
    (issues_of (parse_provider (provider a))
     ++ check_promptText (promptText a)
     ++ check_optional_enum "runway_resolution" runwayResolutions_options
          (runway_resolution a)
     ++ check_optional_enum "luma_model" lumaModels_options (luma_model a)
     ++ check_optional_enum "luma_aspect_ratio" lumaAspectRatios_options
          (luma_aspect_ratio a)
     ++ check_duration (duration a)
     ++ check_seed (seed a))%list in
  match issues, parse_provider (provider a), promptText a with
  | [], inl p, Some text =>
      inl {| v_provider := p;
             v_promptText := text;
             v_runway_model := runway_model a;
             v_runway_resolution := runway_resolution a;
             v_runway_watermark := match runway_watermark a with
                                   | Some b => b
                                   | None => false
                                   end;
             v_luma_model := match luma_model a with
                             | Some m => m
                             | None => "ray-2"
                             end;
             v_luma_aspect_ratio := match luma_aspect_ratio a with
                                    | Some r => r
                                    | None => "16:9"
                                    end;
             v_luma_loop := luma_loop a;
             v_duration := option_map integer_value (duration a);
             v_seed := option_map integer_value (seed a) |}
  | _, _, _ => inr issues
  end.

(** The statements of the [try] block: the effects performed, and either
    the response returned or what was thrown.  The RunwayML branch is
    commented out in the source, so the only branch tested is
    [provider === 'lumaai']. *)
Definition try_block (env : Env) (v : TextToVideoParams) (x : Exchange)
  : list ToolAction * (ToolResponse + Thrown) :=
  let progressToken := exchange_progressToken x in
  let providerName := provider_name (v_provider v) in
  match v_provider v with
  | lumaai =>
      if truthy (LUMAAI_API_KEY env) then
        let payload :=
          {| payload_prompt := v_promptText v;
             payload_model := Some (v_luma_model v);
             payload_aspect_ratio := Some (v_luma_aspect_ratio v);
             payload_loop := v_luma_loop v;
             payload_duration :=
               match v_duration v with
               | Some d => if (d =? 0)%Z then None
                           else Some (js_string_of_Z d ++ "s")
               | None => None
               end |} in
        match generations_create env payload with
        | inr thrown => ([CreateVideoJob payload], inr thrown)
        | inl generation =>
            let taskId := js_or (created_id generation) "" in
            if taskId =? "" then
              ([CreateVideoJob payload],
               inr (ThrownMcp
                      (mkMcpError InternalError
                         "Luma AI API did not return a generation ID.")))
            else
              ((CreateVideoJob payload
                :: StartLumaPoll
                     {| Luma.generationId := taskId;
                        Luma.mcpExchange := x;
                        Luma.progressToken := progressToken;
                        Luma.expectedAssetType := None |}
                :: exchange_send_opt x
                     (JObj [("token", token_value progressToken);
                            ("value",
                             JObj [("status", JStr "INITIATED");
                                   ("taskId", JStr taskId);
                                   ("provider", JStr providerName)])]))%list,
               inl (providerName ++ " text-to-video task initiated with ID: "
                    ++ taskId
                    ++ ". Generation is in progress. Status updates will follow."))
        end
      else
        ([], inr (ThrownMcp
                    (mkMcpError InternalError
                       "LUMAAI_API_KEY is not configured on the server.")))
  | runwayml =>
      ([], inr (ThrownMcp
                  (mkMcpError InvalidParams
                     ("Invalid provider: " ++ provider_name (v_provider v)))))
  end.

Definition api_error_code (status : option Z) : ErrorCode :=
  match status with
  | Some s =>
      if (s =? 401)%Z || (s =? 403)%Z then InvalidRequest
      else if (s =? 400)%Z || (s =? 422)%Z then InvalidParams
      else InternalError
  | None => InternalError
  end.

(** The [catch] clause of the tool: what it throws for [error]. *)
Definition catch_clause (env : Env) (v : TextToVideoParams) (error : Thrown)
  : McpError :=
  let providerName := provider_name (v_provider v) in
  let fallback :=
    mkMcpError InternalError
      ("Failed to initiate " ++ providerName ++ " text-to-video task: "
       ++ thrown_message env error) in
  match v_provider v, error with
  | runwayml, ThrownAxios status response_message message =>
      let msg := js_or response_message
                   (js_or (Some message) "Unknown Axios error") in
      mkMcpError (api_error_code status)
        ("RunwayML API Error: " ++ msg ++ " (Status: "
         ++ match status with
            | Some s => if (s =? 0)%Z then "N/A" else js_string_of_Z s
            | None => "N/A"
            end ++ ")")
  | lumaai, ThrownLumaAPI status message =>
      mkMcpError (api_error_code status)
        ("Luma AI API Error: " ++ message ++ " (Status: "
         ++ js_string_of_status status ++ ")")
  | _, _ => fallback
  end.

Definition generateTextToVideoTool (env : Env) (args : Args) (x : Exchange)
  : list ToolAction * (ToolResponse + McpError) :=
  match generateTextToVideoSchema_parse args with
  | inr issues => ([], inr (invalid_arguments env issues))
  | inl validatedArgs =>
      match try_block env validatedArgs x with
      | (acts, inl response) => (acts, inl response)
      | (acts, inr error) => (acts, inr (catch_clause env validatedArgs error))
      end
  end.

Definition creates_job (a : ToolAction) : bool :=
  match a with
  | CreateVideoJob _ | CreateImageJob _ => true
  | _ => false
  end.

End TextToVideo.

(** *** The Luma image tool (second half of [luma-polling.ts]) *)

Module LumaImage.

(** [z.infer<typeof lumaGenerateImageSchema>].  The reference fields are
    checked by zod (URL syntax, weights in the unit interval) and passed
    through to the SDK unread, so they stay opaque values here. *)
Record LumaImageParams : Type := mkLumaImageParams {
  prompt : string;
  aspect_ratio : string;
  model : string;
  image_ref : option JsVal;
  style_ref : option JsVal;
  character_ref : option JsVal;
  modify_image_ref : option JsVal
}.

(** The statements of the [try] block. *)
Definition try_block (env : Env) (v : LumaImageParams) (x : Exchange)
  : list ToolAction * (ToolResponse + Thrown) :=
  let progressToken := exchange_progressToken x in
  let payload :=
    {| image_payload_prompt := prompt v;
       image_payload_aspect_ratio := aspect_ratio v;
       image_payload_model := model v;
       image_payload_image_ref := image_ref v;
       image_payload_style_ref := style_ref v;
       image_payload_character_ref := character_ref v;
       image_payload_modify_image_ref := modify_image_ref v |} in
  match generations_image_create env payload with
  | inr thrown => ([CreateImageJob payload], inr thrown)
  | inl generation =>
      let generationId := js_or (created_id generation) "" in
      if generationId =? "" then
        ([CreateImageJob payload],
         inr (ThrownMcp
                (mkMcpError InternalError
                   "Luma AI API did not return a generation ID.")))
      else
        ((CreateImageJob payload
          :: exchange_send_opt x
               (JObj [("token", token_value progressToken);
                      ("value",
                       JObj [("status", JStr "INITIATED");
                             ("taskId", JStr generationId);
                             ("provider", JStr "lumaai")])])
          ++ [StartLumaPoll
                {| Luma.generationId := generationId;
                   Luma.mcpExchange := x;
                   Luma.progressToken := progressToken;
                   Luma.expectedAssetType := None |}])%list,
         inl ("Luma AI image generation task initiated with ID: "
              ++ generationId
              ++ ". Generation is in progress. Status updates will follow."))
  end.

Definition catch_clause (env : Env) (error : Thrown) : McpError :=
  match error with
  | ThrownLumaAPI status message =>
      mkMcpError (TextToVideo.api_error_code status)
        ("Luma AI API Error: " ++ message ++ " (Status: "
         ++ js_string_of_status status ++ ")")
  | _ =>
      mkMcpError InternalError
        ("Failed to initiate Luma AI image generation: "
         ++ thrown_message env error)
  end.

(** [parsed] is what [lumaGenerateImageSchema.parse] answered for the
    arguments. *)
Definition lumaGenerateImageTool (env : Env)
    (parsed : LumaImageParams + list ZodIssue) (x : Exchange)
  : list ToolAction * (ToolResponse + McpError) :=
  match parsed with
  | inr issues => ([], inr (invalid_arguments env issues))
  | inl validatedArgs =>
      if truthy (LUMAAI_API_KEY env) then
        match try_block env validatedArgs x with
        | (acts, inl response) => (acts, inl response)
        | (acts, inr error) => (acts, inr (catch_clause env error))
        end
      else
        ([], inr (mkMcpError InternalError
                    "LUMAAI_API_KEY is not configured on the server."))
  end.

(** The [.then] handler the tool attaches to the poll promise: the
    message it sends once the promise has settled ([.catch] only logs). *)
Definition on_poll_settled (x : Exchange) (o : Outcome) : list ToolAction :=
  match o with
  | Resolved imageUrl =>
      exchange_send_opt x
        (JObj [("token", token_value (exchange_progressToken x));
               ("value", JObj [("status", JStr "SUCCEEDED");
                               ("imageUrl", JStr imageUrl)])])
  | Rejected _ => []
  end.

End LumaImage.

(* ------------------------------------------------------------------ *)
(** ** The other tools

    The image-to-video tool, the Luma management tools, the prompt
    enhancer and the request handler of [server-index.ts].  What they
    get from outside the repository is in [Services]: the rest of
    [process.env] and the answers of the SDK and HTTP calls.  As for the
    image tool, the answer of a zod schema's [parse] is an input. *)

(** What a statement inside one of these tools' [try] blocks can throw. *)
Inductive Raised : Type :=
| RaisedMcp (e : McpError)
| RaisedLumaAPI (status : option Z) (message : string)
| RaisedRunwayAPI (status : option Z) (message : string)
| RaisedAxios (response_status : option Z) (response_message : option string)
              (message : string)
| RaisedOther (message : string).

(** An object an SDK call resolves with, as far as the tools read it: its
    [id], and the text [JSON.stringify(_, null, 2)] gives for it. *)
Record SdkObject : Type := mkSdkObject {
  object_id : option string;
  object_json : string
}.

Record ImagePosition : Type := mkImagePosition {
  uri : string;
  position : string
}.

(** [RunwayML.ImageToVideoCreateParams], after the undefined fields are
    deleted. *)
Record RunwayParams : Type := mkRunwayParams {
  rp_promptImage : string + list ImagePosition;
  rp_promptText : option string;
  rp_model : string;
  rp_duration : Z;
  rp_seed : option Z;
  rp_watermark : bool;
  rp_ratio : option string
}.

(** The Luma payload of the image-to-video tool: a prompt and one image
    keyframe. *)
Record LumaKeyframePayload : Type := mkLumaKeyframePayload {
  kp_prompt : string;
  kp_model : string;
  kp_aspect_ratio : string;
  kp_loop : option bool;
  kp_frame0_url : string
}.

(** The body of the chat-completion request of the prompt enhancer.
    [temperature] is the literal of the source. *)
Record ChatRequest : Type := mkChatRequest {
  chat_model : string;
  chat_system : string;
  chat_user : string;
  chat_max_tokens : Z;
  chat_temperature : string
}.

Record Services : Type := mkServices {
  base : Env;
  RUNWAYML_API_SECRET : option string;
  OPENROUTER_API_KEY : option string;
  (* runwayClient.imageToVideo.create(params): task.id *)
  imageToVideo_create : RunwayParams -> string + Raised;
  (* lumaClient.generations.create(payload) with a keyframe *)
  generations_create_keyframes : LumaKeyframePayload -> Created + Raised;
  (* lumaClient.generations.list({limit, offset}) *)
  generations_list : Z -> Z -> SdkObject + Raised;
  (* lumaClient.generations.get(id) *)
  generations_get : string -> SdkObject + Raised;
  (* lumaClient.generations.delete(id) *)
  generations_delete : string -> unit + Raised;
  (* lumaClient.generations.cameraMotion.list() *)
  cameraMotion_list : SdkObject + Raised;
  (* lumaClient.request({method: 'post', path, body}) *)
  client_request : string -> list (string * JsVal) -> SdkObject + Raised;
  (* axios.post(endpoint, body, {headers}), given the endpoint, the
     Authorization header and the body: the value of
     response.data?.choices?.[0]?.message?.content?.trim() *)
  axios_post : string -> string -> ChatRequest -> option string + Raised
}.

(** [error.message] *)
Definition raised_message (sv : Services) (t : Raised) : string :=
  match t with
  | RaisedMcp e => sdk_message (base sv) e
  | RaisedLumaAPI _ m => m
  | RaisedRunwayAPI _ m => m
  | RaisedAxios _ _ m => m
  | RaisedOther m => m
  end.

Inductive Effect : Type :=
| CreateRunwayVideo (params : RunwayParams)
| CreateLumaKeyframeVideo (payload : LumaKeyframePayload)
| SdkCall (name : string) (args : list string)
| ClientRequest (path : string) (body : list (string * JsVal))
| HttpPost (url : string) (authorization : string) (body : ChatRequest)
| StartPoll (p : Poller)
| Send (msg : JsVal).

(** [exchange.sendProgress?.(msg)] *)
Definition send_opt (x : Exchange) (msg : JsVal) : list Effect :=
  if exchange_has_sendProgress x then [Send msg] else [].

(** [error.errors.map(e => e.message).join(', ')] under
    ['Invalid arguments: '] *)
Definition invalid_arguments_messages (env : Env) (issues : list ZodIssue)
  : McpError :=
  mkMcpError InvalidParams
    ("Invalid arguments: "
     ++ String.concat ", " (map (issue_message env) issues)).

(** *** The image-to-video tool (from line 359 of [luma-polling.ts]) *)

Module ImageToVideo.

(** [z.infer<typeof generateImageToVideoSchema>] *)
Record ImageToVideoParams : Type := mkParams {
  provider : TextToVideo.Provider;
  promptImage : string + list ImagePosition;
  promptText : option string;
  runway_model : option string;
  runway_duration : Z;
  runway_ratio : option string;
  runway_watermark : bool;
  luma_model : string;
  luma_aspect_ratio : string;
  luma_loop : option bool;
  seed : option Z
}.

Definition initiated (x : Exchange) (taskId providerName : string) : JsVal :=
  JObj [("token", token_value (exchange_progressToken x));
        ("value", JObj [("status", JStr "INITIATED");
                        ("taskId", JStr taskId);
                        ("provider", JStr providerName)])].

Definition response_text (providerName taskId : string) : ToolResponse :=
  providerName ++ " image-to-video task initiated with ID: " ++ taskId
  ++ ". Generation is in progress. Status updates will follow.".

(** The image URL the Luma branch takes from [promptImage]: the string
    itself, or the [uri] of the first element of a non-empty array; the
    branch throws for anything else. *)
Definition lumaInputImageUrl_of (promptImage : string + list ImagePosition)
  : option string :=
  match promptImage with
  | inl url => Some url
  | inr (first :: _) => Some (uri first)
  | inr [] => None
  end.

(** The statements of the [try] block. *)
Definition try_block (sv : Services) (v : ImageToVideoParams) (x : Exchange)
  : list Effect * (ToolResponse + Raised) :=
  let progressToken := exchange_progressToken x in
  let providerName := TextToVideo.provider_name (provider v) in
  match provider v with
  | TextToVideo.runwayml =>
      if truthy (RUNWAYML_API_SECRET sv) then
        let runwayParams :=
          {| rp_promptImage := promptImage v;
             rp_promptText := promptText v;
             rp_model := match runway_model v with
                         | Some m => m
                         | None => "gen3a_turbo"
                         end;
             rp_duration := runway_duration v;
             rp_seed := seed v;
             rp_watermark := runway_watermark v;
             rp_ratio := runway_ratio v |} in
        match imageToVideo_create sv runwayParams with
        | inr raised => ([CreateRunwayVideo runwayParams], inr raised)
        | inl taskId =>
            ((CreateRunwayVideo runwayParams
              :: StartPoll (RunwayPoller
                              {| Runway.taskId := taskId;
                                 Runway.mcpExchange := x;
                                 Runway.progressToken := progressToken |})
              :: send_opt x (initiated x taskId providerName))%list,
             inl (response_text providerName taskId))
        end
      else
        ([], inr (RaisedMcp
                    (mkMcpError InternalError
                       "RUNWAYML_API_SECRET is not configured.")))
  | TextToVideo.lumaai =>
      if truthy (LUMAAI_API_KEY (base sv)) then
        match lumaInputImageUrl_of (promptImage v) with
        | None =>
            ([], inr (RaisedMcp
                        (mkMcpError InvalidParams
                           "Invalid promptImage format for Luma AI.")))
        | Some lumaInputImageUrl =>
            let lumaPayload :=
              {| kp_prompt := js_or (promptText v) "";
                 kp_model := luma_model v;
                 kp_aspect_ratio := luma_aspect_ratio v;
                 kp_loop := luma_loop v;
                 kp_frame0_url := lumaInputImageUrl |} in
            match generations_create_keyframes sv lumaPayload with
            | inr raised => ([CreateLumaKeyframeVideo lumaPayload], inr raised)
            | inl generation =>
                let taskId := js_or (created_id generation) "" in
                if taskId =? "" then
                  ([CreateLumaKeyframeVideo lumaPayload],
                   inr (RaisedMcp
                          (mkMcpError InternalError
                             "Luma AI API did not return a generation ID.")))
                else
                  ((CreateLumaKeyframeVideo lumaPayload
                    :: StartPoll (LumaPoller
                                    {| Luma.generationId := taskId;
                                       Luma.mcpExchange := x;
                                       Luma.progressToken := progressToken;
                                       Luma.expectedAssetType := None |})
                    :: send_opt x (initiated x taskId providerName))%list,
                   inl (response_text providerName taskId))
            end
        end
      else
        ([], inr (RaisedMcp
                    (mkMcpError InternalError
                       "LUMAAI_API_KEY is not configured.")))
  end.

(** The [catch] clause of the tool. *)
Definition catch_clause (sv : Services) (v : ImageToVideoParams)
    (error : Raised) : McpError :=
  let providerName := TextToVideo.provider_name (provider v) in
  match provider v, error with
  | TextToVideo.runwayml, RaisedRunwayAPI status message =>
      mkMcpError (TextToVideo.api_error_code status)
        ("RunwayML API Error: " ++ message ++ " (Status: "
         ++ js_string_of_status status ++ ")")
  | TextToVideo.lumaai, RaisedLumaAPI status message =>
      mkMcpError (TextToVideo.api_error_code status)
        ("Luma AI API Error: " ++ message ++ " (Status: "
         ++ js_string_of_status status ++ ")")
  | _, _ =>
      mkMcpError InternalError
        ("Failed to initiate " ++ providerName ++ " image-to-video task: "
         ++ raised_message sv error)
  end.

(** [parsed] is what [generateImageToVideoSchema.parse] answered for the
    arguments. *)
Definition generateImageToVideoTool (sv : Services)
    (parsed : ImageToVideoParams + list ZodIssue) (x : Exchange)
  : list Effect * (ToolResponse + McpError) :=
  match parsed with
  | inr issues => ([], inr (invalid_arguments (base sv) issues))
  | inl validatedArgs =>
      match try_block sv validatedArgs x with
      | (effects, inl response) => (effects, inl response)
      | (effects, inr error) =>
          (effects, inr (catch_clause sv validatedArgs error))
      end
  end.

Definition creates_job (a : Effect) : bool :=
  match a with
  | CreateRunwayVideo _ | CreateLumaKeyframeVideo _ => true
  | _ => false
  end.

Definition starts_poll (a : Effect) : bool :=
  match a with
  | StartPoll _ => true
  | _ => false
  end.

End ImageToVideo.

(** *** src/tools/luma-management-tool.ts *)

Module LumaManagement.

Definition not_configured : McpError :=
  mkMcpError InternalError "LUMAAI_API_KEY is not configured.".

(** The catch clause of the tools that name a generation: a 404 from the
    API is a bad request, any other API error and any other failure an
    internal error. *)
Definition catch_with_id (sv : Services) (not_found failed : string)
    (error : Raised) : McpError :=
  match error with
  | RaisedLumaAPI status message =>
      match status with
      | Some 404%Z => mkMcpError InvalidRequest not_found
      | _ => mkMcpError InternalError ("Luma API Error: " ++ message)
      end
  | _ => mkMcpError InternalError (failed ++ raised_message sv error)
  end.

(** The catch clause of the two tools that name none. *)
Definition catch_plain (sv : Services) (failed : string) (error : Raised)
  : McpError :=
  match error with
  | RaisedLumaAPI _ message =>
      mkMcpError InternalError ("Luma API Error: " ++ message)
  | _ => mkMcpError InternalError (failed ++ raised_message sv error)
  end.

Record ListParams : Type := mkListParams { limit : Z; offset : Z }.

Definition lumaListGenerationsTool (sv : Services)
    (parsed : ListParams + list ZodIssue)
  : list Effect * (ToolResponse + McpError) :=
  match parsed with
  | inr issues => ([], inr (invalid_arguments_messages (base sv) issues))
  | inl validatedArgs =>
      if truthy (LUMAAI_API_KEY (base sv)) then
        let call := SdkCall "generations.list"
                      [js_string_of_Z (limit validatedArgs);
                       js_string_of_Z (offset validatedArgs)] in
        match generations_list sv (limit validatedArgs)
                (offset validatedArgs) with
        | inl generations => ([call], inl (object_json generations))
        | inr error =>
            ([call], inr (catch_plain sv "Failed to list Luma generations: "
                            error))
        end
      else ([], inr not_configured)
  end.

Definition lumaGetGenerationTool (sv : Services)
    (parsed : string + list ZodIssue)
  : list Effect * (ToolResponse + McpError) :=
  match parsed with
  | inr issues => ([], inr (invalid_arguments_messages (base sv) issues))
  | inl generation_id =>
      if truthy (LUMAAI_API_KEY (base sv)) then
        let call := SdkCall "generations.get" [generation_id] in
        match generations_get sv generation_id with
        | inl generation => ([call], inl (object_json generation))
        | inr error =>
            ([call],
             inr (catch_with_id sv
                    ("Luma generation ID " ++ generation_id ++ " not found.")
                    "Failed to get Luma generation: " error))
        end
      else ([], inr not_configured)
  end.

Definition lumaDeleteGenerationTool (sv : Services)
    (parsed : string + list ZodIssue)
  : list Effect * (ToolResponse + McpError) :=
  match parsed with
  | inr issues => ([], inr (invalid_arguments_messages (base sv) issues))
  | inl generation_id =>
      if truthy (LUMAAI_API_KEY (base sv)) then
        let call := SdkCall "generations.delete" [generation_id] in
        match generations_delete sv generation_id with
        | inl _ =>
            ([call], inl ("Luma generation " ++ generation_id
                          ++ " deleted successfully."))
        | inr error =>
            ([call],
             inr (catch_with_id sv
                    ("Luma generation ID " ++ generation_id ++ " not found.")
                    "Failed to delete Luma generation: " error))
        end
      else ([], inr not_configured)
  end.

Definition lumaGetCameraMotionsTool (sv : Services)
  : list Effect * (ToolResponse + McpError) :=
  if truthy (LUMAAI_API_KEY (base sv)) then
    let call := SdkCall "generations.cameraMotion.list" [] in
    match cameraMotion_list sv with
    | inl motions => ([call], inl (object_json motions))
    | inr error =>
        ([call], inr (catch_plain sv "Failed to get Luma camera motions: "
                        error))
    end
  else ([], inr not_configured).

Record AddAudioParams : Type := mkAddAudioParams {
  audio_generation_id : string;
  audio_prompt : string;
  audio_negative_prompt : option string
}.

Definition lumaAddAudioTool (sv : Services)
    (parsed : AddAudioParams + list ZodIssue)
  : list Effect * (ToolResponse + McpError) :=
  match parsed with
  | inr issues => ([], inr (invalid_arguments_messages (base sv) issues))
  | inl validatedArgs =>
      if truthy (LUMAAI_API_KEY (base sv)) then
        let generation_id := audio_generation_id validatedArgs in
        let payload :=
          (("prompt", JStr (audio_prompt validatedArgs))
           :: match audio_negative_prompt validatedArgs with
              | Some n => [("negative_prompt", JStr n)]
              | None => []
              end)%list in
        let path := "/generations/" ++ generation_id ++ "/audio" in
        match client_request sv path payload with
        | inl updatedGeneration =>
            ([ClientRequest path payload],
             inl ("Audio addition requested for " ++ generation_id
                  ++ ". Response: " ++ object_json updatedGeneration))
        | inr error =>
            ([ClientRequest path payload],
             inr (catch_with_id sv
                    ("Luma generation ID " ++ generation_id ++ " not found.")
                    "Failed to add audio to Luma generation: " error))
        end
      else ([], inr not_configured)
  end.

Record UpscaleParams : Type := mkUpscaleParams {
  upscale_generation_id : string;
  upscale_resolution : string
}.

(** The statements of the [try] block of [lumaUpscaleTool]. *)
Definition upscale_try_block (sv : Services) (v : UpscaleParams)
    (x : Exchange) : list Effect * (ToolResponse + Raised) :=
  let progressToken := exchange_progressToken x in
  let payload := [("resolution", JStr (upscale_resolution v))] in
  let path := "/generations/" ++ upscale_generation_id v ++ "/upscale" in
  match client_request sv path payload with
  | inr error => ([ClientRequest path payload], inr error)
  | inl upscaleResponse =>
      let taskIdToPoll :=
        js_or (object_id upscaleResponse) (upscale_generation_id v) in
      if taskIdToPoll =? "" then
        ([ClientRequest path payload],
         inr (RaisedMcp
                (mkMcpError InternalError
                   "Luma AI Upscale API did not return a pollable task ID.")))
      else
        ((ClientRequest path payload
          :: send_opt x
               (JObj [("token", token_value progressToken);
                      ("value", JObj [("status", JStr "INITIATED");
                                      ("taskId", JStr taskIdToPoll);
                                      ("provider", JStr "lumaai");
                                      ("operation", JStr "upscale")])])
          ++ [StartPoll (LumaPoller
                           {| Luma.generationId := taskIdToPoll;
                              Luma.mcpExchange := x;
                              Luma.progressToken := progressToken;
                              Luma.expectedAssetType :=
                                Some Luma.upscaled_video |})])%list,
         inl ("Luma AI upscale task initiated for ID: " ++ taskIdToPoll
              ++ ". Upscaling is in progress. Status updates will follow."))
  end.

Definition lumaUpscaleTool (sv : Services)
    (parsed : UpscaleParams + list ZodIssue) (x : Exchange)
  : list Effect * (ToolResponse + McpError) :=
  match parsed with
  | inr issues => ([], inr (invalid_arguments_messages (base sv) issues))
  | inl validatedArgs =>
      if truthy (LUMAAI_API_KEY (base sv)) then
        match upscale_try_block sv validatedArgs x with
        | (effects, inl response) => (effects, inl response)
        | (effects, inr error) =>
            (effects,
             inr (catch_with_id sv
                    ("Luma generation ID " ++ upscale_generation_id validatedArgs
                     ++ " not found for upscaling.")
                    "Failed to upscale Luma generation: " error))
        end
      else ([], inr not_configured)
  end.

End LumaManagement.

(** *** The prompt enhancer (from line 264 of [text-to-video-tool.ts]) *)

Module EnhancePrompt.

Record EnhancePromptParams : Type := mkParams {
  promptText : string;
  useCase : option string
}.

Definition openRouterEndpoint : string :=
  "https://openrouter.ai/api/v1/chat/completions".

Definition model : string := "anthropic/claude-3-haiku".

Definition systemPrompt (useCase : option string) : string :=
  "You are an expert prompt engineer specializing in text-to-video generation. Enhance the following user prompt to make it more descriptive, evocative, and likely to produce a high-quality, coherent video with RunwayML. Focus on visual details, camera movement suggestions (subtle pan, slow zoom in, static shot), mood, and style. "
  ++ match useCase with
     | Some u => if u =? "" then ""
                 else "Keep the following use case in mind: " ++ u ++ "."
     | None => ""
     end
  ++ " Output ONLY the enhanced prompt text, without any preamble or explanation.".

(** The [catch] clause of the tool. *)
Definition catch_clause (sv : Services) (error : Raised) : McpError :=
  match error with
  | RaisedAxios status response_message message =>
      let msg := js_or response_message
                   (js_or (Some message) "Unknown Axios error") in
      mkMcpError (TextToVideo.api_error_code status)
        ("OpenRouter API Error: " ++ msg ++ " (Status: "
         ++ match status with
            | Some s => if (s =? 0)%Z then "N/A" else js_string_of_Z s
            | None => "N/A"
            end ++ ")")
  | _ =>
      mkMcpError InternalError
        ("Failed to enhance prompt via OpenRouter: "
         ++ raised_message sv error)
  end.

(** [parsed] is what [enhancePromptSchema.parse] answered for the
    arguments. *)
Definition enhancePromptTool (sv : Services)
    (parsed : EnhancePromptParams + list ZodIssue)
  : list Effect * (ToolResponse + McpError) :=
  match parsed with
  | inr issues => ([], inr (invalid_arguments (base sv) issues))
  | inl validatedArgs =>
      match OPENROUTER_API_KEY sv with
      | Some openRouterApiKey =>
          if openRouterApiKey =? "" then
            ([], inr (mkMcpError InternalError
                        "OPENROUTER_API_KEY is not configured on the server."))
          else
            let authorization := "Bearer " ++ openRouterApiKey in
            let body :=
              {| chat_model := model;
                 chat_system := systemPrompt (useCase validatedArgs);
                 chat_user := promptText validatedArgs;
                 chat_max_tokens := 500;
                 chat_temperature := "0.7" |} in
            let post := HttpPost openRouterEndpoint authorization body in
            match axios_post sv openRouterEndpoint authorization body with
            | inl enhancedPrompt =>
                if truthy enhancedPrompt then
                  ([post], inl (js_or enhancedPrompt ""))
                else
                  ([post],
                   inr (catch_clause sv
                          (RaisedMcp
                             (mkMcpError InternalError
                                "OpenRouter API did not return an enhanced prompt."))))
            | inr error => ([post], inr (catch_clause sv error))
            end
      | None =>
          ([], inr (mkMcpError InternalError
                      "OPENROUTER_API_KEY is not configured on the server."))
      end
  end.

End EnhancePrompt.

(** *** src/server-index.ts *)

Module Server.

Inductive Tool : Type :=
| generate_text_to_video
| generate_image_to_video
| enhance_prompt
| luma_generate_image
| luma_list_generations
| luma_get_generation
| luma_delete_generation
| luma_get_camera_motions
| luma_add_audio
| luma_upscale.

(** The tools the [ListTools] handler announces: name and description.
    The input schemas are zod's renderings and are left out. *)
Definition listed_tools : list (string * string) :=
  [("generate_text_to_video",
    "Generates a video from text using RunwayML or Luma AI.");
   ("generate_image_to_video",
    "Generates a video from an image using RunwayML or Luma AI.");
   ("enhance_prompt",
    "Uses an LLM (via OpenRouter) to refine a prompt for video generation.");
   ("luma_generate_image", "Generates an image using Luma AI.");
   ("luma_list_generations", "Lists previous Luma AI generations.");
   ("luma_get_generation", "Gets details for a specific Luma AI generation.");
   ("luma_delete_generation", "Deletes a specific Luma AI generation.");
   ("luma_get_camera_motions",
    "Lists supported camera motions for Luma AI prompts.");
   ("luma_add_audio",
    "Adds audio to a specific Luma AI generation based on a prompt.");
   ("luma_upscale",
    "Upscales a specific Luma AI generation to a higher resolution.")].

(** The [switch] of the [CallTool] handler. *)
Definition dispatch (toolName : string) : option Tool :=
  if toolName =? "generate_text_to_video" then Some generate_text_to_video
  else if toolName =? "generate_image_to_video" then Some generate_image_to_video
  else if toolName =? "enhance_prompt" then Some enhance_prompt
  else if toolName =? "luma_generate_image" then Some luma_generate_image
  else if toolName =? "luma_list_generations" then Some luma_list_generations
  else if toolName =? "luma_get_generation" then Some luma_get_generation
  else if toolName =? "luma_delete_generation" then Some luma_delete_generation
  else if toolName =? "luma_get_camera_motions" then Some luma_get_camera_motions
  else if toolName =? "luma_add_audio" then Some luma_add_audio
  else if toolName =? "luma_upscale" then Some luma_upscale
  else None.

(** The [catch] clause of the handler. *)
Definition handler_catch (sv : Services) (toolName : string) (error : Raised)
  : McpError :=
  match error with
  | RaisedMcp e => e
  | _ => mkMcpError InternalError
           ("Error executing tool " ++ toolName ++ ": "
            ++ raised_message sv error)
  end.

(** The [CallTool] handler; [run_tool t] is what awaiting tool [t] on the
    request's arguments gives. *)
Definition call_tool (sv : Services) (toolName : string)
    (run_tool : Tool -> ToolResponse + Raised) : ToolResponse + McpError :=
  match dispatch toolName with
  | Some t =>
      match run_tool t with
      | inl response => inl response
      | inr error => inr (handler_catch sv toolName error)
      end
  | None =>
      inr (handler_catch sv toolName
             (RaisedMcp (mkMcpError MethodNotFound
                           ("Unknown tool: " ++ toolName))))
  end.

Inductive Startup : Type :=
| Running
| Exited (code : Z) (message : string).

(** [run()]; [connect] is what [server.connect(transport)] does: nothing,
    or throw an error with that message. *)
Definition run (sv : Services) (connect : option string) : Startup :=
  if negb (truthy (RUNWAYML_API_SECRET sv)) then
    Exited 1 "RUNWAYML_API_SECRET environment variable is required but not set."
  else if negb (truthy (OPENROUTER_API_KEY sv)) then
    Exited 1 "OPENROUTER_API_KEY environment variable is required for enhance_prompt tool but not set."
  else if negb (truthy (LUMAAI_API_KEY (base sv))) then
    Exited 1 "LUMAAI_API_KEY environment variable is required for Luma AI tools but not set."
  else
    match connect with
    | None => Running
    | Some message => Exited 1 message
    end.

(** What the schemas answer for the arguments of a request, tool by
    tool; the text-to-video arguments are the ones its schema is run on. *)
Record Request : Type := mkRequest {
  text_to_video_args : TextToVideo.Args;
  image_to_video_parsed : ImageToVideo.ImageToVideoParams + list ZodIssue;
  enhance_prompt_parsed : EnhancePrompt.EnhancePromptParams + list ZodIssue;
  generate_image_parsed : LumaImage.LumaImageParams + list ZodIssue;
  list_parsed : LumaManagement.ListParams + list ZodIssue;
  get_parsed : string + list ZodIssue;
  delete_parsed : string + list ZodIssue;
  add_audio_parsed : LumaManagement.AddAudioParams + list ZodIssue;
  upscale_parsed : LumaManagement.UpscaleParams + list ZodIssue
}.

(** A tool's outcome as the handler's [try] sees it: the value it
    returned, or the [McpError] it threw. *)
Definition awaited (r : ToolResponse + McpError) : ToolResponse + Raised :=
  match r with
  | inl response => inl response
  | inr e => inr (RaisedMcp e)
  end.

(** [await <tool>(args, exchange)] for each case of the [switch]. *)
Definition run_tool (sv : Services) (req : Request) (x : Exchange) (t : Tool)
  : ToolResponse + Raised :=
  match t with
  | generate_text_to_video =>
      awaited (snd (TextToVideo.generateTextToVideoTool (base sv)
                      (text_to_video_args req) x))
  | generate_image_to_video =>
      awaited (snd (ImageToVideo.generateImageToVideoTool sv
                      (image_to_video_parsed req) x))
  | enhance_prompt =>
      awaited (snd (EnhancePrompt.enhancePromptTool sv
                      (enhance_prompt_parsed req)))
  | luma_generate_image =>
      awaited (snd (LumaImage.lumaGenerateImageTool (base sv)
                      (generate_image_parsed req) x))
  | luma_list_generations =>
      awaited (snd (LumaManagement.lumaListGenerationsTool sv (list_parsed req)))
  | luma_get_generation =>
      awaited (snd (LumaManagement.lumaGetGenerationTool sv (get_parsed req)))
  | luma_delete_generation =>
      awaited (snd (LumaManagement.lumaDeleteGenerationTool sv
                      (delete_parsed req)))
  | luma_get_camera_motions =>
      awaited (snd (LumaManagement.lumaGetCameraMotionsTool sv))
  | luma_add_audio =>
      awaited (snd (LumaManagement.lumaAddAudioTool sv (add_audio_parsed req)))
  | luma_upscale =>
      awaited (snd (LumaManagement.lumaUpscaleTool sv (upscale_parsed req) x))
  end.

(** The handler on a request for [toolName]. *)
Definition handle (sv : Services) (toolName : string) (req : Request)
    (x : Exchange) : ToolResponse + McpError :=
  call_tool sv toolName (run_tool sv req x).

End Server.


(** The checks of the text-to-video schema, each with no issue. *)
Definition no_issue (a : TextToVideo.Args) : Prop :=
  TextToVideo.issues_of (TextToVideo.parse_provider (TextToVideo.provider a)) = []
  /\ TextToVideo.check_promptText (TextToVideo.promptText a) = []
  /\ check_optional_enum "runway_resolution"
       TextToVideo.runwayResolutions_options (TextToVideo.runway_resolution a) = []
  /\ check_optional_enum "luma_model" TextToVideo.lumaModels_options
       (TextToVideo.luma_model a) = []
  /\ check_optional_enum "luma_aspect_ratio"
       TextToVideo.lumaAspectRatios_options (TextToVideo.luma_aspect_ratio a) = []
  /\ TextToVideo.check_duration (TextToVideo.duration a) = []
  /\ TextToVideo.check_seed (TextToVideo.seed a) = [].

(* ------------------------------------------------------------------ *)
(** ** Statements that are tested against the code below *)

(** Reading of the count of attempts as one that only a completed fetch
    advances: a firing whose fetch raises leaves it as it was. *)
Definition attempts_unchanged_by_failed_fetch : Prop :=
  forall (p : Poller) (e : JsError) (w : World),
    cleared w = false ->
    attempts (session p [Fires; Returns (S (attempts w)) (inr e)] w)
    = attempts w.

(** Reading of the timeout as one that always rejects: once the bound is
    passed with no terminal result, the promise is rejected with the
    timeout error. *)
Definition timeout_always_rejects : Prop :=
  forall (p : Poller) (pre : list (Event (fetch_result p))),
    quiet p pre = true ->
    fires pre = max_attempts p ->
    settled (poll p (pre ++ [Fires])) = Some (Rejected (timeout_error p)).

(** Reading of the tie-break as one that holds whenever the result comes:
    a terminal result of the fetch of the last allowed attempt never
    leaves the session timed out. *)
Definition last_attempt_result_decides : Prop :=
  forall (p : Poller) (pre : list (Event (fetch_result p)))
         (r : fetch_result p),
    quiet p pre = true ->
    in_flight (max_attempts p) (poll p pre) = true ->
    terminal p r = true ->
    settled (poll p (pre ++ [Returns (max_attempts p) r]))
    <> Some (Rejected (timeout_error p)).

(** Reading of success without a result asset by the URL the poller
    extracts: a snapshot that reports success and whose extracted URL is
    missing or empty ends a polling session as rejected. *)
Definition success_with_empty_url_is_failed : Prop :=
  forall (p : Poller) (pre : list (Event (fetch_result p))) (k : nat)
         (r : fetch_result p),
    quiet p pre = true ->
    fires pre <= max_attempts p ->
    in_flight k (poll p pre) = true ->
    can_send p = true ->
    reports_success p r = true ->
    truthy (extracted_url p r) = false ->
    exists e, settled (poll p (pre ++ [Returns k r])) = Some (Rejected e).

(** Reading of the 404 as the end of the session whenever it comes: the
    promise is then rejected with the not-found error. *)
Definition not_found_always_rejects : Prop :=
  forall (p : Poller) (pre : list (Event (fetch_result p))) (k : nat)
         (e : JsError),
    is_not_found e = true ->
    in_flight k (poll p pre) = true ->
    settled (poll p (pre ++ [Returns k (inr e)]))
    = Some (Rejected (not_found_error p)).

(** Reading of 'without issuing any further fetch' by attempts: when the
    fetch of attempt [k] has raised a 404, the session has issued the
    fetches of attempts 1 to [k] and no other. *)
Definition no_fetch_past_failing_attempt : Prop :=
  forall (p : Poller) (pre : list (Event (fetch_result p))) (k : nat)
         (e : JsError),
    is_not_found e = true ->
    in_flight k (poll p pre) = true ->
    count is_fetch (trace (poll p (pre ++ [Returns k (inr e)]))) = k.

(** Reading of the order of the events by attempts: a POLLING_ERROR
    progress call never follows a terminal one. *)
Definition no_polling_error_after_terminal : Prop :=
  forall (p : Poller) (sch : list (Event (fetch_result p)))
         (before : list Action) (a : Action) (after : list Action),
    trace (poll p sch) = (before ++ a :: after)%list ->
    is_terminal_progress a = true ->
    count (is_progress "POLLING_ERROR") after = 0.

(** Reading of the end of a session as the end of its effects: once the
    promise is settled no event adds a fetch, a progress call or a call
    of [resolve] / [reject]. *)
Definition nothing_after_the_end : Prop :=
  forall (p : Poller) (sch rest : list (Event (fetch_result p))),
    settled (poll p sch) <> None ->
    trace (poll p (sch ++ rest)) = trace (poll p sch).

(** Reading of the text-to-video tool as one that surfaces the
    invalid-provider error unchanged. *)
Definition runwayml_rejected_as_InvalidParams : Prop :=
  forall (env : Env) (args : TextToVideo.Args) (x : Exchange)
         (v : TextToVideo.TextToVideoParams),
    TextToVideo.generateTextToVideoSchema_parse args = inl v ->
    TextToVideo.v_provider v = TextToVideo.runwayml ->
    exists e,
      snd (TextToVideo.generateTextToVideoTool env args x) = inr e
      /\ err_code e = InvalidParams.

(* ------------------------------------------------------------------ *)
(** ** The callbacks and the transition system *)

Lemma world_eta (w : World) :
  {| attempts := attempts w; cleared := cleared w; settled := settled w;
     inflight := inflight w; trace := trace w |} = w.
Proof. destruct w; reflexivity. Qed.

Lemma try_catch_ext {A} (b1 b2 : M A) (h1 h2 : JsError -> M A) (w : World) :
  b1 w = b2 w -> (forall e w', h1 e w' = h2 e w') ->
  try_catch b1 h1 w = try_catch b2 h2 w.
Proof.
  intros Hb Hh. unfold try_catch. rewrite Hb.
  destruct (b2 w) as [[a|e] w']; [reflexivity|apply Hh].
Qed.

Lemma luma_sendProgress_emit o status data :
  Luma.sendProgress o status data
  = emit "result" (Luma.progressToken o) (Luma.mcpExchange o) status data.
Proof. reflexivity. Qed.

Lemma runway_sendProgress_emit o status data :
  Runway.sendProgress o status data
  = emit "data" (Runway.progressToken o) (Runway.mcpExchange o) status data.
Proof. reflexivity. Qed.

Lemma luma_until_await_engine o :
  Luma.callback_until_await o
  = engine_until_await Luma.MAX_POLLING_ATTEMPTS "result"
      (Luma.progressToken o) (Luma.mcpExchange o) (Luma.generationId o)
      (Luma.timeout_error o).
Proof. reflexivity. Qed.

Lemma runway_until_await_engine o :
  Runway.callback_until_await o
  = engine_until_await Runway.MAX_POLLING_ATTEMPTS "data"
      (Runway.progressToken o) (Runway.mcpExchange o) (Runway.taskId o)
      (Runway.timeout_error o).
Proof. reflexivity. Qed.

Lemma luma_try_block_act o g w :
  Luma.try_block o g w
  = act "result" (Luma.progressToken o) (Luma.mcpExchange o)
      (Luma.classify o (inl g)) w.
Proof.
  unfold Luma.try_block, Luma.classify, Luma.expected_asset, Luma.assetKey,
    Luma.no_asset_reason.
  destruct (Luma.state g =? "completed").
  - destruct (Luma.expected o);
      match goal with
      | |- context [truthy ?a] => destruct a as [url|]
      end; cbn [truthy js_or];
      try (destruct (url =? ""); cbn [negb]); reflexivity.
  - destruct (Luma.state g =? "failed"); [reflexivity|].
    destruct (Luma.state g =? "queued") eqn:Eq.
    + apply String.eqb_eq in Eq. rewrite Eq. reflexivity.
    + destruct (Luma.state g =? "dreaming") eqn:Ed; [|reflexivity].
      apply String.eqb_eq in Ed. rewrite Ed. reflexivity.
Qed.

Lemma luma_catch_clause_act o e w :
  Luma.catch_clause o e w
  = act "result" (Luma.progressToken o) (Luma.mcpExchange o)
      (Luma.classify o (inr e)) w.
Proof.
  unfold Luma.catch_clause, Luma.classify.
  destruct (is_not_found e); reflexivity.
Qed.

Lemma runway_try_block_act o t w :
  Runway.try_block o t w
  = act "data" (Runway.progressToken o) (Runway.mcpExchange o)
      (Runway.classify o (inl t)) w.
Proof.
  unfold Runway.try_block, Runway.classify.
  destruct (Runway.status t =? "SUCCEEDED").
  - destruct (Runway.output t) as [[|u l]|]; reflexivity.
  - destruct (Runway.status t =? "FAILED"); [reflexivity|].
    destruct (Runway.status t =? "PENDING") eqn:Ep.
    + apply String.eqb_eq in Ep. rewrite Ep. reflexivity.
    + destruct (Runway.status t =? "RUNNING") eqn:Er; [|reflexivity].
      apply String.eqb_eq in Er. rewrite Er. reflexivity.
Qed.

Lemma runway_catch_clause_act o e w :
  Runway.catch_clause o e w
  = act "data" (Runway.progressToken o) (Runway.mcpExchange o)
      (Runway.classify o (inr e)) w.
Proof.
  unfold Runway.catch_clause, Runway.classify.
  destruct (is_not_found e); reflexivity.
Qed.

Lemma until_await_engine p :
  until_await p
  = engine_until_await (max_attempts p) (data_key p) (token p) (exchange p)
      (job_id p) (timeout_error p).
Proof. destruct p; reflexivity. Qed.

Lemma after_await_engine p r w :
  after_await p r w
  = engine_after_await (data_key p) (token p) (exchange p) (classify p) r w.
Proof.
  destruct p as [o|o]; cbn [after_await data_key token exchange classify];
    unfold Luma.callback_after_await, Runway.callback_after_await,
      engine_after_await.
  - apply try_catch_ext.
    + destruct r as [g|e]; [|reflexivity].
      unfold bind, resumed, ret. apply luma_try_block_act.
    + apply luma_catch_clause_act.
  - apply try_catch_ext.
    + destruct r as [g|e]; [|reflexivity].
      unfold bind, resumed, ret. apply runway_try_block_act.
    + apply runway_catch_clause_act.
Qed.

Lemma emit_can_send p status data w :
  can_send p = true ->
  emit (data_key p) (token p) (exchange p) status data w
  = (Normal tt,
     {| attempts := attempts w; cleared := cleared w; settled := settled w;
        inflight := inflight w;
        trace := trace w ++ emits p status data |}).
Proof.
  unfold can_send, truthy, emit, emits, delivered, progress_value,
    progress_message, bind, log, ret, throw.
  cbn [attempts cleared settled inflight trace].
  destruct (token p) as [t|]; [destruct (t =? "")|]; cbn [negb orb];
    try (intros _; reflexivity).
  intros ->. cbn [attempts cleared settled inflight trace].
  rewrite <- app_assoc. reflexivity.
Qed.

Lemma emit_blocked p status data w :
  can_send p = false ->
  emit (data_key p) (token p) (exchange p) status data w
  = (Throw not_a_function,
     {| attempts := attempts w; cleared := cleared w; settled := settled w;
        inflight := inflight w;
        trace := trace w ++ [Progress status data] |}).
Proof.
  unfold can_send, truthy, emit, bind, log, ret, throw.
  destruct (token p) as [t|]; [destruct (t =? "")|]; cbn [negb orb];
    try discriminate.
  intros ->. reflexivity.
Qed.

Lemma act_can_send p v w :
  can_send p = true ->
  act (data_key p) (token p) (exchange p) v w
  = (Normal tt,
     {| attempts := attempts w;
        cleared := cleared w || negb (keeps_polling v);
        settled := match v with
                   | Finish _ _ o => settle_first o (settled w)
                   | KeepPolling _ _ => settled w
                   end;
        inflight := inflight w;
        trace := trace w ++ verdict_actions p v |}).
Proof.
  intro Hs. destruct v as [s d|s d o]; cbn [act keeps_polling negb verdict_actions].
  - rewrite emit_can_send by exact Hs. rewrite orb_false_r. reflexivity.
  - unfold bind at 1. unfold clearInterval at 1. unfold bind at 1.
    rewrite emit_can_send by exact Hs.
    cbn [attempts cleared settled inflight trace]. rewrite orb_true_r.
    destruct o; cbn [settle_call settle_action]; unfold resolve, reject, bind,
      log, settle; cbn [attempts cleared settled inflight trace];
      rewrite <- !app_assoc; reflexivity.
Qed.

Lemma act_blocked p v w :
  can_send p = false ->
  act (data_key p) (token p) (exchange p) v w
  = (Throw not_a_function,
     {| attempts := attempts w;
        cleared := cleared w || negb (keeps_polling v);
        settled := settled w;
        inflight := inflight w;
        trace := trace w ++ blocked_actions v |}).
Proof.
  intro Hs. destruct v as [s d|s d o]; cbn [act keeps_polling negb blocked_actions].
  - rewrite emit_blocked by exact Hs. rewrite orb_false_r. reflexivity.
  - unfold bind at 1. unfold clearInterval at 1. unfold bind at 1.
    rewrite emit_blocked by exact Hs.
    cbn [attempts cleared settled inflight trace]. rewrite orb_true_r.
    rewrite <- !app_assoc. reflexivity.
Qed.

Lemma classify_not_a_function p :
  classify p (inr not_a_function)
  = KeepPolling "POLLING_ERROR"
      (Some (JObj [("message", JStr (je_message not_a_function))])).
Proof. destruct p; reflexivity. Qed.

Lemma until_await_fired p w : invoke (until_await p) w = fired p w.
Proof.
  rewrite until_await_engine.
  unfold invoke, engine_until_await, fired.
  unfold bind at 1. unfold incr_attempts at 1.
  unfold bind at 1. unfold get_attempts at 1.
  cbn [attempts cleared settled inflight trace].
  destruct (Nat.ltb_spec (attempts w) (max_attempts p)) as [Hlt|Hge].
  - replace (max_attempts p <? S (attempts w))%nat with false
      by (symmetry; apply Nat.ltb_ge; lia).
    reflexivity.
  - replace (max_attempts p <? S (attempts w))%nat with true
      by (symmetry; apply Nat.ltb_lt; lia).
    unfold bind at 1. unfold clearInterval at 1. unfold bind at 1.
    destruct (can_send p) eqn:Hs.
    + rewrite emit_can_send by exact Hs.
      unfold reject, bind, log, settle.
      cbn [attempts cleared settled inflight trace].
      rewrite <- !app_assoc. reflexivity.
    + rewrite emit_blocked by exact Hs.
      cbn [attempts cleared settled inflight trace].
      rewrite <- !app_assoc. reflexivity.
Qed.

Lemma after_await_returned p k r w :
  invoke (after_await p r) (landed k w) = returned p k r w.
Proof.
  unfold invoke. rewrite after_await_engine.
  unfold engine_after_await, try_catch, returned.
  destruct (can_send p) eqn:Hs.
  - destruct r as [s|e]; unfold bind, resumed, ret, throw.
    + rewrite act_can_send by exact Hs. reflexivity.
    + rewrite act_can_send by exact Hs. reflexivity.
  - destruct r as [s|e]; unfold bind, resumed, ret, throw.
    + rewrite act_blocked by exact Hs.
      rewrite act_blocked by exact Hs.
      rewrite classify_not_a_function.
      cbn [attempts cleared settled inflight trace landed keeps_polling negb
           blocked_actions retried].
      rewrite orb_false_r, <- !app_assoc. reflexivity.
    + rewrite act_blocked by exact Hs.
      cbn [attempts cleared settled inflight trace landed retried].
      rewrite <- !app_assoc. reflexivity.
Qed.

(** The callbacks of the source make the transitions of [transition]. *)
Lemma advance_transition p w ev : advance p w ev = transition p w ev.
Proof.
  unfold advance, step, transition. destruct ev as [|k r].
  - destruct (cleared w); [reflexivity|apply until_await_fired].
  - destruct (in_flight k w); [apply after_await_returned|reflexivity].
Qed.

Lemma session_app p a b w :
  session p (a ++ b) w = session p b (session p a w).
Proof. unfold session, run. apply fold_left_app. Qed.

Lemma session_cons p ev sch w :
  session p (ev :: sch) w = session p sch (transition p w ev).
Proof.
  unfold session, run. cbn [fold_left].
  fold (advance p w ev). rewrite advance_transition. reflexivity.
Qed.

Lemma session_snoc p sch ev w :
  session p (sch ++ [ev]) w = transition p (session p sch w) ev.
Proof. rewrite session_app, session_cons. reflexivity. Qed.

Lemma poll_snoc p sch ev :
  poll p (sch ++ [ev]) = transition p (poll p sch) ev.
Proof. apply session_snoc. Qed.

Lemma poll_app p a b : poll p (a ++ b) = session p b (poll p a).
Proof. apply session_app. Qed.

(* ------------------------------------------------------------------ *)
(** ** The classification of a fetch result *)

Lemma keeps_polling_classify p r :
  keeps_polling (classify p r) = negb (terminal p r).
Proof.
  destruct p as [o|o]; destruct r as [g|e]; cbn.
  - destruct (Luma.state g =? "completed"); cbn.
    + destruct (truthy (Luma.expected_asset o g)); reflexivity.
    + destruct (Luma.state g =? "failed"); cbn; [reflexivity|].
      destruct (Luma.state g =? "queued"); [reflexivity|].
      destruct (Luma.state g =? "dreaming"); reflexivity.
  - destruct (is_not_found e); reflexivity.
  - destruct (Runway.status g =? "SUCCEEDED"); cbn.
    + destruct (Runway.output g) as [[|u l]|]; reflexivity.
    + destruct (Runway.status g =? "FAILED"); cbn; [reflexivity|].
      destruct (Runway.status g =? "PENDING"); [reflexivity|].
      destruct (Runway.status g =? "RUNNING"); reflexivity.
  - destruct (is_not_found e); reflexivity.
Qed.

Lemma keep_status p r s d :
  classify p r = KeepPolling s d -> In s pending_statuses.
Proof.
  unfold pending_statuses.
  destruct p as [o|o]; destruct r as [g|e]; cbn.
  - destruct (Luma.state g =? "completed").
    + destruct (truthy (Luma.expected_asset o g)); discriminate.
    + destruct (Luma.state g =? "failed"); [discriminate|].
      destruct (Luma.state g =? "queued");
        [intro H; injection H as <- _; tauto|].
      destruct (Luma.state g =? "dreaming");
        intro H; injection H as <- _; tauto.
  - destruct (is_not_found e); [discriminate|].
    intro H; injection H as <- _; tauto.
  - destruct (Runway.status g =? "SUCCEEDED").
    + destruct (Runway.output g) as [[|u l]|]; discriminate.
    + destruct (Runway.status g =? "FAILED"); [discriminate|].
      destruct (Runway.status g =? "PENDING");
        [intro H; injection H as <- _; tauto|].
      destruct (Runway.status g =? "RUNNING");
        intro H; injection H as <- _; tauto.
  - destruct (is_not_found e); [discriminate|].
    intro H; injection H as <- _; tauto.
Qed.

Ltac finish_case :=
  first [ left; split; [reflexivity | eexists; reflexivity]
        | right; split;
          [reflexivity | eexists; split; [reflexivity | discriminate]] ].

Lemma finish_status p r s d o :
  classify p r = Finish s d o ->
  (s = "SUCCEEDED" /\ exists url, o = Resolved url)
  \/ (s = "FAILED" /\ exists e, o = Rejected e /\ e <> timeout_error p).
Proof.
  destruct p as [po|po]; destruct r as [g|e]; cbn.
  - destruct (Luma.state g =? "completed").
    + destruct (truthy (Luma.expected_asset po g));
        intro H; injection H as <- _ <-; finish_case.
    + destruct (Luma.state g =? "failed").
      * intro H; injection H as <- _ <-; finish_case.
      * destruct (Luma.state g =? "queued"); [discriminate|].
        destruct (Luma.state g =? "dreaming"); discriminate.
  - destruct (is_not_found e); [|discriminate].
    intro H; injection H as <- _ <-; finish_case.
  - destruct (Runway.status g =? "SUCCEEDED").
    + destruct (Runway.output g) as [[|u l]|];
        intro H; injection H as <- _ <-; finish_case.
    + destruct (Runway.status g =? "FAILED").
      * intro H; injection H as <- _ <-; finish_case.
      * destruct (Runway.status g =? "PENDING"); [discriminate|].
        destruct (Runway.status g =? "RUNNING"); discriminate.
  - destruct (is_not_found e); [|discriminate].
    intro H; injection H as <- _ <-; finish_case.
Qed.

Lemma terminal_finishes p r :
  terminal p r = true -> exists s d o, classify p r = Finish s d o.
Proof.
  intro H. pose proof (keeps_polling_classify p r) as K. rewrite H in K.
  destruct (classify p r) as [s d|s d o]; [discriminate K|eauto].
Qed.

Lemma pending_keeps p r :
  terminal p r = false -> exists s d, classify p r = KeepPolling s d.
Proof.
  intro H. pose proof (keeps_polling_classify p r) as K. rewrite H in K.
  destruct (classify p r) as [s d|s d o]; [eauto|discriminate K].
Qed.

Lemma terminal_failed_fetch p (e : JsError) :
  terminal p (inr e) = is_not_found e.
Proof. destruct p; reflexivity. Qed.

Lemma classify_failed_fetch p (e : JsError) :
  classify p (inr e)
  = if is_not_found e then
      Finish "FAILED" (Some (JObj [("reason", JStr (not_found_reason p))]))
             (Rejected (not_found_error p))
    else
      KeepPolling "POLLING_ERROR"
                  (Some (JObj [("message", JStr (je_message e))])).
Proof. destruct p; reflexivity. Qed.

Lemma classify_success_without_asset p r :
  success_without_asset p r = true ->
  classify p r
  = Finish "FAILED" (Some (JObj [("reason", JStr (no_asset_reason p))]))
           (Rejected (no_asset_error p)).
Proof.
  destruct p as [o|o]; destruct r as [g|e]; cbn; try discriminate.
  - intro H. apply andb_true_iff in H as [Hs Ha]. rewrite Hs.
    destruct (truthy (Luma.expected_asset o g)); [discriminate Ha|reflexivity].
  - intro H. apply andb_true_iff in H as [Hs Ha]. rewrite Hs.
    destruct (Runway.output g) as [[|u l]|]; [reflexivity|discriminate Ha|reflexivity].
Qed.

Lemma classify_unrecognized p r :
  unrecognized p r = true ->
  classify p r
  = KeepPolling "UNKNOWN_STATUS"
      (Some (JObj [("status", JStr (raw_status p r))])).
Proof.
  destruct p as [o|o]; destruct r as [g|e]; cbn [unrecognized existsb];
    try discriminate; intro H; apply negb_true_iff in H;
    repeat (apply orb_false_iff in H as [? H]); cbn.
  - destruct (Luma.state g =? "completed"); [discriminate|].
    destruct (Luma.state g =? "failed"); [discriminate|].
    destruct (Luma.state g =? "queued"); [discriminate|].
    destruct (Luma.state g =? "dreaming"); [discriminate|reflexivity].
  - destruct (Runway.status g =? "SUCCEEDED"); [discriminate|].
    destruct (Runway.status g =? "FAILED"); [discriminate|].
    destruct (Runway.status g =? "PENDING"); [discriminate|].
    destruct (Runway.status g =? "RUNNING"); [discriminate|reflexivity].
Qed.

Lemma unrecognized_pending p r :
  unrecognized p r = true -> terminal p r = false.
Proof.
  intro H. pose proof (keeps_polling_classify p r) as K.
  rewrite (classify_unrecognized p r H) in K. cbn in K.
  destruct (terminal p r); [discriminate K|reflexivity].
Qed.

Lemma classify_rejected_code p r s d e :
  classify p r = Finish s d (Rejected e) ->
  err_code e = InternalError \/ e = not_found_error p.
Proof.
  destruct p as [o|o]; destruct r as [g|fe]; cbn.
  - destruct (Luma.state g =? "completed").
    + destruct (truthy (Luma.expected_asset o g)); [discriminate|].
      intro H. injection H as _ _ <-. left. reflexivity.
    + destruct (Luma.state g =? "failed").
      * intro H. injection H as _ _ <-. left. reflexivity.
      * destruct (Luma.state g =? "queued"); [discriminate|].
        destruct (Luma.state g =? "dreaming"); discriminate.
  - destruct (is_not_found fe); [|discriminate].
    intro H. injection H as _ _ <-. right. reflexivity.
  - destruct (Runway.status g =? "SUCCEEDED").
    + destruct (Runway.output g) as [[|u l]|]; try discriminate;
        intro H; injection H as _ _ <-; left; reflexivity.
    + destruct (Runway.status g =? "FAILED").
      * intro H. injection H as _ _ <-. left. reflexivity.
      * destruct (Runway.status g =? "PENDING"); [discriminate|].
        destruct (Runway.status g =? "RUNNING"); discriminate.
  - destruct (is_not_found fe); [|discriminate].
    intro H. injection H as _ _ <-. right. reflexivity.
Qed.

Lemma luma_classify_resolved o r s d url :
  Luma.classify o r = Finish s d (Resolved url) -> url <> "".
Proof.
  destruct r as [g|e]; cbn.
  - destruct (Luma.state g =? "completed").
    + destruct (Luma.expected_asset o g) as [u|]; cbn [truthy js_or].
      * destruct (u =? "") eqn:E; cbn [negb]; [discriminate|].
        intro H. injection H as _ _ <-. apply String.eqb_neq. exact E.
      * discriminate.
    + destruct (Luma.state g =? "failed"); [discriminate|].
      destruct (Luma.state g =? "queued"); [discriminate|].
      destruct (Luma.state g =? "dreaming"); discriminate.
  - destruct (is_not_found e); discriminate.
Qed.

(* ------------------------------------------------------------------ *)
(** ** Counting in traces *)

Lemma count_app q (a b : list Action) :
  count q (a ++ b) = count q a + count q b.
Proof. unfold count. rewrite filter_app, length_app. reflexivity. Qed.

Lemma count_cons q a t :
  count q (a :: t) = (if q a then 1 else 0) + count q t.
Proof. unfold count; cbn [filter]. destruct (q a); reflexivity. Qed.

Lemma count_nil q : count q [] = 0.
Proof. reflexivity. Qed.

Lemma count_zero q t :
  (forall a, In a t -> q a = false) -> count q t = 0.
Proof.
  induction t as [|a t IH]; intro H; [reflexivity|].
  rewrite count_cons, (H a (or_introl eq_refl)), IH; [reflexivity|].
  intros b Hb. apply H. right. exact Hb.
Qed.

Lemma filter_zero q (t : list Action) : count q t = 0 -> filter q t = [].
Proof. unfold count. intro H. apply length_zero_iff_nil. exact H. Qed.

Lemma sent_app (a b : list Action) : sent (a ++ b) = (sent a ++ sent b)%list.
Proof. unfold sent. apply flat_map_app. Qed.

(** A progress call that can be delivered leaves the call and at most one
    message, which carries the status and the token. *)
Lemma emits_shape p status data :
  (truthy (token p) = false /\ emits p status data = [Progress status data])
  \/ exists t, token p = Some t /\ t <> ""
               /\ emits p status data
                  = [Progress status data;
                     ExchangeSend (JObj [("token", JStr t);
                                         ("value",
                                          progress_value p status data)])].
Proof.
  unfold emits, delivered, truthy.
  destruct (token p) as [t|]; [|left; split; reflexivity].
  destruct (t =? "") eqn:E; [left; split; reflexivity|].
  right. exists t. split; [reflexivity|].
  split; [apply String.eqb_neq; exact E|reflexivity].
Qed.

Lemma msg_status_progress t p status data :
  msg_status (JObj [("token", JStr t); ("value", progress_value p status data)])
  = Some status.
Proof. reflexivity. Qed.

Lemma count_emits q p status data :
  (forall m, q (ExchangeSend m) = false) ->
  count q (emits p status data) = if q (Progress status data) then 1 else 0.
Proof.
  intro Hm.
  destruct (emits_shape p status data) as [[_ E]|(t & _ & _ & E)]; rewrite E.
  - rewrite count_cons. cbn. apply Nat.add_0_r.
  - rewrite !count_cons, Hm. cbn. apply Nat.add_0_r.
Qed.

Lemma count_message_emits st p status data :
  count (is_message st) (emits p status data)
  = if truthy (token p) then (if status =? st then 1 else 0) else 0.
Proof.
  destruct (emits_shape p status data) as [[Ht E]|(t & Ht & Hne & E)];
    rewrite E.
  - rewrite Ht. reflexivity.
  - rewrite Ht. unfold truthy. apply String.eqb_neq in Hne. rewrite Hne.
    rewrite !count_cons. cbn [is_message]. rewrite msg_status_progress.
    cbn. destruct (status =? st); reflexivity.
Qed.

Lemma count_send_emits p status data :
  count is_exchange_send (emits p status data)
  = if truthy (token p) then 1 else 0.
Proof.
  destruct (emits_shape p status data) as [[Ht E]|(t & Ht & Hne & E)];
    rewrite E.
  - rewrite Ht. reflexivity.
  - rewrite Ht. unfold truthy. apply String.eqb_neq in Hne. rewrite Hne.
    reflexivity.
Qed.

Lemma is_settle_settle_action o : is_settle (settle_action o) = true.
Proof. destruct o; reflexivity. Qed.

Lemma pending_status_cases s :
  existsb (String.eqb s) pending_statuses = true ->
  s = "QUEUED" \/ s = "DREAMING" \/ s = "PENDING" \/ s = "RUNNING"
  \/ s = "UNKNOWN_STATUS" \/ s = "POLLING_ERROR".
Proof.
  intro H. apply existsb_exists in H as (x & Hin & Heq).
  apply String.eqb_eq in Heq. subst x. unfold pending_statuses in Hin.
  repeat (destruct Hin as [<-|Hin]; [tauto|]). contradiction.
Qed.

(** An effect of a session that keeps polling clears nothing, settles
    nothing, and announces no end. *)
Lemma pending_action_quiet a :
  pending_action a = true ->
  is_clear a = false /\ is_settle a = false
  /\ is_terminal_progress a = false /\ is_message "TIMEOUT" a = false
  /\ is_progress "TIMEOUT" a = false.
Proof.
  destruct a as [i| |s d|m|u|e|e]; cbn [pending_action]; try discriminate.
  - intros _. repeat split.
  - intro H. apply pending_status_cases in H.
    repeat split;
      destruct H as [-> | [-> | [-> | [-> | [-> | ->]]]]]; reflexivity.
  - intro H. repeat split. cbn [is_message].
    destruct (msg_status m) as [s|]; [|reflexivity].
    apply pending_status_cases in H.
    destruct H as [-> | [-> | [-> | [-> | [-> | ->]]]]]; reflexivity.
  - intros _. repeat split.
Qed.

Lemma pending_status_in s :
  In s pending_statuses -> existsb (String.eqb s) pending_statuses = true.
Proof.
  intro H. apply existsb_exists. exists s. split; [exact H|apply String.eqb_refl].
Qed.

Lemma pending_emits p s d :
  In s pending_statuses -> forallb pending_action (emits p s d) = true.
Proof.
  intro H. apply pending_status_in in H.
  destruct (emits_shape p s d) as [[_ E]|(t & _ & _ & E)]; rewrite E;
    cbn [forallb pending_action]; rewrite ?msg_status_progress, H; reflexivity.
Qed.

Lemma count_pending q (t : list Action) :
  (forall a, pending_action a = true -> q a = false) ->
  forallb pending_action t = true -> count q t = 0.
Proof.
  intros Hq Ht. apply count_zero. intros a Ha.
  rewrite forallb_forall in Ht. apply Hq, Ht, Ha.
Qed.

(* ------------------------------------------------------------------ *)
(** ** What one event does *)

Lemma count_verdict_actions p v :
  count is_fetch (verdict_actions p v) = 0
  /\ count is_progress_call (verdict_actions p v) = 1
  /\ count is_exchange_send (verdict_actions p v)
     = (if truthy (token p) then 1 else 0)
  /\ count is_clear (verdict_actions p v)
     = (if keeps_polling v then 0 else 1)
  /\ count is_settle (verdict_actions p v)
     = (if keeps_polling v then 0 else 1)
  /\ count is_unhandled (verdict_actions p v) = 0.
Proof.
  destruct v as [s d|s d o]; cbn [verdict_actions keeps_polling];
    rewrite ?count_cons, ?count_app, ?count_send_emits,
      ?(count_emits is_fetch), ?(count_emits is_progress_call),
      ?(count_emits is_clear), ?(count_emits is_settle),
      ?(count_emits is_unhandled) by reflexivity;
    cbn [is_fetch is_progress_call is_clear is_settle is_exchange_send
         is_unhandled];
    rewrite ?count_cons, ?count_nil; try rewrite is_settle_settle_action;
    destruct (truthy (token p)); try destruct o; repeat split; reflexivity.
Qed.

Lemma count_blocked_actions v :
  count is_fetch (blocked_actions v) = 0
  /\ count is_exchange_send (blocked_actions v) = 0
  /\ count is_settle (blocked_actions v) = 0
  /\ count is_clear (blocked_actions v) = (if keeps_polling v then 0 else 1).
Proof. destruct v; repeat split; reflexivity. Qed.

Lemma verdict_status p r :
  match classify p r with
  | KeepPolling s _ => In s pending_statuses
  | Finish s _ _ => s = "SUCCEEDED" \/ s = "FAILED"
  end.
Proof.
  destruct (classify p r) as [s d|s d o] eqn:E.
  - exact (keep_status p r s d E).
  - destruct (finish_status p r s d o E) as [[-> _]|[-> _]]; auto.
Qed.

Lemma not_timeout_status p r :
  match classify p r with
  | KeepPolling s _ | Finish s _ _ => (s =? "TIMEOUT") = false
  end.
Proof.
  pose proof (verdict_status p r) as H.
  destruct (classify p r) as [s d|s d o].
  - apply pending_status_in, pending_status_cases in H.
    destruct H as [-> | [-> | [-> | [-> | [-> | ->]]]]]; reflexivity.
  - destruct H as [->| ->]; reflexivity.
Qed.

Lemma count_timeout_verdict p r :
  count (is_progress "TIMEOUT") (verdict_actions p (classify p r)) = 0
  /\ count (is_message "TIMEOUT") (verdict_actions p (classify p r)) = 0
  /\ count (is_progress "TIMEOUT") (blocked_actions (classify p r)) = 0.
Proof.
  pose proof (not_timeout_status p r) as H.
  destruct (classify p r) as [s d|s d o];
    cbn [verdict_actions blocked_actions];
    rewrite ?count_cons, ?count_app, ?count_message_emits,
      ?(count_emits (is_progress "TIMEOUT")) by reflexivity;
    cbn [is_progress is_message]; rewrite H;
    destruct (truthy (token p)); try destruct o; repeat split; reflexivity.
Qed.

Lemma count_retried q p (r : fetch_result p) :
  q (Progress "POLLING_ERROR"
       (Some (JObj [("message", JStr (je_message not_a_function))]))) = false ->
  count q (retried p r) = 0.
Proof.
  intro H. destruct r; cbn [retried]; [|reflexivity].
  rewrite count_cons, H. reflexivity.
Qed.

Lemma remove_first_length k l :
  existsb (Nat.eqb k) l = true -> S (length (remove_first k l)) = length l.
Proof.
  induction l as [|j l IH]; cbn [existsb remove_first length]; [discriminate|].
  rewrite (Nat.eqb_sym k j). destruct (j =? k)%nat; cbn [orb length].
  - reflexivity.
  - intro H. rewrite (IH H). reflexivity.
Qed.

Lemma remove_first_incl k l j : In j (remove_first k l) -> In j l.
Proof.
  induction l as [|i l IH]; cbn [remove_first]; [tauto|].
  destruct (i =? k)%nat; cbn [In]; tauto.
Qed.

Lemma fires_app {R} (a b : list (Event R)) : fires (a ++ b) = fires a + fires b.
Proof. unfold fires. rewrite filter_app, length_app. reflexivity. Qed.

Lemma fires_cons {R} (ev : Event R) sch :
  fires (ev :: sch)
  = (match ev with Fires => 1 | Returns _ _ => 0 end) + fires sch.
Proof. destruct ev; reflexivity. Qed.

Lemma quiet_app p a b : quiet p (a ++ b) = quiet p a && quiet p b.
Proof. apply forallb_app. Qed.

(** A firing below the bound issues a fetch and waits for it. *)
Lemma fired_fetch p w :
  attempts w < max_attempts p ->
  fired p w
  = {| attempts := S (attempts w); cleared := cleared w;
       settled := settled w;
       inflight := inflight w ++ [S (attempts w)];
       trace := trace w ++ [Fetch (job_id p)] |}.
Proof.
  intro H. unfold fired. apply Nat.ltb_lt in H. rewrite H. reflexivity.
Qed.

(** A firing past the bound gives up. *)
Lemma fired_timeout p w :
  max_attempts p <= attempts w -> can_send p = true ->
  fired p w
  = {| attempts := S (attempts w); cleared := true;
       settled := settle_first (Rejected (timeout_error p)) (settled w);
       inflight := inflight w;
       trace := trace w ++ ClearInterval :: emits p "TIMEOUT" None
                           ++ [Reject (timeout_error p)] |}.
Proof.
  intros H Hs. unfold fired. apply Nat.ltb_ge in H. rewrite H, Hs. reflexivity.
Qed.

Lemma fired_timeout_blocked p w :
  max_attempts p <= attempts w -> can_send p = false ->
  fired p w
  = {| attempts := S (attempts w); cleared := true;
       settled := settled w;
       inflight := inflight w;
       trace := trace w ++ [ClearInterval; Progress "TIMEOUT" None;
                            Unhandled not_a_function] |}.
Proof.
  intros H Hs. unfold fired. apply Nat.ltb_ge in H. rewrite H, Hs. reflexivity.
Qed.

(** A fetch that settles with a result that keeps the session polling. *)
Lemma returned_keep p k r w s d :
  classify p r = KeepPolling s d -> can_send p = true ->
  returned p k r w
  = {| attempts := attempts w; cleared := cleared w; settled := settled w;
       inflight := remove_first k (inflight w);
       trace := trace w ++ emits p s d |}.
Proof.
  intros Hc Hs. unfold returned. rewrite Hc, Hs.
  cbn [keeps_polling negb verdict_actions]. rewrite orb_false_r. reflexivity.
Qed.

(** A fetch that settles with a result that ends the session. *)
Lemma returned_finish p k r w s d o :
  classify p r = Finish s d o -> can_send p = true ->
  returned p k r w
  = {| attempts := attempts w; cleared := true;
       settled := settle_first o (settled w);
       inflight := remove_first k (inflight w);
       trace := trace w ++ ClearInterval :: emits p s d
                           ++ [settle_action o] |}.
Proof.
  intros Hc Hs. unfold returned. rewrite Hc, Hs.
  cbn [keeps_polling negb verdict_actions]. rewrite orb_true_r. reflexivity.
Qed.

Lemma transition_returns p k r w :
  in_flight k w = true ->
  transition p w (Returns k r) = returned p k r w.
Proof. intro H. cbn [transition]. rewrite H. reflexivity. Qed.

Lemma transition_fires p w :
  cleared w = false -> transition p w Fires = fired p w.
Proof. intro H. cbn [transition]. rewrite H. reflexivity. Qed.

(** What a fetch result that does not end the session leaves behind,
    whether or not the progress call can be delivered. *)
Lemma returned_pending p k r w :
  terminal p r = false ->
  attempts (returned p k r w) = attempts w
  /\ cleared (returned p k r w) = cleared w
  /\ settled (returned p k r w) = settled w
  /\ inflight (returned p k r w) = remove_first k (inflight w)
  /\ exists acts,
       trace (returned p k r w) = (trace w ++ acts)%list
       /\ forallb pending_action acts = true
       /\ count is_fetch acts = 0.
Proof.
  intro Ht. destruct (pending_keeps p r Ht) as (s & d & Hc).
  pose proof (keep_status p r s d Hc) as Hs.
  unfold returned. rewrite Hc.
  destruct (can_send p); cbn [attempts cleared settled inflight trace
    keeps_polling negb verdict_actions blocked_actions];
    rewrite orb_false_r; repeat (split; [reflexivity|]).
  - exists (emits p s d). split; [reflexivity|].
    split; [apply pending_emits; exact Hs|].
    apply count_emits. reflexivity.
  - eexists. split; [reflexivity|]. split.
    + cbn [app forallb pending_action].
      rewrite (pending_status_in s Hs). rewrite forallb_app.
      destruct r; reflexivity.
    + cbn [app]. rewrite count_cons, count_app. destruct r; reflexivity.
Qed.

(* ------------------------------------------------------------------ *)
(** ** Sessions that keep polling *)

Lemma quiet_session p sch : forall w,
  quiet p sch = true ->
  cleared w = false -> settled w = None ->
  attempts w + fires sch <= max_attempts p ->
  cleared (session p sch w) = false
  /\ settled (session p sch w) = None
  /\ attempts (session p sch w) = attempts w + fires sch
  /\ exists acts,
       trace (session p sch w) = (trace w ++ acts)%list
       /\ forallb pending_action acts = true
       /\ count is_fetch acts = fires sch.
Proof.
  induction sch as [|ev sch IH]; intros w Hq Hc Hs Hle.
  - cbn. rewrite Nat.add_0_r. repeat split; try assumption.
    exists []. rewrite app_nil_r. repeat split; reflexivity.
  - rewrite session_cons. cbn [quiet forallb] in Hq.
    apply andb_true_iff in Hq as [Hev Hq]. fold (quiet p sch) in Hq.
    rewrite fires_cons in *. destruct ev as [|k r].
    + rewrite transition_fires by exact Hc.
      rewrite fired_fetch by lia.
      match goal with
      | |- context [session p sch ?w1] =>
          destruct (IH w1 Hq Hc Hs ltac:(cbn [attempts]; lia))
            as (H1 & H2 & H3 & acts & H4 & H5 & H6)
      end.
      cbn [attempts trace] in H3, H4.
      split; [exact H1|]. split; [exact H2|]. split; [rewrite H3; lia|].
      exists (Fetch (job_id p) :: acts).
      split; [rewrite H4, <- app_assoc; reflexivity|].
      split; [cbn [forallb pending_action]; exact H5|].
      rewrite count_cons. cbn [is_fetch]. rewrite H6. reflexivity.
    + cbn [transition]. destruct (in_flight k w).
      * apply negb_true_iff in Hev.
        destruct (returned_pending p k r w Hev)
          as (Ra & Rc & Rs & _ & racts & Rt & Rp & Rf).
        destruct (IH (returned p k r w) Hq ltac:(congruence) ltac:(congruence)
                    ltac:(rewrite Ra; exact Hle))
          as (H1 & H2 & H3 & acts & H4 & H5 & H6).
        split; [exact H1|]. split; [exact H2|].
        split; [rewrite H3, Ra; reflexivity|].
        exists (racts ++ acts)%list.
        split; [rewrite H4, Rt, <- app_assoc; reflexivity|].
        split; [rewrite forallb_app, Rp, H5; reflexivity|].
        rewrite count_app, Rf, H6. reflexivity.
      * apply IH; assumption.
Qed.

Lemma quiet_poll p sch :
  quiet p sch = true -> fires sch <= max_attempts p ->
  cleared (poll p sch) = false
  /\ settled (poll p sch) = None
  /\ attempts (poll p sch) = fires sch
  /\ forallb pending_action (trace (poll p sch)) = true
  /\ count is_fetch (trace (poll p sch)) = fires sch.
Proof.
  intros Hq Hle.
  destruct (quiet_session p sch initial Hq eq_refl eq_refl Hle)
    as (H1 & H2 & H3 & acts & H4 & H5 & H6).
  cbn [initial attempts trace app] in H3, H4.
  unfold poll. rewrite H4. repeat split; assumption.
Qed.

(** What the trace of a session that keeps polling does not hold. *)
Lemma quiet_counts (t : list Action) :
  forallb pending_action t = true ->
  count is_clear t = 0 /\ count is_settle t = 0
  /\ count is_terminal_progress t = 0
  /\ count (is_progress "TIMEOUT") t = 0
  /\ count (is_message "TIMEOUT") t = 0.
Proof.
  intro H. repeat split; apply (count_pending _ t); try exact H;
    intros a Ha; apply (pending_action_quiet a Ha).
Qed.

(* ------------------------------------------------------------------ *)
(** ** Sessions after [clearInterval] *)

Lemma transition_cleared p w ev :
  cleared w = true ->
  cleared (transition p w ev) = true
  /\ attempts (transition p w ev) = attempts w
  /\ (forall o, settled w = Some o -> settled (transition p w ev) = Some o)
  /\ (inflight w = [] -> transition p w ev = w)
  /\ (forall k, In k (inflight (transition p w ev)) -> In k (inflight w))
  /\ exists acts,
       trace (transition p w ev) = (trace w ++ acts)%list
       /\ count is_fetch acts = 0
       /\ count (is_progress "TIMEOUT") acts = 0
       /\ count (is_message "TIMEOUT") acts = 0.
Proof.
  intro Hc.
  assert (Hsame : cleared w = true /\ attempts w = attempts w
                  /\ (forall o, settled w = Some o -> settled w = Some o)
                  /\ (inflight w = [] -> w = w)
                  /\ (forall k, In k (inflight w) -> In k (inflight w))
                  /\ exists acts,
                       trace w = (trace w ++ acts)%list
                       /\ count is_fetch acts = 0
                       /\ count (is_progress "TIMEOUT") acts = 0
                       /\ count (is_message "TIMEOUT") acts = 0).
  { repeat split; auto. exists []. rewrite app_nil_r. repeat split. }
  destruct ev as [|k r]; cbn [transition]; [rewrite Hc; exact Hsame|].
  destruct (in_flight k w) eqn:Hk; [|exact Hsame].
  destruct (count_timeout_verdict p r) as (T1 & T2 & T3).
  destruct (count_verdict_actions p (classify p r)) as (V1 & _).
  destruct (count_blocked_actions (classify p r)) as (B1 & _).
  unfold returned.
  destruct (can_send p); cbn [attempts cleared settled inflight trace];
    rewrite Hc; cbn [orb]; split; try reflexivity; split; try reflexivity.
  - split; [intros o Ho; rewrite Ho; destruct (classify p r); reflexivity|].
    split; [intro E; unfold in_flight in Hk; rewrite E in Hk; discriminate Hk|].
    split; [intros j; apply remove_first_incl|].
    eexists. split; [reflexivity|]. repeat split; assumption.
  - split; [intros o Ho; exact Ho|].
    split; [intro E; unfold in_flight in Hk; rewrite E in Hk; discriminate Hk|].
    split; [intros j; apply remove_first_incl|].
    eexists. split; [reflexivity|].
    rewrite !count_app, B1, T3.
    rewrite !count_retried by reflexivity.
    assert (Hm : count (is_message "TIMEOUT") (blocked_actions (classify p r))
                 = 0) by (destruct (classify p r); reflexivity).
    rewrite Hm. repeat split.
Qed.

Lemma session_cleared p rest : forall w,
  cleared w = true ->
  cleared (session p rest w) = true
  /\ attempts (session p rest w) = attempts w
  /\ (forall o, settled w = Some o -> settled (session p rest w) = Some o)
  /\ (inflight w = [] -> session p rest w = w)
  /\ exists acts,
       trace (session p rest w) = (trace w ++ acts)%list
       /\ count is_fetch acts = 0
       /\ count (is_progress "TIMEOUT") acts = 0
       /\ count (is_message "TIMEOUT") acts = 0.
Proof.
  induction rest as [|ev rest IH]; intros w Hc.
  - cbn. repeat split; auto. exists []. rewrite app_nil_r. repeat split.
  - rewrite session_cons.
    destruct (transition_cleared p w ev Hc)
      as (T1 & T2 & T3 & T4 & _ & tacts & T5 & T6 & T7 & T8).
    destruct (IH _ T1) as (H1 & H2 & H3 & H4 & acts & H5 & H6 & H7 & H8).
    split; [exact H1|]. split; [rewrite H2; exact T2|].
    split; [intros o Ho; apply H3, T3, Ho|].
    split.
    + intro E. rewrite (T4 E) in *. apply H4. exact E.
    + exists (tacts ++ acts)%list.
      split; [rewrite H5, T5, <- app_assoc; reflexivity|].
      rewrite !count_app, T6, T7, T8, H6, H7, H8. repeat split.
Qed.

(* ------------------------------------------------------------------ *)
(** ** What holds in every state a session reaches *)

Lemma poll_ind p (P : list (Event (fetch_result p)) -> World -> Prop) :
  P [] initial ->
  (forall sch w ev, P sch w -> P (sch ++ [ev])%list (transition p w ev)) ->
  forall sch, P sch (poll p sch).
Proof.
  intros H0 Hstep sch. induction sch as [|ev sch IH] using rev_ind.
  - exact H0.
  - rewrite poll_snoc. apply Hstep. exact IH.
Qed.

Ltac transition_cases p w ev :=
  let k := fresh "k" in
  let r := fresh "r" in
  destruct ev as [|k r]; cbn [transition];
  [ destruct (cleared w) eqn:Hcl;
    [ | unfold fired;
        destruct (Nat.ltb_spec (attempts w) (max_attempts p)) as [Hlt|Hge];
        [ | destruct (can_send p) eqn:Hsend ] ]
  | destruct (in_flight k w) eqn:Hfl;
    [ unfold returned; destruct (can_send p) eqn:Hsend;
      destruct (classify p r) as [s d|s d o] eqn:Hcls
    | ] ];
  cbn [attempts cleared settled inflight trace keeps_polling negb
       verdict_actions blocked_actions];
  rewrite ?orb_false_r, ?orb_true_r.

Ltac count_simpl :=
  repeat first
    [ rewrite count_app | rewrite count_cons | rewrite count_nil
    | rewrite count_emits by reflexivity
    | rewrite count_retried by reflexivity
    | rewrite count_send_emits ];
  cbn [is_fetch is_clear is_settle is_progress_call is_exchange_send
       is_unhandled settle_action].

(** The counter, the bound and the fetches. *)
Lemma poll_bounds p sch :
  attempts (poll p sch) <= S (max_attempts p)
  /\ (cleared (poll p sch) = false -> attempts (poll p sch) <= max_attempts p)
  /\ count is_fetch (trace (poll p sch))
     = Nat.min (attempts (poll p sch)) (max_attempts p)
  /\ attempts (poll p sch) <= fires sch
  /\ (cleared (poll p sch) = false -> attempts (poll p sch) = fires sch).
Proof.
  apply (poll_ind p (fun sch w =>
    attempts w <= S (max_attempts p)
    /\ (cleared w = false -> attempts w <= max_attempts p)
    /\ count is_fetch (trace w) = Nat.min (attempts w) (max_attempts p)
    /\ attempts w <= fires sch
    /\ (cleared w = false -> attempts w = fires sch))).
  - cbn. repeat split; try lia; destruct (max_attempts p); reflexivity.
  - clear sch. intros sch w ev (H1 & H2 & H3 & H4 & H5).
    rewrite fires_app.
    transition_cases p w ev; cbn [fires filter length];
      try destruct o; count_simpl;
      repeat split; intros; try discriminate; try congruence; try lia;
      try (rewrite H5 by assumption; lia);
      try (specialize (H2 ltac:(assumption)); lia).
Qed.

(** The end of a session: the interval against the promise. *)
Lemma poll_ends p sch :
  (settled (poll p sch) <> None -> cleared (poll p sch) = true)
  /\ (can_send p = true -> cleared (poll p sch) = true ->
      settled (poll p sch) <> None)
  /\ (can_send p = false -> settled (poll p sch) = None)
  /\ count is_settle (trace (poll p sch)) <= count is_clear (trace (poll p sch))
  /\ (can_send p = true ->
      count is_settle (trace (poll p sch))
      = count is_clear (trace (poll p sch)))
  /\ (cleared (poll p sch) = false ->
      forallb pending_action (trace (poll p sch)) = true).
Proof.
  apply (poll_ind p (fun _ w =>
    (settled w <> None -> cleared w = true)
    /\ (can_send p = true -> cleared w = true -> settled w <> None)
    /\ (can_send p = false -> settled w = None)
    /\ count is_settle (trace w) <= count is_clear (trace w)
    /\ (can_send p = true -> count is_settle (trace w) = count is_clear (trace w))
    /\ (cleared w = false -> forallb pending_action (trace w) = true))).
  - cbn. repeat split; try congruence; try lia.
  - clear sch. intros _ w ev (H1 & H2 & H3 & H4 & H5 & H6).
    transition_cases p w ev;
      try (pose proof (pending_emits p s d (keep_status p _ s d Hcls)) as Hpe);
      try (pose proof (pending_status_in s (keep_status p _ s d Hcls)) as Hps);
      try destruct o; count_simpl; rewrite ?forallb_app;
      cbn [forallb pending_action];
      repeat split; intros; try discriminate; try congruence; try lia;
      try (destruct (settled w); cbn [settle_first]; congruence);
      try (rewrite H5 by assumption; lia);
      try (rewrite H6 by (assumption || reflexivity);
           try rewrite Hpe; try rewrite Hps; try destruct r; reflexivity);
      try (exfalso; specialize (H1 ltac:(assumption)); discriminate);
      auto.
Qed.

(** One progress call for every firing that has run to its end. *)
Lemma poll_progress_calls p sch :
  can_send p = true ->
  count is_progress_call (trace (poll p sch))
  + length (inflight (poll p sch)) = attempts (poll p sch)
  /\ count is_exchange_send (trace (poll p sch))
     = (if truthy (token p) then count is_progress_call (trace (poll p sch))
        else 0).
Proof.
  intro Hs.
  apply (poll_ind p (fun _ w =>
    count is_progress_call (trace w) + length (inflight w) = attempts w
    /\ count is_exchange_send (trace w)
       = (if truthy (token p) then count is_progress_call (trace w) else 0))).
  - cbn. destruct (truthy (token p)); split; reflexivity.
  - clear sch. intros _ w ev (H1 & H2).
    transition_cases p w ev; try congruence;
      try (pose proof (remove_first_length _ _ Hfl) as Hrm);
      try destruct o; count_simpl; rewrite ?length_app; cbn [length];
      rewrite ?H2; destruct (truthy (token p)); split; lia.
Qed.

(** Where a settlement comes from. *)
Lemma poll_settled_from p sch o :
  settled (poll p sch) = Some o ->
  o = Rejected (timeout_error p)
  \/ exists r s d, classify p r = Finish s d o.
Proof.
  revert o.
  apply (poll_ind p (fun _ w => forall o,
    settled w = Some o ->
    o = Rejected (timeout_error p)
    \/ exists r s d, classify p r = Finish s d o)).
  - discriminate.
  - clear sch. intros _ w ev IH o'.
    transition_cases p w ev; auto;
      destruct (settled w) as [first|] eqn:Es; cbn [settle_first]; auto;
      intro H; injection H as <-; eauto.
Qed.

Lemma sent_emits p status data m :
  In m (sent (emits p status data)) -> msg_token m = token p.
Proof.
  destruct (emits_shape p status data) as [[_ E]|(t & Ht & _ & E)]; rewrite E.
  - intros [].
  - intros [<-|[]]. rewrite Ht. reflexivity.
Qed.

Lemma sent_emits_no_token p status data :
  truthy (token p) = false -> sent (emits p status data) = [].
Proof.
  intro H.
  destruct (emits_shape p status data) as [[_ E]|(t & Ht & Hne & E)];
    rewrite E; [reflexivity|].
  rewrite Ht in H. unfold truthy in H. apply String.eqb_neq in Hne.
  rewrite Hne in H. discriminate H.
Qed.

Lemma sent_cons a (t : list Action) :
  sent (a :: t)
  = (match a with ExchangeSend m => [m] | _ => [] end ++ sent t)%list.
Proof. reflexivity. Qed.

Lemma sent_retried p (r : fetch_result p) : sent (retried p r) = [].
Proof. destruct r; reflexivity. Qed.

Lemma sent_verdict_actions p v :
  (forall m, In m (sent (verdict_actions p v)) -> msg_token m = token p)
  /\ (truthy (token p) = false -> sent (verdict_actions p v) = []).
Proof.
  destruct v as [s d|s d o]; cbn [verdict_actions].
  - split; [apply sent_emits|apply sent_emits_no_token].
  - rewrite sent_cons, sent_app. cbn [app].
    replace (sent [settle_action o]) with (@nil JsVal)
      by (destruct o; reflexivity).
    rewrite app_nil_r.
    split; [apply sent_emits|apply sent_emits_no_token].
Qed.

Lemma sent_blocked_actions v : sent (blocked_actions v) = [].
Proof. destruct v; reflexivity. Qed.

(** The messages of a session. *)
Lemma poll_messages p sch :
  (forall m, In m (sent (trace (poll p sch))) -> msg_token m = token p)
  /\ (truthy (token p) = false -> sent (trace (poll p sch)) = []).
Proof.
  apply (poll_ind p (fun _ w =>
    (forall m, In m (sent (trace w)) -> msg_token m = token p)
    /\ (truthy (token p) = false -> sent (trace w) = []))).
  - split; [intros m []|reflexivity].
  - clear sch. intros _ w ev (H1 & H2).
    assert (Hext : forall acts,
      (forall m, In m (sent acts) -> msg_token m = token p) ->
      (truthy (token p) = false -> sent acts = []) ->
      (forall m, In m (sent (trace w ++ acts)) -> msg_token m = token p)
      /\ (truthy (token p) = false -> sent (trace w ++ acts) = [])).
    { intros acts A1 A2. rewrite sent_app. split.
      - intros m Hm. apply in_app_or in Hm as [Hm|Hm]; auto.
      - intro Ht. rewrite (H2 Ht), (A2 Ht). reflexivity. }
    destruct ev as [|k r]; cbn [transition].
    + destruct (cleared w); [split; assumption|]. unfold fired.
      destruct (attempts w <? max_attempts p)%nat; cbn [trace].
      * apply Hext; [intros m []|reflexivity].
      * destruct (can_send p); cbn [trace].
        -- apply (Hext (verdict_actions p
                          (Finish "TIMEOUT" None (Rejected (timeout_error p))))).
           ++ apply sent_verdict_actions.
           ++ apply sent_verdict_actions.
        -- apply Hext; [intros m []|reflexivity].
    + destruct (in_flight k w); [|split; assumption]. unfold returned.
      destruct (can_send p); cbn [trace].
      * apply Hext; apply sent_verdict_actions.
      * assert (E : sent (blocked_actions (classify p r) ++ retried p r
                            ++ [Unhandled not_a_function]) = []).
        { rewrite !sent_app, sent_blocked_actions, sent_retried. reflexivity. }
        apply Hext; rewrite E; [intros m []|reflexivity].
Qed.

(* ------------------------------------------------------------------ *)
(** ** The event that ends a session *)

Lemma poll_cons_rest p pre ev rest :
  poll p (pre ++ ev :: rest) = session p rest (poll p (pre ++ [ev])).
Proof.
  change (pre ++ ev :: rest)%list with (pre ++ [ev] ++ rest)%list.
  rewrite app_assoc. apply poll_app.
Qed.

Lemma only_transport_errors_quiet p sch :
  only_transport_errors p sch = true -> quiet p sch = true.
Proof.
  unfold only_transport_errors, quiet. intro H.
  rewrite forallb_forall in *. intros ev Hev. specialize (H ev Hev).
  destruct ev as [|k [s|e]]; [reflexivity|discriminate H|].
  rewrite terminal_failed_fetch. exact H.
Qed.

(** After [clearInterval], whatever follows: no firing runs, no fetch is
    issued, no timeout is announced, and a settled promise stays as it
    is. *)
Lemma after_clear p w rest :
  cleared w = true ->
  cleared (session p rest w) = true
  /\ attempts (session p rest w) = attempts w
  /\ count is_fetch (trace (session p rest w)) = count is_fetch (trace w)
  /\ count (is_progress "TIMEOUT") (trace (session p rest w))
     = count (is_progress "TIMEOUT") (trace w)
  /\ count (is_message "TIMEOUT") (trace (session p rest w))
     = count (is_message "TIMEOUT") (trace w)
  /\ (forall o, settled w = Some o -> settled (session p rest w) = Some o)
  /\ (inflight w = [] -> session p rest w = w)
  /\ exists later, trace (session p rest w) = (trace w ++ later)%list.
Proof.
  intro Hc.
  destruct (session_cleared p rest w Hc)
    as (H1 & H2 & H3 & H4 & acts & H5 & H6 & H7 & H8).
  split; [exact H1|]. split; [exact H2|].
  rewrite H5, !count_app, H6, H7, H8, !Nat.add_0_r.
  repeat (split; [reflexivity|]). split; [exact H3|].
  split; [exact H4|]. exists acts. reflexivity.
Qed.

(** The firing after the bound, in a session that has kept polling. *)
Lemma timeout_firing p pre :
  quiet p pre = true ->
  fires pre = max_attempts p ->
  attempts (poll p (pre ++ [Fires])) = S (max_attempts p)
  /\ cleared (poll p (pre ++ [Fires])) = true
  /\ inflight (poll p (pre ++ [Fires])) = inflight (poll p pre)
  /\ count is_fetch (trace (poll p (pre ++ [Fires]))) = max_attempts p
  /\ count (is_progress "TIMEOUT") (trace (poll p (pre ++ [Fires]))) = 1
  /\ count is_clear (trace (poll p (pre ++ [Fires]))) = 1
  /\ count is_terminal_progress (trace (poll p (pre ++ [Fires]))) = 1
  /\ (can_send p = true ->
      settled (poll p (pre ++ [Fires])) = Some (Rejected (timeout_error p))
      /\ trace (poll p (pre ++ [Fires]))
         = (trace (poll p pre)
            ++ ClearInterval :: emits p "TIMEOUT" None
            ++ [Reject (timeout_error p)])%list)
  /\ (can_send p = false ->
      settled (poll p (pre ++ [Fires])) = None
      /\ trace (poll p (pre ++ [Fires]))
         = (trace (poll p pre)
            ++ [ClearInterval; Progress "TIMEOUT" None;
                Unhandled not_a_function])%list).
Proof.
  intros Hq Hf.
  destruct (quiet_poll p pre Hq ltac:(lia)) as (Hc & Hs & Ha & Hp & Hn).
  destruct (quiet_counts _ Hp) as (Q1 & Q2 & Q3 & Q4 & Q5).
  rewrite poll_snoc, transition_fires by exact Hc.
  destruct (can_send p) eqn:Hsend.
  - rewrite fired_timeout by (lia || exact Hsend).
    cbn [attempts cleared settled inflight trace].
    rewrite Hs, Ha, Hf. cbn [settle_first]. count_simpl.
    cbn [is_fetch is_progress is_clear is_terminal_progress orb].
    rewrite Hn, Q1, Q3, Q4, Hf.
    repeat split; try reflexivity; try lia; discriminate.
  - rewrite fired_timeout_blocked by (lia || exact Hsend).
    cbn [attempts cleared settled inflight trace].
    rewrite Hs, Ha, Hf. count_simpl. cbn [is_progress is_terminal_progress orb].
    rewrite Hn, Q1, Q3, Q4, Hf.
    repeat split; try reflexivity; try lia; discriminate.
Qed.

(** A fetch in flight that settles with a terminal result, in a session
    that has kept polling. *)
Lemma ending_return p pre k r s d o :
  quiet p pre = true ->
  fires pre <= max_attempts p ->
  in_flight k (poll p pre) = true ->
  classify p r = Finish s d o ->
  can_send p = true ->
  poll p (pre ++ [Returns k r])
  = {| attempts := fires pre; cleared := true; settled := Some o;
       inflight := remove_first k (inflight (poll p pre));
       trace := trace (poll p pre)
                ++ ClearInterval :: emits p s d ++ [settle_action o] |}.
Proof.
  intros Hq Hf Hk Hc Hsend.
  destruct (quiet_poll p pre Hq Hf) as (_ & Hs & Ha & _).
  rewrite poll_snoc, transition_returns by exact Hk.
  rewrite (returned_finish p k r _ s d o Hc Hsend), Hs, Ha. reflexivity.
Qed.

(** ... and with a result that keeps the session polling, in any state. *)
Lemma keeping_return p w k r s d :
  in_flight k w = true ->
  classify p r = KeepPolling s d ->
  can_send p = true ->
  transition p w (Returns k r)
  = {| attempts := attempts w; cleared := cleared w; settled := settled w;
       inflight := remove_first k (inflight w);
       trace := trace w ++ emits p s d |}.
Proof.
  intros Hk Hc Hsend. rewrite transition_returns by exact Hk.
  apply returned_keep; assumption.
Qed.

Lemma count_ending_actions p s d o :
  s = "SUCCEEDED" \/ s = "FAILED" \/ s = "TIMEOUT" ->
  count is_clear (ClearInterval :: emits p s d ++ [settle_action o]) = 1
  /\ count is_settle (ClearInterval :: emits p s d ++ [settle_action o]) = 1
  /\ count is_terminal_progress
       (ClearInterval :: emits p s d ++ [settle_action o]) = 1
  /\ count is_fetch (ClearInterval :: emits p s d ++ [settle_action o]) = 0
  /\ filter is_settle (ClearInterval :: emits p s d ++ [settle_action o])
     = [settle_action o].
Proof.
  intro Hs.
  assert (Ht : is_terminal_progress (Progress s d) = true)
    by (destruct Hs as [->|[->| ->]]; reflexivity).
  assert (Hf : filter is_settle (emits p s d) = [])
    by (apply filter_zero; rewrite count_emits by reflexivity; reflexivity).
  repeat split; count_simpl; rewrite ?count_emits by reflexivity;
    rewrite ?Ht; cbn [is_clear is_settle is_fetch];
    try (destruct o; reflexivity).
  cbn [filter is_settle]. rewrite filter_app, Hf. cbn [app filter].
  rewrite is_settle_settle_action. reflexivity.
Qed.

(** The progress call and the message, written out. *)
Lemma emits_some p status d :
  emits p status (Some d)
  = Progress status (Some d)
    :: delivered p (JObj [("status", JStr status); (data_key p, d)]).
Proof. reflexivity. Qed.

Lemma emits_none p status :
  emits p status None
  = Progress status None :: delivered p (JObj [("status", JStr status)]).
Proof. reflexivity. Qed.

Lemma sent_delivered p t value :
  token p = Some t -> t <> "" ->
  sent (delivered p value) = [JObj [("token", JStr t); ("value", value)]].
Proof.
  intros Ht Hne. unfold delivered. rewrite Ht.
  apply String.eqb_neq in Hne. rewrite Hne. reflexivity.
Qed.

Lemma transition_extends p w ev :
  exists later, trace (transition p w ev) = (trace w ++ later)%list.
Proof.
  assert (Hsame : exists later, trace w = (trace w ++ later)%list)
    by (exists []; rewrite app_nil_r; reflexivity).
  destruct ev as [|k r]; cbn [transition].
  - destruct (cleared w); [exact Hsame|]. unfold fired.
    destruct (attempts w <? max_attempts p)%nat; [|destruct (can_send p)];
      cbn [trace]; eexists; reflexivity.
  - destruct (in_flight k w); [|exact Hsame]. unfold returned.
    destruct (can_send p); cbn [trace]; eexists; reflexivity.
Qed.

Lemma session_extends p rest : forall w,
  exists later, trace (session p rest w) = (trace w ++ later)%list.
Proof.
  induction rest as [|ev rest IH]; intro w.
  - exists []. rewrite app_nil_r. reflexivity.
  - rewrite session_cons. destruct (transition_extends p w ev) as (l1 & E1).
    destruct (IH (transition p w ev)) as (l2 & E2).
    exists (l1 ++ l2)%list. rewrite E2, E1, app_assoc. reflexivity.
Qed.

Lemma pending_not_succeeded (t : list Action) :
  forallb pending_action t = true ->
  count (is_progress "SUCCEEDED") t = 0
  /\ (forall url, ~ In (Resolve url) t).
Proof.
  intro H. split.
  - apply (count_pending _ t); [|exact H]. intros a Ha.
    destruct (pending_action_quiet a Ha) as (_ & _ & H3 & _).
    unfold is_terminal_progress in H3.
    apply orb_false_iff in H3 as [H3 _]. apply orb_false_iff in H3 as [H3 _].
    exact H3.
  - intros url Hin. rewrite forallb_forall in H.
    specialize (H _ Hin). discriminate H.
Qed.

Lemma classify_success_with_asset p r :
  reports_success p r = true ->
  success_without_asset p r = false ->
  exists url,
    extracted_url p r = Some url
    /\ classify p r
       = Finish "SUCCEEDED" (Some (JObj [(asset_key p, JStr url)]))
                (Resolved url).
Proof.
  destruct p as [o|o]; destruct r as [g|e]; cbn; try discriminate.
  - intros Hs. rewrite Hs. cbn [andb]. intro Ha.
    apply negb_false_iff in Ha. rewrite Ha.
    destruct (Luma.expected_asset o g) as [u|]; [|discriminate Ha].
    exists u. split; [reflexivity|].
    cbn [truthy js_or] in *. destruct (u =? ""); [discriminate Ha|reflexivity].
  - intros Hs. rewrite Hs. cbn [andb].
    destruct (Runway.output g) as [[|u l]|]; try discriminate.
    intros _. exists u. split; reflexivity.
Qed.

(* ------------------------------------------------------------------ *)
(** ** The pollers by their own names, and the sessions the tools start *)

Lemma send_progress_emit p status data :
  send_progress p status data
  = emit (data_key p) (token p) (exchange p) status data.
Proof.
  destruct p as [o|o]; cbn [send_progress data_key token exchange].
  - apply luma_sendProgress_emit.
  - apply runway_sendProgress_emit.
Qed.

Lemma poll_luma o sch : Luma.pollLumaTask o sch = poll (LumaPoller o) sch.
Proof. reflexivity. Qed.

Lemma poll_runway o sch :
  Runway.pollRunwayTask o sch = poll (RunwayPoller o) sch.
Proof. reflexivity. Qed.

(** The options of a session started by the image tool. *)
Lemma image_tool_poll_options env v x acts response o :
  LumaImage.lumaGenerateImageTool env (inl v) x = (acts, response) ->
  In (StartLumaPoll o) acts ->
  Luma.expectedAssetType o = None
  /\ Luma.progressToken o = exchange_progressToken x
  /\ Luma.mcpExchange o = x
  /\ Luma.generationId o <> "".
Proof.
  unfold LumaImage.lumaGenerateImageTool, LumaImage.try_block.
  destruct (truthy (LUMAAI_API_KEY env)).
  - destruct (generations_image_create env _) as [c|t].
    + destruct (js_or (created_id c) "" =? "") eqn:Eid.
      * intro H; injection H as <- _. intros [Hin|[]]. discriminate Hin.
      * intro H; injection H as <- _. intros [Hin|Hin]; [discriminate Hin|].
        apply in_app_or in Hin as [Hin|[Hin|[]]].
        -- unfold exchange_send_opt in Hin.
           destruct (exchange_has_sendProgress x); [|contradiction].
           destruct Hin as [Hin|[]]. discriminate Hin.
        -- injection Hin as <-. cbn.
           repeat split. intro Hid. rewrite Hid in Eid. discriminate Eid.
    + intro H; injection H as <- _. intros [Hin|[]]. discriminate Hin.
  - intro H; injection H as <- _. intros [].
Qed.

(* ------------------------------------------------------------------ *)
(** ** C1: which ticks count toward the bound *)

(** C1, as stated, fails.  The callback runs [attempts++] as its first
    statement, before the fetch: a first firing whose fetch dies with a
    network error leaves the counter at 1, not at 0. *)
Lemma C1_counterexample :
  let o := {| Luma.generationId := "gen-1";
              Luma.mcpExchange := {| exchange_progressToken := Some "tok-1";
                                     exchange_has_sendProgress := true |};
              Luma.progressToken := Some "tok-1";
              Luma.expectedAssetType := None |} in
  let e := {| je_isAPIError := false; je_status := None;
              je_message := "socket hang up" |} in
  attempts initial = 0
  /\ attempts (Luma.pollLumaTask o [Fires; Returns 1 (inr e)]) = 1
  /\ ~ attempts_unchanged_by_failed_fetch.
Proof.
  split; [reflexivity|]. split; [reflexivity|].
  intro H.
  specialize (H (LumaPoller
                   {| Luma.generationId := "gen-1";
                      Luma.mcpExchange :=
                        {| exchange_progressToken := Some "tok-1";
                           exchange_has_sendProgress := true |};
                      Luma.progressToken := Some "tok-1";
                      Luma.expectedAssetType := None |})
                {| je_isAPIError := false; je_status := None;
                   je_message := "socket hang up" |}
                initial eq_refl).
  vm_compute in H. discriminate H.
Qed.

(** C1, amended: in both pollers every run of the callback increments
    [attempts] by one as its first statement, before the fetch is issued,
    and the result of the fetch does not change the counter; so a firing
    whose fetch raises a transport error counts toward the bound like
    any other.  A session whose first [MAX_POLLING_ATTEMPTS] firings only
    saw fetches raise errors other than a 404, in whatever order they
    settled, has issued exactly that many fetches, and its next firing
    takes the timeout branch: it clears the interval, makes the TIMEOUT
    progress call and, when that can be delivered, rejects with the
    timeout error. *)
Theorem C1_every_tick_counts (p : Poller) (w : World) (k : nat)
    (r : fetch_result p) (pre rest : list (Event (fetch_result p))) :
  only_transport_errors p pre = true ->
  fires pre = max_attempts p ->
  attempts (invoke (until_await p) w) = S (attempts w)
  /\ attempts (advance p w (Returns k r)) = attempts w
  /\ let s := poll p (pre ++ Fires :: rest) in
     attempts s = S (max_attempts p)
     /\ cleared s = true
     /\ count is_fetch (trace s) = max_attempts p
     /\ count (is_progress "TIMEOUT") (trace s) = 1
     /\ (can_send p = true -> settled s = Some (Rejected (timeout_error p))).
Proof.
  intros He Hf. split; [|split].
  - rewrite until_await_fired. unfold fired.
    destruct (attempts w <? max_attempts p)%nat; [reflexivity|].
    destruct (can_send p); reflexivity.
  - rewrite advance_transition. cbn [transition].
    destruct (in_flight k w); [|reflexivity].
    unfold returned. destruct (can_send p); reflexivity.
  - pose proof (only_transport_errors_quiet p pre He) as Hq.
    destruct (timeout_firing p pre Hq Hf)
      as (T1 & T2 & _ & T4 & T5 & _ & _ & T8 & _).
    cbv zeta. rewrite poll_cons_rest.
    destruct (after_clear p _ rest T2) as (A1 & A2 & A3 & A4 & _ & A6 & _).
    rewrite A1, A2, A3, A4, T1, T4, T5.
    repeat (split; [reflexivity|]).
    intro Hs. apply A6. apply (T8 Hs).
Qed.

Lemma C1_every_tick_counts_witness :
  let p := RunwayPoller
             {| Runway.taskId := "task-1";
                Runway.mcpExchange := {| exchange_progressToken := Some "tok-1";
                                         exchange_has_sendProgress := true |};
                Runway.progressToken := Some "tok-1" |} in
  let e : fetch_result p :=
    inr {| je_isAPIError := false; je_status := None;
           je_message := "socket hang up" |} in
  let s := poll p (sequential (repeat e 60) ++ [Fires]) in
  attempts s = 61 /\ count is_fetch (trace s) = 60
  /\ settled s = Some (Rejected (timeout_error p)).
Proof.
  intros p e.
  destruct (C1_every_tick_counts p initial 1 e (sequential (repeat e 60)) []
              eq_refl eq_refl) as (_ & _ & Ha & _ & Hf & _ & Hs).
  cbv zeta. split; [exact Ha|]. split; [exact Hf|]. exact (Hs eq_refl).
Defined.

(* ------------------------------------------------------------------ *)
(** ** C2: the timeout, and a terminal status on the last attempt *)

(** C2, as stated, fails in two places.  The callbacks have no guard for
    a fetch that is still in flight when the interval fires again: when
    the fetch of the 60th attempt is slow, the 61st firing rejects with
    the timeout first, and the SUCCEEDED result that arrives afterwards
    is reported but no longer changes the outcome.  And the TIMEOUT
    progress call precedes [reject]: on an exchange without
    [sendProgress] it throws, and the promise is left pending. *)
Lemma C2_counterexample :
  let p := RunwayPoller
             {| Runway.taskId := "task-1";
                Runway.mcpExchange := {| exchange_progressToken := Some "tok-1";
                                         exchange_has_sendProgress := true |};
                Runway.progressToken := Some "tok-1" |} in
  let bare := RunwayPoller
                {| Runway.taskId := "task-1";
                   Runway.mcpExchange :=
                     {| exchange_progressToken := Some "tok-1";
                        exchange_has_sendProgress := false |};
                   Runway.progressToken := Some "tok-1" |} in
  let running : Runway.FetchResult :=
    inl {| Runway.status := "RUNNING"; Runway.output := None |} in
  let succeeded : Runway.FetchResult :=
    inl {| Runway.status := "SUCCEEDED";
           Runway.output := Some ["https://x/video.mp4"] |} in
  let pre := (sequential (repeat running 59) ++ [Fires; Fires])%list in
  in_flight 60 (poll p pre) = true
  /\ settled (poll p (pre ++ [Returns 60 succeeded]))
     = Some (Rejected (timeout_error p))
  /\ In (Progress "SUCCEEDED"
           (Some (JObj [("videoUrl", JStr "https://x/video.mp4")])))
        (trace (poll p (pre ++ [Returns 60 succeeded])))
  /\ ~ last_attempt_result_decides
  /\ cleared (poll bare (sequential (repeat running 60) ++ [Fires])) = true
  /\ settled (poll bare (sequential (repeat running 60) ++ [Fires])) = None
  /\ ~ timeout_always_rejects.
Proof.
  intros p bare running succeeded pre.
  split; [reflexivity|]. split; [vm_compute; reflexivity|].
  split; [vm_compute; tauto|]. split.
  - intro H. apply (H p pre succeeded); vm_compute; reflexivity.
  - split; [vm_compute; reflexivity|]. split; [vm_compute; reflexivity|].
    intro H.
    specialize (H bare (sequential (repeat running 60)) eq_refl eq_refl).
    vm_compute in H. discriminate H.
Qed.

(** C2, amended: [MAX_POLLING_ATTEMPTS] is 60.  When 60 firings have run
    and no fetch has settled with a terminal result, the next firing
    clears the interval, calls [sendProgress('TIMEOUT')] and issues no
    fetch; whatever follows, the TIMEOUT call stays the only one and no
    further fetch is issued.  When the progress message can be delivered
    (no token, or an exchange with [sendProgress]) that firing rejects
    with the timeout error, for good, after one TIMEOUT message under a
    token.  And a fetch, the 60th included, that settles with a terminal
    result before the firing past the bound settles the promise with
    that result's outcome under status SUCCEEDED or FAILED, never with
    the timeout.  The timeout error is an InternalError that names the
    job. *)
Theorem C2_timeout_after_max_attempts (p : Poller)
    (pre : list (Event (fetch_result p))) (k : nat) (r : fetch_result p)
    (rest : list (Event (fetch_result p))) :
  quiet p pre = true ->
  fires pre <= max_attempts p ->
  max_attempts p = 60
  /\ timeout_error p
     = mkMcpError InternalError
         match p with
         | LumaPoller o =>
             "Polling timed out for Luma AI task " ++ Luma.generationId o
         | RunwayPoller o =>
             "Polling timed out for RunwayML task " ++ Runway.taskId o
         end
  /\ (fires pre = max_attempts p ->
      let w := poll p (pre ++ Fires :: rest) in
      cleared w = true
      /\ count (is_progress "TIMEOUT") (trace w) = 1
      /\ count is_fetch (trace w) = max_attempts p
      /\ (can_send p = true ->
          settled w = Some (Rejected (timeout_error p))
          /\ trace (poll p (pre ++ [Fires]))
             = (trace (poll p pre)
                ++ ClearInterval :: Progress "TIMEOUT" None
                   :: delivered p (JObj [("status", JStr "TIMEOUT")])
                   ++ [Reject (timeout_error p)])%list
          /\ count (is_message "TIMEOUT") (trace w)
             = (if truthy (token p) then 1 else 0)))
  /\ (in_flight k (poll p pre) = true ->
      terminal p r = true ->
      can_send p = true ->
      let w := poll p (pre ++ Returns k r :: rest) in
      exists status data o,
        classify p r = Finish status data o
        /\ ((status = "SUCCEEDED" /\ exists url, o = Resolved url)
            \/ (status = "FAILED"
                /\ exists e, o = Rejected e /\ e <> timeout_error p))
        /\ settled w = Some o
        /\ In (Progress status data) (trace w)
        /\ count (is_progress "TIMEOUT") (trace w) = 0).
Proof.
  intros Hq Hle. split; [destruct p; reflexivity|].
  split; [destruct p; reflexivity|]. split.
  - intro Hf. cbv zeta.
    destruct (timeout_firing p pre Hq Hf)
      as (_ & T2 & _ & T4 & T5 & _ & _ & T8 & _).
    rewrite poll_cons_rest.
    destruct (after_clear p _ rest T2) as (A1 & _ & A3 & A4 & A5 & A6 & _).
    rewrite A1, A3, A4, A5, T4, T5.
    repeat (split; [reflexivity|]).
    intro Hs. destruct (T8 Hs) as [S1 S2].
    split; [apply A6; exact S1|]. split; [exact S2|].
    rewrite S2.
    destruct (quiet_poll p pre Hq Hle) as (_ & _ & _ & Hp & _).
    destruct (quiet_counts _ Hp) as (_ & _ & _ & _ & Q5).
    rewrite count_app, Q5, count_cons, count_app, count_message_emits.
    cbn. destruct (truthy (token p)); reflexivity.
  - intros Hk Ht Hs. cbv zeta.
    destruct (terminal_finishes p r Ht) as (s & d & o & Hc).
    exists s, d, o. split; [exact Hc|].
    pose proof (finish_status p r s d o Hc) as Hst.
    split; [exact Hst|].
    pose proof (ending_return p pre k r s d o Hq Hle Hk Hc Hs) as E.
    rewrite poll_cons_rest.
    assert (Hcl : cleared (poll p (pre ++ [Returns k r])) = true)
      by (rewrite E; reflexivity).
    destruct (after_clear p _ rest Hcl)
      as (_ & _ & _ & A4 & _ & A6 & _ & later & A8).
    split; [apply A6; rewrite E; reflexivity|]. split.
    + rewrite A8, E. cbn [trace]. apply in_or_app. left.
      apply in_or_app. right. right. left. reflexivity.
    + rewrite A4, E. cbn [trace].
      destruct (quiet_poll p pre Hq Hle) as (_ & _ & _ & Hp & _).
      destruct (quiet_counts _ Hp) as (_ & _ & _ & Q4 & _).
      rewrite count_app, Q4. count_simpl. cbn [is_progress].
      assert (Hn : (s =? "TIMEOUT") = false)
        by (destruct Hst as [[-> _]|[-> _]]; reflexivity).
      rewrite Hn. destruct o; reflexivity.
Qed.

Lemma C2_timeout_after_max_attempts_witness :
  let p := RunwayPoller
             {| Runway.taskId := "task-1";
                Runway.mcpExchange := {| exchange_progressToken := Some "tok-1";
                                         exchange_has_sendProgress := true |};
                Runway.progressToken := Some "tok-1" |} in
  let running : fetch_result p :=
    inl {| Runway.status := "RUNNING"; Runway.output := None |} in
  let succeeded : fetch_result p :=
    inl {| Runway.status := "SUCCEEDED";
           Runway.output := Some ["https://x/video.mp4"] |} in
  let w := poll p (sequential (repeat running 60) ++ [Fires]) in
  (settled w = Some (Rejected (timeout_error p))
   /\ count (is_progress "TIMEOUT") (trace w) = 1
   /\ count (is_message "TIMEOUT") (trace w) = 1
   /\ count is_fetch (trace w) = 60)
  /\ settled (poll p ((sequential (repeat running 59) ++ [Fires])
                      ++ [Returns 60 succeeded]))
     = Some (Resolved "https://x/video.mp4").
Proof.
  intros p running succeeded. cbv zeta. split.
  - destruct (proj1 (proj2 (proj2 (C2_timeout_after_max_attempts p
                              (sequential (repeat running 60)) 0 running []
                              eq_refl (le_n 60)))) eq_refl)
      as (_ & H2 & H3 & H4).
    destruct (H4 eq_refl) as (H5 & _ & H6).
    split; [exact H5|]. split; [exact H2|]. split; [exact H6|exact H3].
  - destruct (proj2 (proj2 (proj2 (C2_timeout_after_max_attempts p
                              (sequential (repeat running 59) ++ [Fires])
                              60 succeeded [] eq_refl
                              ltac:(vm_compute; lia))))
                eq_refl eq_refl eq_refl)
      as (s & d & o & Hc & _ & Hs & _).
    rewrite Hs. vm_compute in Hc. injection Hc as _ _ <-. reflexivity.
Defined.
(* ------------------------------------------------------------------ *)
(** ** C3: success without a result asset *)

(** Where the code departs from C3: [pollRunwayTask] tests the output
    list ([taskStatus.output && taskStatus.output.length > 0]), not the
    URL it takes from it.  A SUCCEEDED task whose list holds an empty
    string has an empty extracted URL, and the session ends as
    SUCCEEDED, resolved with the empty string.  [pollLumaTask] tests the
    URL itself ([if (assetUrl)]) and rejects the same shape. *)
Lemma C3_failing_input :
  let x := {| exchange_progressToken := Some "tok-1";
              exchange_has_sendProgress := true |} in
  let p := RunwayPoller {| Runway.taskId := "task-1";
                           Runway.mcpExchange := x;
                           Runway.progressToken := Some "tok-1" |} in
  let q := LumaPoller {| Luma.generationId := "gen-1";
                         Luma.mcpExchange := x;
                         Luma.progressToken := Some "tok-1";
                         Luma.expectedAssetType := None |} in
  let r : fetch_result p :=
    inl {| Runway.status := "SUCCEEDED"; Runway.output := Some [""] |} in
  let g : fetch_result q :=
    inl {| Luma.state := "completed";
           Luma.assets := Some {| Luma.assets_video := Some "";
                                  Luma.assets_image := None |};
           Luma.failure_reason := None |} in
  reports_success p r = true
  /\ extracted_url p r = Some ""
  /\ settled (poll p [Fires; Returns 1 r]) = Some (Resolved "")
  /\ trace (poll p [Fires; Returns 1 r])
     = [Fetch "task-1"; ClearInterval;
        Progress "SUCCEEDED" (Some (JObj [("videoUrl", JStr "")]));
        ExchangeSend
          (JObj [("token", JStr "tok-1");
                 ("value", JObj [("status", JStr "SUCCEEDED");
                                 ("data", JObj [("videoUrl", JStr "")])])]);
        Resolve ""]
  /\ settled (poll q [Fires; Returns 1 g])
     = Some (Rejected (no_asset_error q))
  /\ ~ success_with_empty_url_is_failed.
Proof.
  intros x p q r g.
  split; [reflexivity|]. split; [reflexivity|]. split; [reflexivity|].
  split; [reflexivity|]. split; [reflexivity|].
  intro H.
  destruct (H p [Fires] 1 r eq_refl ltac:(vm_compute; lia) eq_refl eq_refl
              eq_refl eq_refl) as (e & He).
  vm_compute in He. discriminate He.
Qed.

(** C3, on every snapshot in which the callback finds no asset (a
    [completed] generation whose asset of the expected kind is absent or
    empty, a [SUCCEEDED] task whose output list is absent or empty): the
    tick clears the interval, makes one FAILED progress call whose
    reason says that the task completed (succeeded) but no URL was
    found, sends that reason under the token, and rejects; there is no
    SUCCEEDED progress call and no call of [resolve], and the rejection
    stays the outcome.  On every other snapshot that reports success the
    session is resolved with the extracted URL, which [pollRunwayTask]
    does not test for emptiness. *)
Theorem C3_success_without_asset (p : Poller)
    (pre : list (Event (fetch_result p))) (k : nat) (r : fetch_result p)
    (rest : list (Event (fetch_result p))) :
  quiet p pre = true ->
  fires pre <= max_attempts p ->
  in_flight k (poll p pre) = true ->
  can_send p = true ->
  reports_success p r = true ->
  let w := poll p (pre ++ [Returns k r]) in
  (success_without_asset p r = true ->
   cleared w = true
   /\ settled w = Some (Rejected (no_asset_error p))
   /\ err_code (no_asset_error p) = InternalError
   /\ trace w
      = (trace (poll p pre)
         ++ ClearInterval
            :: Progress "FAILED"
                 (Some (JObj [("reason", JStr (no_asset_reason p))]))
            :: delivered p
                 (JObj [("status", JStr "FAILED");
                        (data_key p,
                         JObj [("reason", JStr (no_asset_reason p))])])
            ++ [Reject (no_asset_error p)])%list
   /\ (forall t, token p = Some t -> t <> "" ->
       sent (trace w)
       = (sent (trace (poll p pre))
          ++ [JObj [("token", JStr t);
                    ("value",
                     JObj [("status", JStr "FAILED");
                           (data_key p,
                            JObj [("reason",
                                   JStr (no_asset_reason p))])])]])%list)
   /\ count (is_progress "SUCCEEDED") (trace w) = 0
   /\ (forall url, ~ In (Resolve url) (trace w))
   /\ settled (poll p (pre ++ Returns k r :: rest))
      = Some (Rejected (no_asset_error p)))
  /\ (success_without_asset p r = false ->
      exists url,
        extracted_url p r = Some url
        /\ settled w = Some (Resolved url)
        /\ In (Progress "SUCCEEDED" (Some (JObj [(asset_key p, JStr url)])))
              (trace w))
  /\ match p with
     | LumaPoller o =>
         data_key p = "result"
         /\ no_asset_reason p
            = "Task completed but no "
              ++ Luma.asset_type_name (Luma.expected o) ++ " URL found."
         /\ no_asset_error p
            = mkMcpError InternalError
                ("Luma AI task " ++ Luma.generationId o
                 ++ " Task completed but no "
                 ++ Luma.asset_type_name (Luma.expected o) ++ " URL found.")
     | RunwayPoller o =>
         data_key p = "data"
         /\ no_asset_reason p = "Task succeeded but no output URL found."
         /\ no_asset_error p
            = mkMcpError InternalError
                ("RunwayML task " ++ Runway.taskId o
                 ++ " succeeded but returned no output URL.")
     end.
Proof.
  intros Hq Hle Hk Hs Hr. cbv zeta.
  destruct (quiet_poll p pre Hq Hle) as (_ & _ & _ & Hp & _).
  destruct (pending_not_succeeded _ Hp) as [P1 P2].
  split.
  - intro Ha.
    pose proof (ending_return p pre k r _ _ _ Hq Hle Hk
                  (classify_success_without_asset p r Ha) Hs) as E.
    rewrite emits_some in E. cbn [app] in E.
    rewrite (poll_cons_rest p pre (Returns k r) rest). rewrite E.
    cbn [cleared settled trace settle_action].
    split; [reflexivity|]. split; [reflexivity|].
    split; [destruct p; reflexivity|]. split; [reflexivity|]. split.
    { intros t Ht Hne. rewrite sent_app, sent_cons, sent_cons, sent_app.
      rewrite (sent_delivered p t _ Ht Hne). reflexivity. }
    split.
    { rewrite count_app, P1, !count_cons, count_app.
      rewrite (count_zero (is_progress "SUCCEEDED") (delivered p _)).
      - reflexivity.
      - intros a Hin. unfold delivered in Hin.
        destruct (token p) as [t|]; [|destruct Hin].
        destruct (t =? ""); [destruct Hin|].
        destruct Hin as [<-|[]]. reflexivity. }
    split.
    { intros url Hin. apply in_app_or in Hin as [Hin|Hin];
        [exact (P2 url Hin)|].
      destruct Hin as [Hin|[Hin|Hin]]; try discriminate Hin.
      apply in_app_or in Hin as [Hin|[Hin|[]]]; [|discriminate Hin].
      unfold delivered in Hin.
      destruct (token p) as [t|]; [|destruct Hin].
      destruct (t =? ""); [destruct Hin|].
      destruct Hin as [Hin|[]]. discriminate Hin. }
    assert (Hcl : cleared {| attempts := fires pre; cleared := true;
                             settled := Some (Rejected (no_asset_error p));
                             inflight := remove_first k (inflight (poll p pre));
                             trace := trace (poll p pre)
                               ++ ClearInterval
                                  :: Progress "FAILED"
                                       (Some (JObj [("reason",
                                                     JStr (no_asset_reason p))]))
                                  :: delivered p
                                       (JObj [("status", JStr "FAILED");
                                              (data_key p,
                                               JObj [("reason",
                                                      JStr (no_asset_reason p))])])
                                  ++ [Reject (no_asset_error p)] |} = true)
      by reflexivity.
    destruct (after_clear p _ rest Hcl) as (_ & _ & _ & _ & _ & A6 & _).
    apply A6. reflexivity.
  - split; [|destruct p; repeat split; reflexivity].
    intro Ha.
    destruct (classify_success_with_asset p r Hr Ha) as (url & Hu & Hc).
    exists url. split; [exact Hu|].
    rewrite (ending_return p pre k r _ _ _ Hq Hle Hk Hc Hs).
    cbn [settled trace]. split; [reflexivity|].
    apply in_or_app. right. right. left. reflexivity.
Qed.

Lemma C3_success_without_asset_witness :
  let x := {| exchange_progressToken := Some "tok-1";
              exchange_has_sendProgress := true |} in
  let q := LumaPoller {| Luma.generationId := "gen-1";
                         Luma.mcpExchange := x;
                         Luma.progressToken := Some "tok-1";
                         Luma.expectedAssetType := None |} in
  let g : fetch_result q :=
    inl {| Luma.state := "completed";
           Luma.assets := Some {| Luma.assets_video := None;
                                  Luma.assets_image := None |};
           Luma.failure_reason := None |} in
  let p := RunwayPoller {| Runway.taskId := "task-1";
                           Runway.mcpExchange := x;
                           Runway.progressToken := Some "tok-1" |} in
  let r : fetch_result p :=
    inl {| Runway.status := "SUCCEEDED"; Runway.output := Some [] |} in
  (settled (poll q [Fires; Returns 1 g])
   = Some (Rejected
             (mkMcpError InternalError
                "Luma AI task gen-1 Task completed but no video URL found."))
   /\ sent (trace (poll q [Fires; Returns 1 g]))
      = [JObj [("token", JStr "tok-1");
               ("value",
                JObj [("status", JStr "FAILED");
                      ("result",
                       JObj [("reason",
                              JStr "Task completed but no video URL found.")])])]])
  /\ settled (poll p [Fires; Returns 1 r])
     = Some (Rejected
               (mkMcpError InternalError
                  "RunwayML task task-1 succeeded but returned no output URL.")).
Proof.
  intros x q g p r. cbv zeta. split.
  - destruct (proj1 (C3_success_without_asset q [Fires] 1 g [] eq_refl
                       ltac:(vm_compute; lia) eq_refl eq_refl eq_refl)
                eq_refl) as (_ & H2 & _ & _ & H5 & _).
    split; [exact H2|]. exact (H5 "tok-1" eq_refl ltac:(discriminate)).
  - destruct (proj1 (C3_success_without_asset p [Fires] 1 r [] eq_refl
                       ltac:(vm_compute; lia) eq_refl eq_refl eq_refl)
                eq_refl) as (_ & H2 & _).
    exact H2.
Defined.

(* ------------------------------------------------------------------ *)
(** ** C4: a 404 from the status fetch *)

(** C4, as stated, fails in three places.  Nothing holds the interval
    back while a fetch is in flight: when the 404 of the first attempt
    arrives after the second firing, the fetch of the second attempt has
    been issued, and its result is still reported after the FAILED
    event; had that result come first and been SUCCEEDED, the promise
    would be resolved and the 404 could no longer reject it.  And the
    FAILED progress call precedes [reject]: on an exchange without
    [sendProgress] it throws and the promise is left pending. *)
Lemma C4_counterexample :
  let p := RunwayPoller
             {| Runway.taskId := "task-1";
                Runway.mcpExchange := {| exchange_progressToken := Some "tok-1";
                                         exchange_has_sendProgress := true |};
                Runway.progressToken := Some "tok-1" |} in
  let bare := RunwayPoller
                {| Runway.taskId := "task-1";
                   Runway.mcpExchange :=
                     {| exchange_progressToken := Some "tok-1";
                        exchange_has_sendProgress := false |};
                   Runway.progressToken := Some "tok-1" |} in
  let gone := {| je_isAPIError := true; je_status := Some 404%Z;
                 je_message := "Not Found" |} in
  let running : Runway.FetchResult :=
    inl {| Runway.status := "RUNNING"; Runway.output := None |} in
  let succeeded : Runway.FetchResult :=
    inl {| Runway.status := "SUCCEEDED";
           Runway.output := Some ["https://x/video.mp4"] |} in
  count is_fetch (trace (poll p [Fires; Fires; Returns 1 (inr gone)])) = 2
  /\ ~ no_fetch_past_failing_attempt
  /\ trace (poll p [Fires; Fires; Returns 1 (inr gone); Returns 2 running])
     = [Fetch "task-1"; Fetch "task-1"; ClearInterval;
        Progress "FAILED"
          (Some (JObj [("reason", JStr "Task ID task-1 not found.")]));
        ExchangeSend
          (JObj [("token", JStr "tok-1");
                 ("value",
                  JObj [("status", JStr "FAILED");
                        ("data",
                         JObj [("reason",
                                JStr "Task ID task-1 not found.")])])]);
        Reject (mkMcpError InvalidRequest "RunwayML task ID task-1 not found.");
        Progress "RUNNING" None;
        ExchangeSend
          (JObj [("token", JStr "tok-1");
                 ("value", JObj [("status", JStr "RUNNING")])])]
  /\ settled (poll p [Fires; Fires; Returns 2 succeeded; Returns 1 (inr gone)])
     = Some (Resolved "https://x/video.mp4")
  /\ cleared (poll bare [Fires; Returns 1 (inr gone)]) = true
  /\ settled (poll bare [Fires; Returns 1 (inr gone)]) = None
  /\ ~ not_found_always_rejects.
Proof.
  intros p bare gone running succeeded.
  split; [reflexivity|]. split.
  { intro H. specialize (H p [Fires; Fires] 1 gone eq_refl eq_refl).
    vm_compute in H. discriminate H. }
  split; [reflexivity|].
  split; [reflexivity|]. split; [reflexivity|]. split; [reflexivity|].
  intro H. specialize (H bare [Fires] 1 gone eq_refl eq_refl).
  vm_compute in H. discriminate H.
Qed.

(** C4, amended: when the status fetch of some attempt raises an
    APIError with status 404 before any fetch has settled with a
    terminal result and before the timeout, the tick of that fetch
    clears the interval at once, whatever the attempt count, and makes
    one FAILED progress call whose reason says the job ID was not found;
    no later firing runs, so no fetch is issued from then on (fetches
    already in flight are not withdrawn, and with none in flight nothing
    at all happens afterwards).  When the progress message can be
    delivered (no token, or an exchange with [sendProgress]) the tick
    sends it under the token and rejects the promise with the
    InvalidRequest not-found error, for good. *)
Theorem C4_not_found_fails_at_once (p : Poller)
    (pre : list (Event (fetch_result p))) (k : nat) (e : JsError)
    (rest : list (Event (fetch_result p))) :
  quiet p pre = true ->
  fires pre <= max_attempts p ->
  in_flight k (poll p pre) = true ->
  is_not_found e = true ->
  let w0 := poll p pre in
  let w := poll p (pre ++ [Returns k (inr e)]) in
  let w' := poll p (pre ++ Returns k (inr e) :: rest) in
  cleared w = true
  /\ cleared w' = true
  /\ attempts w' = fires pre
  /\ count is_fetch (trace w') = fires pre
  /\ (exists later,
        trace w
        = (trace w0
           ++ ClearInterval
              :: Progress "FAILED"
                   (Some (JObj [("reason", JStr (not_found_reason p))]))
              :: later)%list)
  /\ count is_terminal_progress (trace w) = 1
  /\ (can_send p = true ->
      settled w = Some (Rejected (not_found_error p))
      /\ err_code (not_found_error p) = InvalidRequest
      /\ trace w
         = (trace w0
            ++ ClearInterval
               :: Progress "FAILED"
                    (Some (JObj [("reason", JStr (not_found_reason p))]))
               :: delivered p
                    (JObj [("status", JStr "FAILED");
                           (data_key p,
                            JObj [("reason", JStr (not_found_reason p))])])
               ++ [Reject (not_found_error p)])%list
      /\ (forall t, token p = Some t -> t <> "" ->
          sent (trace w)
          = (sent (trace w0)
             ++ [JObj [("token", JStr t);
                       ("value",
                        JObj [("status", JStr "FAILED");
                              (data_key p,
                               JObj [("reason",
                                      JStr (not_found_reason p))])])]])%list)
      /\ settled w' = Some (Rejected (not_found_error p)))
  /\ (inflight w0 = [k] -> w' = w)
  /\ match p with
     | LumaPoller o =>
         data_key p = "result"
         /\ not_found_reason p
            = "Generation ID " ++ Luma.generationId o ++ " not found."
         /\ not_found_error p
            = mkMcpError InvalidRequest
                ("Luma AI generation ID " ++ Luma.generationId o
                 ++ " not found.")
     | RunwayPoller o =>
         data_key p = "data"
         /\ not_found_reason p
            = "Task ID " ++ Runway.taskId o ++ " not found."
         /\ not_found_error p
            = mkMcpError InvalidRequest
                ("RunwayML task ID " ++ Runway.taskId o ++ " not found.")
     end.
Proof.
  intros Hq Hle Hk He. cbv zeta.
  destruct (quiet_poll p pre Hq Hle) as (Q1 & Q2 & Q3 & Q4 & Q5).
  destruct (quiet_counts _ Q4) as (_ & _ & Q8 & _).
  assert (Hc : classify p (inr e)
               = Finish "FAILED"
                   (Some (JObj [("reason", JStr (not_found_reason p))]))
                   (Rejected (not_found_error p)))
    by (rewrite classify_failed_fetch, He; reflexivity).
  assert (E : poll p (pre ++ [Returns k (inr e)])
              = returned p k (inr e) (poll p pre))
    by (rewrite poll_snoc; apply transition_returns; exact Hk).
  assert (Hcl : cleared (poll p (pre ++ [Returns k (inr e)])) = true).
  { rewrite E. unfold returned. rewrite Hc.
    destruct (can_send p); cbn [cleared keeps_polling negb];
      apply orb_true_r. }
  assert (Hat : attempts (poll p (pre ++ [Returns k (inr e)])) = fires pre).
  { rewrite E. unfold returned. destruct (can_send p); exact Q3. }
  assert (Hfe : count is_fetch (trace (poll p (pre ++ [Returns k (inr e)])))
                = fires pre).
  { rewrite E. unfold returned. rewrite Hc.
    destruct (can_send p); cbn [trace verdict_actions blocked_actions retried];
      rewrite count_app, Q5; count_simpl; cbn; lia. }
  assert (Hin : inflight (poll p (pre ++ [Returns k (inr e)]))
                = remove_first k (inflight (poll p pre))).
  { rewrite E. unfold returned. destruct (can_send p); reflexivity. }
  assert (Hrest : poll p (pre ++ Returns k (inr e) :: rest)
                  = session p rest (poll p (pre ++ [Returns k (inr e)])))
    by apply poll_cons_rest.
  rewrite Hrest.
  destruct (after_clear p _ rest Hcl) as (A1 & A2 & A3 & _ & _ & A6 & A7 & _).
  split; [exact Hcl|]. split; [exact A1|].
  split; [rewrite A2; exact Hat|]. split; [rewrite A3; exact Hfe|].
  split.
  { rewrite E. unfold returned. rewrite Hc.
    destruct (can_send p);
      cbn [trace verdict_actions blocked_actions emits app];
      eexists; reflexivity. }
  split.
  { rewrite E. unfold returned. rewrite Hc.
    destruct (can_send p);
      cbn [trace verdict_actions blocked_actions retried];
      rewrite count_app, Q8; count_simpl; reflexivity. }
  split.
  - intro Hs.
    pose proof E as E'.
    rewrite (returned_finish p k (inr e) _ _ _ _ Hc Hs), Q2, emits_some in E'.
    cbn [settle_first app settle_action] in E'.
    split; [rewrite E'; reflexivity|].
    split; [destruct p; reflexivity|].
    split; [rewrite E'; reflexivity|]. split.
    + intros t Ht Hne. rewrite E'. cbn [trace].
      rewrite sent_app, sent_cons, sent_cons, sent_app.
      rewrite (sent_delivered p t _ Ht Hne). reflexivity.
    + apply A6. rewrite E'. reflexivity.
  - split; [|destruct p; repeat split; reflexivity].
    intro H1. apply A7. rewrite Hin, H1. cbn [remove_first].
    rewrite Nat.eqb_refl. reflexivity.
Qed.

Lemma C4_not_found_fails_at_once_witness :
  let p := LumaPoller
             {| Luma.generationId := "gen-1";
                Luma.mcpExchange := {| exchange_progressToken := Some "tok-1";
                                       exchange_has_sendProgress := true |};
                Luma.progressToken := Some "tok-1";
                Luma.expectedAssetType := None |} in
  let gone := {| je_isAPIError := true; je_status := Some 404%Z;
                 je_message := "Not Found" |} in
  let w := poll p [Fires; Returns 1 (inr gone); Fires; Fires] in
  settled w
  = Some (Rejected (mkMcpError InvalidRequest
                      "Luma AI generation ID gen-1 not found."))
  /\ count is_fetch (trace w) = 1
  /\ sent (trace w)
     = [JObj [("token", JStr "tok-1");
              ("value",
               JObj [("status", JStr "FAILED");
                     ("result",
                      JObj [("reason",
                             JStr "Generation ID gen-1 not found.")])])]].
Proof.
  intros p gone. cbv zeta.
  destruct (C4_not_found_fails_at_once p [Fires] 1 gone [Fires; Fires]
              eq_refl ltac:(vm_compute; lia) eq_refl eq_refl)
    as (_ & _ & _ & H4 & _ & _ & H7 & H8 & _).
  destruct (H7 eq_refl) as (_ & _ & _ & H5 & H6).
  split; [exact H6|]. split; [exact H4|].
  exact (eq_trans (f_equal (fun s => sent (trace s)) (H8 eq_refl))
                  (H5 "tok-1" eq_refl ltac:(discriminate))).
Defined.
(* ------------------------------------------------------------------ *)
(** ** C5: a transport error other than a 404 *)

(** C5, as stated, fails in its last part, and its event needs an
    exchange that can take it.  With two fetches in flight the second
    can settle first: when it reports FAILED, the transport error of the
    first attempt is reported after that terminal event.  And on an
    exchange without [sendProgress] the POLLING_ERROR call is made but
    no message is delivered. *)
Lemma C5_counterexample :
  let p := RunwayPoller
             {| Runway.taskId := "task-1";
                Runway.mcpExchange := {| exchange_progressToken := Some "tok-1";
                                         exchange_has_sendProgress := true |};
                Runway.progressToken := Some "tok-1" |} in
  let bare := RunwayPoller
                {| Runway.taskId := "task-1";
                   Runway.mcpExchange :=
                     {| exchange_progressToken := Some "tok-1";
                        exchange_has_sendProgress := false |};
                   Runway.progressToken := Some "tok-1" |} in
  let reset := {| je_isAPIError := false; je_status := None;
                  je_message := "socket hang up" |} in
  let failed : Runway.FetchResult :=
    inl {| Runway.status := "FAILED"; Runway.output := None |} in
  trace (poll p [Fires; Fires; Returns 2 failed; Returns 1 (inr reset)])
  = [Fetch "task-1"; Fetch "task-1"; ClearInterval;
     Progress "FAILED"
       (Some (JObj [("reason", JStr "RunwayML task failed (Status: FAILED)")]));
     ExchangeSend
       (JObj [("token", JStr "tok-1");
              ("value",
               JObj [("status", JStr "FAILED");
                     ("data",
                      JObj [("reason",
                             JStr "RunwayML task failed (Status: FAILED)")])])]);
     Reject (mkMcpError InternalError "RunwayML task failed (Status: FAILED)");
     Progress "POLLING_ERROR"
       (Some (JObj [("message", JStr "socket hang up")]));
     ExchangeSend
       (JObj [("token", JStr "tok-1");
              ("value",
               JObj [("status", JStr "POLLING_ERROR");
                     ("data",
                      JObj [("message", JStr "socket hang up")])])])]
  /\ ~ no_polling_error_after_terminal
  /\ trace (poll bare [Fires; Returns 1 (inr reset)])
     = [Fetch "task-1";
        Progress "POLLING_ERROR"
          (Some (JObj [("message", JStr "socket hang up")]));
        Unhandled not_a_function]
  /\ sent (trace (poll bare [Fires; Returns 1 (inr reset)])) = [].
Proof.
  intros p bare reset failed.
  split; [reflexivity|]. split; [|split; reflexivity].
  intro H.
  specialize (H p [Fires; Fires; Returns 2 failed; Returns 1 (inr reset)]
                [Fetch "task-1"; Fetch "task-1"; ClearInterval]
                (Progress "FAILED"
                   (Some (JObj [("reason",
                                 JStr "RunwayML task failed (Status: FAILED)")])))
                _ eq_refl eq_refl).
  vm_compute in H. discriminate H.
Qed.

(** C5, amended: when the status fetch of an attempt raises an error
    that is not an APIError with status 404, the tick of that fetch
    leaves the interval, the promise and the attempt count as they were
    and calls [sendProgress('POLLING_ERROR', { message: error.message })];
    when the message can be delivered (no token, or an exchange with
    [sendProgress]) that is all it does, and under a token the message
    carries the status and the error message.  If the interval is still
    running with fewer than [MAX_POLLING_ATTEMPTS] attempts counted, its
    next firing issues the fetch of the next attempt.  Everything that
    happens later is recorded after the POLLING_ERROR event; if no fetch
    had settled with a terminal result and the timeout had not been
    reached before, no terminal progress event precedes it. *)
Theorem C5_transport_error_keeps_polling (p : Poller)
    (pre : list (Event (fetch_result p))) (k : nat) (e : JsError)
    (rest : list (Event (fetch_result p))) :
  in_flight k (poll p pre) = true ->
  is_not_found e = false ->
  let w := poll p pre in
  let w' := poll p (pre ++ [Returns k (inr e)]) in
  cleared w' = cleared w
  /\ settled w' = settled w
  /\ attempts w' = attempts w
  /\ (exists later,
        trace w'
        = (trace w
           ++ Progress "POLLING_ERROR"
                (Some (JObj [("message", JStr (je_message e))]))
              :: later)%list)
  /\ (can_send p = true ->
      trace w'
      = (trace w
         ++ Progress "POLLING_ERROR"
              (Some (JObj [("message", JStr (je_message e))]))
            :: delivered p
                 (JObj [("status", JStr "POLLING_ERROR");
                        (data_key p,
                         JObj [("message", JStr (je_message e))])]))%list
      /\ (forall t, token p = Some t -> t <> "" ->
          sent (trace w')
          = (sent (trace w)
             ++ [JObj [("token", JStr t);
                       ("value",
                        JObj [("status", JStr "POLLING_ERROR");
                              (data_key p,
                               JObj [("message",
                                      JStr (je_message e))])])]])%list))
  /\ (cleared w = false -> attempts w < max_attempts p ->
      let next := poll p (pre ++ [Returns k (inr e); Fires]) in
      trace next = (trace w' ++ [Fetch (job_id p)])%list
      /\ attempts next = S (attempts w)
      /\ in_flight (S (attempts w)) next = true)
  /\ (quiet p pre = true -> fires pre <= max_attempts p ->
      cleared w' = false /\ settled w' = None
      /\ attempts w' = fires pre
      /\ count is_terminal_progress (trace w') = 0)
  /\ (exists later,
        trace (poll p (pre ++ Returns k (inr e) :: rest))
        = (trace w' ++ later)%list).
Proof.
  intros Hk He. cbv zeta.
  assert (Hc : classify p (inr e)
               = KeepPolling "POLLING_ERROR"
                   (Some (JObj [("message", JStr (je_message e))])))
    by (rewrite classify_failed_fetch, He; reflexivity).
  assert (E : poll p (pre ++ [Returns k (inr e)])
              = returned p k (inr e) (poll p pre))
    by (rewrite poll_snoc; apply transition_returns; exact Hk).
  assert (Ht : terminal p (inr e) = false)
    by (rewrite terminal_failed_fetch; exact He).
  destruct (returned_pending p k (inr e) (poll p pre) Ht)
    as (R1 & R2 & R3 & R4 & acts & R5 & R6 & R7).
  assert (Hrest : poll p (pre ++ Returns k (inr e) :: rest)
                  = session p rest (poll p (pre ++ [Returns k (inr e)])))
    by apply poll_cons_rest.
  assert (Hnext : poll p (pre ++ [Returns k (inr e); Fires])
                  = transition p (poll p (pre ++ [Returns k (inr e)])) Fires).
  { transitivity (session p [Fires] (poll p (pre ++ [Returns k (inr e)]))).
    - apply poll_cons_rest.
    - rewrite session_cons. reflexivity. }
  rewrite Hrest, Hnext, E.
  split; [exact R2|]. split; [exact R3|]. split; [exact R1|]. split.
  { unfold returned. rewrite Hc.
    destruct (can_send p);
      cbn [trace verdict_actions blocked_actions emits app];
      eexists; reflexivity. }
  split.
  { intro Hs. rewrite (returned_keep p k (inr e) _ _ _ Hc Hs).
    cbn [trace]. rewrite emits_some. split; [reflexivity|].
    intros t Htok Hne. rewrite sent_app, sent_cons.
    rewrite (sent_delivered p t _ Htok Hne). reflexivity. }
  split.
  { intros Hcl Hlt.
    rewrite transition_fires by (rewrite R2; exact Hcl).
    rewrite fired_fetch by (rewrite R1; exact Hlt).
    cbn [trace attempts]. rewrite R1.
    split; [reflexivity|]. split; [reflexivity|].
    unfold in_flight. cbn [inflight]. rewrite existsb_app. cbn [existsb].
    rewrite Nat.eqb_refl. rewrite orb_true_r. reflexivity. }
  split.
  { intros Hq Hle.
    destruct (quiet_poll p pre Hq Hle) as (Q1 & Q2 & Q3 & Q4 & _).
    destruct (quiet_counts _ Q4) as (_ & _ & Q8 & _).
    destruct (quiet_counts _ R6) as (_ & _ & Q9 & _).
    rewrite R1, R2, R3, R5, count_app, Q8, Q9.
    repeat split; assumption. }
  apply session_extends.
Qed.

Lemma C5_transport_error_keeps_polling_witness :
  let p := LumaPoller
             {| Luma.generationId := "gen-1";
                Luma.mcpExchange := {| exchange_progressToken := Some "tok-1";
                                       exchange_has_sendProgress := true |};
                Luma.progressToken := Some "tok-1";
                Luma.expectedAssetType := None |} in
  let reset := {| je_isAPIError := false; je_status := None;
                  je_message := "socket hang up" |} in
  settled (poll p [Fires; Returns 1 (inr reset)]) = None
  /\ sent (trace (poll p [Fires; Returns 1 (inr reset)]))
     = [JObj [("token", JStr "tok-1");
              ("value",
               JObj [("status", JStr "POLLING_ERROR");
                     ("result",
                      JObj [("message", JStr "socket hang up")])])]]
  /\ trace (poll p [Fires; Returns 1 (inr reset); Fires])
     = (trace (poll p [Fires; Returns 1 (inr reset)]) ++ [Fetch "gen-1"])%list.
Proof.
  intros p reset. cbv zeta.
  destruct (C5_transport_error_keeps_polling p [Fires] 1 reset []
              eq_refl eq_refl)
    as (_ & H2 & _ & _ & H5 & H6 & _).
  split; [exact H2|]. split.
  - exact (proj2 (H5 eq_refl) "tok-1" eq_refl ltac:(discriminate)).
  - exact (proj1 (H6 eq_refl ltac:(vm_compute; lia))).
Defined.

(* ------------------------------------------------------------------ *)
(** ** C6: the end of a session *)

(** C6, as stated, fails.  Clearing the interval stops later firings,
    not the firings that are already waiting for their fetch: with two
    fetches in flight both can settle with a terminal status, and the
    tick of each clears the interval, emits its terminal event and calls
    [resolve].  Only the promise keeps to the first call. *)
Lemma C6_counterexample :
  let p := RunwayPoller
             {| Runway.taskId := "task-1";
                Runway.mcpExchange := {| exchange_progressToken := Some "tok-1";
                                         exchange_has_sendProgress := true |};
                Runway.progressToken := Some "tok-1" |} in
  let first : Runway.FetchResult :=
    inl {| Runway.status := "SUCCEEDED";
           Runway.output := Some ["https://x/a.mp4"] |} in
  let second : Runway.FetchResult :=
    inl {| Runway.status := "SUCCEEDED";
           Runway.output := Some ["https://x/b.mp4"] |} in
  let w := poll p [Fires; Fires; Returns 1 first; Returns 2 second] in
  settled (poll p [Fires; Fires; Returns 1 first])
  = Some (Resolved "https://x/a.mp4")
  /\ settled w = Some (Resolved "https://x/a.mp4")
  /\ filter is_settle (trace w)
     = [Resolve "https://x/a.mp4"; Resolve "https://x/b.mp4"]
  /\ count (is_progress "SUCCEEDED") (trace w) = 2
  /\ count (is_message "SUCCEEDED") (trace w) = 2
  /\ count is_clear (trace w) = 2
  /\ ~ nothing_after_the_end.
Proof.
  intros p first second.
  cbv zeta. repeat (split; [reflexivity|]).
  intro H.
  specialize (H p [Fires; Fires; Returns 1 first] [Returns 2 second]
                ltac:(discriminate)).
  vm_compute in H. discriminate H.
Qed.

(** C6, amended: when a session in which no fetch has settled with a
    terminal result reaches its end (a fetch settles with a terminal
    status, or the interval fires past the bound) and the progress
    message can be delivered, that tick clears the interval first, then
    makes the one terminal progress call (SUCCEEDED, FAILED or TIMEOUT)
    and then calls [resolve] or [reject] once.  From then on the
    interval does not run the callback again: the outcome of the
    promise, the attempt count and the number of fetches issued never
    change, and when no other fetch is in flight nothing at all happens
    afterwards, so that of the results of a sequence of fetches awaited
    one at a time only the first terminal one is acted upon.  A fetch
    that was in flight at the end still has its result reported when it
    settles. *)
Theorem C6_session_ends_once (p : Poller)
    (pre : list (Event (fetch_result p))) (ev : Event (fetch_result p))
    (rest : list (Event (fetch_result p))) :
  quiet p pre = true ->
  fires pre <= max_attempts p ->
  can_send p = true ->
  match ev with
  | Fires => fires pre = max_attempts p
  | Returns k r => in_flight k (poll p pre) = true /\ terminal p r = true
  end ->
  let w := poll p (pre ++ [ev]) in
  let w' := poll p (pre ++ ev :: rest) in
  exists status data o,
    (status = "SUCCEEDED" \/ status = "FAILED" \/ status = "TIMEOUT")
    /\ match ev with
       | Fires =>
           status = "TIMEOUT" /\ data = None
           /\ o = Rejected (timeout_error p)
       | Returns _ r => classify p r = Finish status data o
       end
    /\ cleared w = true
    /\ settled w = Some o
    /\ trace w
       = (trace (poll p pre)
          ++ ClearInterval
             :: Progress status data
             :: delivered p (progress_value p status data)
             ++ [settle_action o])%list
    /\ count is_clear (trace w) = 1
    /\ count is_terminal_progress (trace w) = 1
    /\ filter is_settle (trace w) = [settle_action o]
    /\ cleared w' = true
    /\ settled w' = Some o
    /\ attempts w' = attempts w
    /\ count is_fetch (trace w') = count is_fetch (trace w)
    /\ (inflight w = [] -> w' = w).
Proof.
  intros Hq Hle Hs Hev. cbv zeta.
  destruct (quiet_poll p pre Hq Hle) as (_ & _ & _ & Q4 & _).
  destruct (quiet_counts _ Q4) as (Q6 & Q7 & Q8 & _).
  assert (End : exists status data o,
            (status = "SUCCEEDED" \/ status = "FAILED" \/ status = "TIMEOUT")
            /\ match ev with
               | Fires =>
                   status = "TIMEOUT" /\ data = None
                   /\ o = Rejected (timeout_error p)
               | Returns _ r => classify p r = Finish status data o
               end
            /\ cleared (poll p (pre ++ [ev])) = true
            /\ settled (poll p (pre ++ [ev])) = Some o
            /\ trace (poll p (pre ++ [ev]))
               = (trace (poll p pre)
                  ++ ClearInterval :: emits p status data
                  ++ [settle_action o])%list).
  { destruct ev as [|k r].
    - destruct (timeout_firing p pre Hq Hev)
        as (_ & T2 & _ & _ & _ & _ & _ & T8 & _).
      destruct (T8 Hs) as [T9 T10].
      exists "TIMEOUT", None, (Rejected (timeout_error p)).
      split; [right; right; reflexivity|].
      split; [repeat split|]. split; [exact T2|].
      split; [exact T9|]. exact T10.
    - destruct Hev as [Hk Ht].
      destruct (terminal_finishes p r Ht) as (s & d & o & Hc).
      exists s, d, o.
      rewrite (ending_return p pre k r s d o Hq Hle Hk Hc Hs).
      cbn [cleared settled trace].
      split; [|split; [exact Hc|repeat split]].
      destruct (finish_status p r s d o Hc) as [[-> _]|[-> _]];
        [left|right; left]; reflexivity. }
  destruct End as (status & data & o & Hst & Hev' & E1 & E2 & E3).
  exists status, data, o.
  destruct (count_ending_actions p status data o Hst)
    as (C1 & C2 & C3 & _ & C5).
  rewrite (poll_cons_rest p pre ev rest).
  destruct (after_clear p _ rest E1) as (A1 & A2 & A3 & _ & _ & A6 & A7 & _).
  split; [exact Hst|]. split; [exact Hev'|].
  split; [exact E1|]. split; [exact E2|].
  split; [exact E3|].
  split; [rewrite E3, count_app, Q6, C1; reflexivity|].
  split; [rewrite E3, count_app, Q8, C3; reflexivity|].
  split.
  { rewrite E3, filter_app, (filter_zero _ _ Q7), C5. reflexivity. }
  split; [exact A1|]. split; [exact (A6 o E2)|].
  split; [exact A2|]. split; [exact A3|]. exact A7.
Qed.

Lemma C6_session_ends_once_witness :
  let p := RunwayPoller
             {| Runway.taskId := "task-1";
                Runway.mcpExchange := {| exchange_progressToken := Some "tok-1";
                                         exchange_has_sendProgress := true |};
                Runway.progressToken := Some "tok-1" |} in
  let running : fetch_result p :=
    inl {| Runway.status := "RUNNING"; Runway.output := None |} in
  let succeeded : fetch_result p :=
    inl {| Runway.status := "SUCCEEDED";
           Runway.output := Some ["https://x/a.mp4"] |} in
  let failed : fetch_result p :=
    inl {| Runway.status := "FAILED"; Runway.output := None |} in
  poll p (sequential [running; succeeded; failed; succeeded])
  = poll p (sequential [running; succeeded])
  /\ settled (poll p (sequential [running; succeeded; failed; succeeded]))
     = Some (Resolved "https://x/a.mp4")
  /\ count is_clear (trace (poll p (sequential [running; succeeded]))) = 1.
Proof.
  intros p running succeeded failed. cbv zeta.
  destruct (C6_session_ends_once p
              [Fires; Returns 1 running; Fires] (Returns 2 succeeded)
              (sequential_from 3 [failed; succeeded])
              eq_refl ltac:(vm_compute; lia) eq_refl (conj eq_refl eq_refl))
    as (status & data & o & _ & _ & _ & H3 & H4 & H5 & _ & _ & _ & H9 & _ & _
        & H12).
  split; [exact (H12 eq_refl)|]. split; [|exact H5].
  assert (Ho : Some (Resolved "https://x/a.mp4") = Some o) by exact H3.
  exact (eq_trans H9 (eq_sym Ho)).
Defined.
(* ------------------------------------------------------------------ *)
(** ** C7: no token, no message *)

(** C7: in a session started without a progress token (undefined, or the
    empty string, which is as falsy), a call of the poller's
    [sendProgress] returns after logging, without touching
    [mcpExchange], whatever the status, the payload and the exchange;
    and no schedule of firings and fetch results makes the session send
    a message. *)
Theorem C7_no_token_no_message (p : Poller) (status : string)
    (data : option JsVal) (w : World)
    (sch : list (Event (fetch_result p))) :
  truthy (token p) = false ->
  send_progress p status data w = log (Progress status data) w
  /\ exec (send_progress p status data) w
     = exec (log (Progress status data)) w
  /\ sent (trace (exec (send_progress p status data) w)) = sent (trace w)
  /\ sent (trace (poll p sch)) = []
  /\ count is_exchange_send (trace (poll p sch)) = 0.
Proof.
  intro Ht.
  assert (Hs : can_send p = true) by (unfold can_send; rewrite Ht; reflexivity).
  assert (E : send_progress p status data w = log (Progress status data) w).
  { rewrite send_progress_emit, (emit_can_send p status data w Hs).
    destruct (emits_shape p status data) as [[_ ->]|(t & Htok & Hne & _)].
    - reflexivity.
    - exfalso. rewrite Htok in Ht. cbn [truthy] in Ht.
      apply negb_false_iff, String.eqb_eq in Ht. contradiction. }
  split; [exact E|]. split; [unfold exec; rewrite E; reflexivity|]. split.
  - unfold exec. rewrite E. unfold log. cbn [snd trace].
    rewrite sent_app. cbn. apply app_nil_r.
  - split; [exact (proj2 (poll_messages p sch) Ht)|].
    rewrite (proj2 (poll_progress_calls p sch Hs)), Ht. reflexivity.
Qed.

Lemma C7_no_token_no_message_witness :
  let p := LumaPoller {| Luma.generationId := "gen-1";
                         Luma.mcpExchange :=
                           {| exchange_progressToken := None;
                              exchange_has_sendProgress := false |};
                         Luma.progressToken := None;
                         Luma.expectedAssetType := None |} in
  let completed : fetch_result p :=
    inl {| Luma.state := "completed";
           Luma.assets := Some {| Luma.assets_video := Some "https://x/v.mp4";
                                  Luma.assets_image := None |};
           Luma.failure_reason := None |} in
  sent (trace (poll p [Fires; Returns 1 completed])) = []
  /\ settled (poll p [Fires; Returns 1 completed])
     = Some (Resolved "https://x/v.mp4").
Proof.
  intros p completed. split; [|reflexivity].
  exact (proj1 (proj2 (proj2 (proj2
           (C7_no_token_no_message p "SUCCEEDED" None initial
              [Fires; Returns 1 completed] eq_refl))))).
Defined.

(* ------------------------------------------------------------------ *)
(** ** C8: the reason of a failed Luma generation *)



(* ------------------------------------------------------------------ *)
(** ** C9: the text-to-video tool and provider [runwayml] *)

Lemma provider_defaults_to_runwayml args v :
  TextToVideo.generateTextToVideoSchema_parse args = inl v ->
  TextToVideo.provider args = None ->
  TextToVideo.v_provider v = TextToVideo.runwayml.
Proof.
  unfold TextToVideo.generateTextToVideoSchema_parse. intros H Hn.
  rewrite Hn in H. cbn [TextToVideo.parse_provider] in H.
  match type of H with
  | match ?l with _ => _ end = _ => destruct l; [|discriminate H]
  end.
  destruct (TextToVideo.promptText args); [|discriminate H].
  injection H as <-. reflexivity.
Qed.

(** Only the Luma branch creates a remote job. *)
Lemma job_creation_needs_lumaai env args x v :
  TextToVideo.generateTextToVideoSchema_parse args = inl v ->
  existsb TextToVideo.creates_job
    (fst (TextToVideo.generateTextToVideoTool env args x)) = true ->
  TextToVideo.v_provider v = TextToVideo.lumaai.
Proof.
  intros Hparse H. unfold TextToVideo.generateTextToVideoTool in H.
  rewrite Hparse in H. unfold TextToVideo.try_block in H.
  destruct (TextToVideo.v_provider v); [discriminate H|reflexivity].
Qed.

(** C9, on the code: for arguments whose validated provider is
    [runwayml], the tool creates no job and performs no other effect; the
    [McpError(InvalidParams, 'Invalid provider: runwayml')] thrown by the
    dispatch is caught by the tool's own [catch], which throws an
    [InternalError] whose text wraps the [message] of the caught error. *)
Theorem C9_runwayml_error_is_rewrapped (env : Env) (args : TextToVideo.Args)
    (x : Exchange) (v : TextToVideo.TextToVideoParams) :
  TextToVideo.generateTextToVideoSchema_parse args = inl v ->
  TextToVideo.v_provider v = TextToVideo.runwayml ->
  TextToVideo.try_block env v x
  = ([], inr (ThrownMcp (mkMcpError InvalidParams "Invalid provider: runwayml")))
  /\ TextToVideo.generateTextToVideoTool env args x
     = ([], inr (mkMcpError InternalError
                   ("Failed to initiate runwayml text-to-video task: "
                    ++ sdk_message env
                         (mkMcpError InvalidParams
                            "Invalid provider: runwayml")))).
Proof.
  intros Hparse Hprov.
  assert (Ht : TextToVideo.try_block env v x
               = ([], inr (ThrownMcp (mkMcpError InvalidParams
                                        "Invalid provider: runwayml"))))
    by (unfold TextToVideo.try_block; rewrite Hprov; reflexivity).
  split; [exact Ht|].
  unfold TextToVideo.generateTextToVideoTool. rewrite Hparse, Ht.
  unfold TextToVideo.catch_clause. rewrite Hprov. reflexivity.
Qed.

Lemma C9_runwayml_error_is_rewrapped_witness :
  let env := {| zod_default_message := fun _ => "Invalid input";
                sdk_message := fun e => "MCP error: " ++ err_text e;
                LUMAAI_API_KEY := Some "key";
                generations_create :=
                  fun _ => inl {| created_id := Some "gen-1" |};
                generations_image_create :=
                  fun _ => inl {| created_id := Some "img-1" |} |} in
  let args := {| TextToVideo.provider := None;
                 TextToVideo.promptText := Some "a cat surfing";
                 TextToVideo.runway_model := None;
                 TextToVideo.runway_resolution := None;
                 TextToVideo.runway_watermark := None;
                 TextToVideo.luma_model := None;
                 TextToVideo.luma_aspect_ratio := None;
                 TextToVideo.luma_loop := None;
                 TextToVideo.duration := None;
                 TextToVideo.seed := None |} in
  let x := {| exchange_progressToken := Some "tok-1";
              exchange_has_sendProgress := true |} in
  TextToVideo.generateTextToVideoTool env args x
  = ([], inr (mkMcpError InternalError
                "Failed to initiate runwayml text-to-video task: MCP error: Invalid provider: runwayml")).
Proof.
  intros env args x.
  exact (proj2 (C9_runwayml_error_is_rewrapped env args x _ eq_refl eq_refl)).
Defined.

(** The error that leaves the tool for an omitted provider does not carry
    the code [InvalidParams]. *)
Lemma C9_failing_input : ~ runwayml_rejected_as_InvalidParams.
Proof.
  intro H.
  specialize
    (H {| zod_default_message := fun _ => "Invalid input";
          sdk_message := fun e => "MCP error: " ++ err_text e;
          LUMAAI_API_KEY := Some "key";
          generations_create := fun _ => inl {| created_id := Some "gen-1" |};
          generations_image_create :=
            fun _ => inl {| created_id := Some "img-1" |} |}
       {| TextToVideo.provider := None;
          TextToVideo.promptText := Some "a cat surfing";
          TextToVideo.runway_model := None;
          TextToVideo.runway_resolution := None;
          TextToVideo.runway_watermark := None;
          TextToVideo.luma_model := None;
          TextToVideo.luma_aspect_ratio := None;
          TextToVideo.luma_loop := None;
          TextToVideo.duration := None;
          TextToVideo.seed := None |}
       {| exchange_progressToken := None; exchange_has_sendProgress := true |}
       _ eq_refl eq_refl).
  destruct H as (e & He & Hc). vm_compute in He.
  injection He as <-. discriminate Hc.
Qed.

(* ------------------------------------------------------------------ *)
(** ** C10: the image tool polls for a video *)


(* ------------------------------------------------------------------ *)
(** ** Sessions over any schedule of firings and fetch results *)

(** X1: however long the interval keeps firing, whatever the fetches
    return and in whatever order they settle, a session issues at most
    [MAX_POLLING_ATTEMPTS] status fetches, at most one per firing, and
    its attempt counter never passes the bound by more than one. *)
Theorem poll_fetches_bounded (p : Poller)
    (sch : list (Event (fetch_result p))) :
  count is_fetch (trace (poll p sch)) <= Nat.min (fires sch) (max_attempts p)
  /\ count is_fetch (trace (poll p sch))
     = Nat.min (attempts (poll p sch)) (max_attempts p)
  /\ attempts (poll p sch) <= S (max_attempts p)
  /\ attempts (poll p sch) <= fires sch.
Proof.
  destruct (poll_bounds p sch) as (B1 & _ & B3 & B4 & _).
  split; [rewrite B3; lia|]. split; [exact B3|]. split; assumption.
Qed.

(** X2: a session cannot outlive the bound: once the interval has fired
    more than [MAX_POLLING_ATTEMPTS] times the handle is cleared,
    whatever the fetches returned.  The promise is then settled if the
    progress messages can be delivered (no token, or an exchange with
    [sendProgress]); if they cannot, the progress call before every
    [resolve] / [reject] throws and the promise is never settled. *)
Theorem poll_over_after_bound (p : Poller)
    (sch : list (Event (fetch_result p))) :
  max_attempts p < fires sch ->
  cleared (poll p sch) = true
  /\ (can_send p = true -> exists o, settled (poll p sch) = Some o)
  /\ (can_send p = false -> settled (poll p sch) = None).
Proof.
  intro Hlt.
  destruct (poll_bounds p sch) as (_ & B2 & _ & _ & B5).
  destruct (poll_ends p sch) as (_ & E2 & E3 & _).
  assert (Hcl : cleared (poll p sch) = true).
  { destruct (cleared (poll p sch)); [reflexivity|].
    specialize (B2 eq_refl). specialize (B5 eq_refl). lia. }
  split; [exact Hcl|]. split; [|exact E3].
  intro Hs. specialize (E2 Hs Hcl).
  destruct (settled (poll p sch)) as [o|]; [exists o; reflexivity|].
  contradiction.
Qed.

Lemma poll_over_after_bound_witness :
  let p := RunwayPoller
             {| Runway.taskId := "task-1";
                Runway.mcpExchange := {| exchange_progressToken := None;
                                         exchange_has_sendProgress := false |};
                Runway.progressToken := None |} in
  let running : fetch_result p :=
    inl {| Runway.status := "RUNNING"; Runway.output := None |} in
  cleared (poll p (sequential (repeat running 60) ++ [Fires])) = true
  /\ exists o,
       settled (poll p (sequential (repeat running 60) ++ [Fires])) = Some o.
Proof.
  intros p running.
  destruct (poll_over_after_bound p (sequential (repeat running 60) ++ [Fires])
              ltac:(vm_compute; lia)) as (H1 & H2 & _).
  split; [exact H1|exact (H2 eq_refl)].
Defined.

(** X3: in every reachable state of a session a settled promise means a
    cleared interval, and [resolve] / [reject] have been called at most
    as often as [clearInterval]; while the interval is not cleared there
    has been no call of either and no SUCCEEDED, FAILED or TIMEOUT
    progress call.  When the progress messages can be delivered the
    converse holds too: the interval is cleared exactly when the promise
    is settled, with as many calls of the one as of the other. *)
Theorem poll_settles_with_clear (p : Poller)
    (sch : list (Event (fetch_result p))) :
  let w := poll p sch in
  (settled w <> None -> cleared w = true)
  /\ count is_settle (trace w) <= count is_clear (trace w)
  /\ (cleared w = false ->
      count is_clear (trace w) = 0
      /\ count is_settle (trace w) = 0
      /\ count is_terminal_progress (trace w) = 0)
  /\ (can_send p = true ->
      (cleared w = true <-> settled w <> None)
      /\ count is_settle (trace w) = count is_clear (trace w))
  /\ (can_send p = false -> settled w = None).
Proof.
  cbv zeta.
  destruct (poll_ends p sch) as (E1 & E2 & E3 & E4 & E5 & E6).
  split; [exact E1|]. split; [exact E4|]. split.
  { intro Hcl. destruct (quiet_counts _ (E6 Hcl)) as (Q1 & Q2 & Q3 & _).
    repeat split; assumption. }
  split; [|exact E3].
  intro Hs. split; [|exact (E5 Hs)].
  split; [exact (E2 Hs)|exact E1].
Qed.

(* ------------------------------------------------------------------ *)
(** ** One progress call per fetch result *)

(** X4: when the progress messages can be delivered, every firing that
    has run is either still waiting for its fetch or has made exactly
    one [sendProgress] call: the number of progress calls plus the
    number of fetches in flight equals the attempt counter.  With a
    token supplied each call hands one message to the exchange, without
    a token none; and every message carries the session's token. *)
Theorem poll_one_progress_call_per_tick (p : Poller)
    (sch : list (Event (fetch_result p))) :
  can_send p = true ->
  let w := poll p sch in
  count is_progress_call (trace w) + length (inflight w) = attempts w
  /\ (inflight w = [] -> count is_progress_call (trace w) = attempts w)
  /\ count is_exchange_send (trace w)
     = (if truthy (token p) then count is_progress_call (trace w) else 0)
  /\ (forall m, In m (sent (trace w)) -> msg_token m = token p).
Proof.
  intro Hs. cbv zeta.
  destruct (poll_progress_calls p sch Hs) as [P1 P2].
  split; [exact P1|]. split.
  { intro Hi. rewrite Hi in P1. cbn [length] in P1. lia. }
  split; [exact P2|]. exact (proj1 (poll_messages p sch)).
Qed.

Lemma poll_one_progress_call_per_tick_witness :
  let p := LumaPoller
             {| Luma.generationId := "gen-1";
                Luma.mcpExchange := {| exchange_progressToken := Some "tok-1";
                                       exchange_has_sendProgress := true |};
                Luma.progressToken := Some "tok-1";
                Luma.expectedAssetType := None |} in
  let dreaming : fetch_result p :=
    inl {| Luma.state := "dreaming"; Luma.assets := None;
           Luma.failure_reason := None |} in
  let w := poll p [Fires; Fires; Returns 2 dreaming; Fires] in
  count is_progress_call (trace w) + 2 = 3
  /\ count is_exchange_send (trace w) = count is_progress_call (trace w).
Proof.
  intros p dreaming. cbv zeta.
  destruct (poll_one_progress_call_per_tick p
              [Fires; Fires; Returns 2 dreaming; Fires] eq_refl)
    as (H1 & _ & H3 & _).
  split; [exact H1|exact H3].
Defined.

(* ------------------------------------------------------------------ *)
(** ** The success path *)

(** X5: when a status fetch returns a [SUCCEEDED] task whose output list
    is not empty, before any terminal result and before the timeout,
    and the progress message can be delivered, the Runway poller clears
    the interval, makes one SUCCEEDED progress call whose payload is
    [{videoUrl}] with the first element of the list, whatever follows
    it, sends it nested under [data] when there is a token, and
    resolves with that element, for good; it has issued one fetch per
    firing and issues none afterwards. *)
Theorem runway_success_resolves_first_output (o : Runway.PollOptions)
    (pre : list (Event Runway.FetchResult)) (k : nat) (t : Runway.Task)
    (url : string) (others : list string)
    (rest : list (Event Runway.FetchResult)) :
  quiet (RunwayPoller o) pre = true ->
  fires pre <= Runway.MAX_POLLING_ATTEMPTS ->
  in_flight k (Runway.pollRunwayTask o pre) = true ->
  can_send (RunwayPoller o) = true ->
  Runway.status t = "SUCCEEDED" ->
  Runway.output t = Some (url :: others) ->
  let w := Runway.pollRunwayTask o (pre ++ [Returns k (inl t)]) in
  let w' := Runway.pollRunwayTask o (pre ++ Returns k (inl t) :: rest) in
  settled w = Some (Resolved url)
  /\ settled w' = Some (Resolved url)
  /\ trace w
     = (trace (Runway.pollRunwayTask o pre)
        ++ ClearInterval
           :: Progress "SUCCEEDED" (Some (JObj [("videoUrl", JStr url)]))
           :: delivered (RunwayPoller o)
                (JObj [("status", JStr "SUCCEEDED");
                       ("data", JObj [("videoUrl", JStr url)])])
           ++ [Resolve url])%list
  /\ count is_fetch (trace w') = fires pre.
Proof.
  intros Hq Hle Hk Hs Hst Hout w w'. subst w w'.
  rewrite !poll_runway in *.
  assert (Hc : classify (RunwayPoller o) (inl t)
               = Finish "SUCCEEDED" (Some (JObj [("videoUrl", JStr url)]))
                        (Resolved url))
    by (cbn; rewrite Hst, Hout; reflexivity).
  pose proof (ending_return (RunwayPoller o) pre k (inl t) _ _ _
                Hq Hle Hk Hc Hs) as E.
  rewrite emits_some in E. cbn [app settle_action data_key] in E.
  assert (Hrest : poll (RunwayPoller o) (pre ++ Returns k (inl t) :: rest)
                  = session (RunwayPoller o) rest
                      (poll (RunwayPoller o) (pre ++ [Returns k (inl t)])))
    by apply poll_cons_rest.
  destruct (after_clear (RunwayPoller o) _ rest (f_equal cleared E))
    as (_ & _ & A3 & _ & _ & A6 & _).
  destruct (quiet_poll (RunwayPoller o) pre Hq Hle) as (_ & _ & _ & _ & Q5).
  split; [exact (f_equal settled E)|].
  split; [rewrite Hrest; apply A6; exact (f_equal settled E)|].
  split; [exact (f_equal trace E)|].
  rewrite Hrest. etransitivity; [exact A3|].
  etransitivity; [exact (f_equal (fun s => count is_fetch (trace s)) E)|].
  cbn [trace]. rewrite count_app, Q5, !count_cons, count_app.
  rewrite (count_zero is_fetch (delivered (RunwayPoller o) _)).
  - cbn. apply Nat.add_0_r.
  - intros a Hin. unfold delivered in Hin.
    destruct (token (RunwayPoller o)) as [tk|]; [|destruct Hin].
    destruct (tk =? ""); [destruct Hin|].
    destruct Hin as [<-|[]]. reflexivity.
Qed.

Lemma runway_success_resolves_first_output_witness :
  let o := {| Runway.taskId := "task-1";
              Runway.mcpExchange := {| exchange_progressToken := Some "tok-1";
                                       exchange_has_sendProgress := true |};
              Runway.progressToken := Some "tok-1" |} in
  let t := {| Runway.status := "SUCCEEDED";
              Runway.output := Some ["https://x/a.mp4"; "https://x/b.mp4"] |} in
  settled (Runway.pollRunwayTask o [Fires; Returns 1 (inl t)])
  = Some (Resolved "https://x/a.mp4")
  /\ trace (Runway.pollRunwayTask o [Fires; Returns 1 (inl t)])
     = [Fetch "task-1"; ClearInterval;
        Progress "SUCCEEDED"
          (Some (JObj [("videoUrl", JStr "https://x/a.mp4")]));
        ExchangeSend
          (JObj [("token", JStr "tok-1");
                 ("value",
                  JObj [("status", JStr "SUCCEEDED");
                        ("data",
                         JObj [("videoUrl", JStr "https://x/a.mp4")])])]);
        Resolve "https://x/a.mp4"].
Proof.
  intros o t.
  destruct (runway_success_resolves_first_output o [Fires] 1 t
              "https://x/a.mp4" ["https://x/b.mp4"] []
              eq_refl ltac:(vm_compute; lia) eq_refl eq_refl eq_refl eq_refl)
    as (H1 & _ & H3 & _).
  split; [exact H1|exact H3].
Defined.

(** X6: when a status fetch returns a [completed] generation whose asset
    of the expected kind is a non-empty URL ([assets.video] for kinds
    [video] and [upscaled_video], [assets.image] for kind [image]),
    before any terminal result and before the timeout, and the progress
    message can be delivered, the Luma poller clears the interval, makes
    one SUCCEEDED progress call whose payload holds the URL under the
    key of the kind ([videoUrl], [upscaledVideoUrl], [imageUrl]), sends
    it nested under [result] when there is a token, and resolves with
    that URL, for good. *)
Theorem luma_success_resolves_expected_asset (o : Luma.LumaPollOptions)
    (pre : list (Event Luma.FetchResult)) (k : nat) (g : Luma.Generation)
    (url : string) (rest : list (Event Luma.FetchResult)) :
  quiet (LumaPoller o) pre = true ->
  fires pre <= Luma.MAX_POLLING_ATTEMPTS ->
  in_flight k (Luma.pollLumaTask o pre) = true ->
  can_send (LumaPoller o) = true ->
  Luma.state g = "completed" ->
  match Luma.expected o with
  | Luma.video | Luma.upscaled_video => Luma.assets_video_of g
  | Luma.image => Luma.assets_image_of g
  end = Some url ->
  url <> "" ->
  let key := match Luma.expected o with
             | Luma.video => "videoUrl"
             | Luma.image => "imageUrl"
             | Luma.upscaled_video => "upscaledVideoUrl"
             end in
  let w := Luma.pollLumaTask o (pre ++ [Returns k (inl g)]) in
  let w' := Luma.pollLumaTask o (pre ++ Returns k (inl g) :: rest) in
  settled w = Some (Resolved url)
  /\ settled w' = Some (Resolved url)
  /\ trace w
     = (trace (Luma.pollLumaTask o pre)
        ++ ClearInterval
           :: Progress "SUCCEEDED" (Some (JObj [(key, JStr url)]))
           :: delivered (LumaPoller o)
                (JObj [("status", JStr "SUCCEEDED");
                       ("result", JObj [(key, JStr url)])])
           ++ [Resolve url])%list.
Proof.
  intros Hq Hle Hk Hs Hst Hasset Hne key w w'. subst key w w'.
  rewrite !poll_luma in *.
  assert (Hea : Luma.expected_asset o g = Some url)
    by (unfold Luma.expected_asset; destruct (Luma.expected o); exact Hasset).
  assert (Hc : classify (LumaPoller o) (inl g)
               = Finish "SUCCEEDED"
                   (Some (JObj [(Luma.assetKey o, JStr url)]))
                   (Resolved url)).
  { cbn. rewrite Hst, Hea. cbn [truthy js_or].
    destruct (url =? "") eqn:Eu; [|reflexivity].
    apply String.eqb_eq in Eu. contradiction. }
  pose proof (ending_return (LumaPoller o) pre k (inl g) _ _ _
                Hq Hle Hk Hc Hs) as E.
  rewrite emits_some in E. cbn [app settle_action data_key] in E.
  unfold Luma.assetKey in E.
  assert (Hrest : poll (LumaPoller o) (pre ++ Returns k (inl g) :: rest)
                  = session (LumaPoller o) rest
                      (poll (LumaPoller o) (pre ++ [Returns k (inl g)])))
    by apply poll_cons_rest.
  destruct (after_clear (LumaPoller o) _ rest (f_equal cleared E))
    as (_ & _ & _ & _ & _ & A6 & _).
  split; [exact (f_equal settled E)|].
  split; [rewrite Hrest; apply A6; exact (f_equal settled E)|].
  exact (f_equal trace E).
Qed.

Lemma luma_success_resolves_expected_asset_witness :
  let o := {| Luma.generationId := "gen-1";
              Luma.mcpExchange := {| exchange_progressToken := Some "tok-1";
                                     exchange_has_sendProgress := true |};
              Luma.progressToken := Some "tok-1";
              Luma.expectedAssetType := Some Luma.image |} in
  let g := {| Luma.state := "completed";
              Luma.assets := Some {| Luma.assets_video := None;
                                     Luma.assets_image :=
                                       Some "https://x/image.png" |};
              Luma.failure_reason := None |} in
  settled (Luma.pollLumaTask o [Fires; Returns 1 (inl g)])
  = Some (Resolved "https://x/image.png")
  /\ trace (Luma.pollLumaTask o [Fires; Returns 1 (inl g)])
     = [Fetch "gen-1"; ClearInterval;
        Progress "SUCCEEDED"
          (Some (JObj [("imageUrl", JStr "https://x/image.png")]));
        ExchangeSend
          (JObj [("token", JStr "tok-1");
                 ("value",
                  JObj [("status", JStr "SUCCEEDED");
                        ("result",
                         JObj [("imageUrl", JStr "https://x/image.png")])])]);
        Resolve "https://x/image.png"].
Proof.
  intros o g.
  destruct (luma_success_resolves_expected_asset o [Fires] 1 g
              "https://x/image.png" []
              eq_refl ltac:(vm_compute; lia) eq_refl eq_refl eq_refl eq_refl
              ltac:(discriminate))
    as (H1 & _ & H3).
  split; [exact H1|exact H3].
Defined.

(** X7: whatever the fetches return and in whatever order, the Luma
    poller never resolves its promise with an empty URL. *)
Theorem luma_resolved_url_nonempty (o : Luma.LumaPollOptions)
    (sch : list (Event Luma.FetchResult)) (url : string) :
  settled (Luma.pollLumaTask o sch) = Some (Resolved url) -> url <> "".
Proof.
  rewrite poll_luma. intro H.
  destruct (poll_settled_from (LumaPoller o) sch _ H)
    as [Ht|(r & s & d & Hc)]; [discriminate Ht|].
  exact (luma_classify_resolved o r s d url Hc).
Qed.

Lemma luma_resolved_url_nonempty_witness :
  let o := {| Luma.generationId := "gen-1";
              Luma.mcpExchange := {| exchange_progressToken := None;
                                     exchange_has_sendProgress := true |};
              Luma.progressToken := None;
              Luma.expectedAssetType := None |} in
  let g := {| Luma.state := "completed";
              Luma.assets := Some {| Luma.assets_video := Some "https://x/v.mp4";
                                     Luma.assets_image := None |};
              Luma.failure_reason := None |} in
  "https://x/v.mp4" <> "".
Proof.
  intros o g.
  exact (luma_resolved_url_nonempty o [Fires; Returns 1 (inl g)]
           "https://x/v.mp4" eq_refl).
Defined.

(* ------------------------------------------------------------------ *)
(** ** Statuses the switch does not know *)

Lemma only_unrecognized_app p a b :
  only_unrecognized p (a ++ b)
  = only_unrecognized p a && only_unrecognized p b.
Proof. unfold only_unrecognized. apply forallb_app. Qed.

Lemma only_unrecognized_quiet p sch :
  only_unrecognized p sch = true -> quiet p sch = true.
Proof.
  unfold only_unrecognized, quiet. rewrite !forallb_forall.
  intros H ev Hin. specialize (H ev Hin).
  destruct ev as [|k r]; [reflexivity|].
  rewrite (unrecognized_pending p r H). reflexivity.
Qed.

Lemma count_unknown_status p sch :
  only_unrecognized p sch = true ->
  fires sch <= max_attempts p ->
  can_send p = true ->
  count (is_progress "UNKNOWN_STATUS") (trace (poll p sch))
  = count is_progress_call (trace (poll p sch)).
Proof.
  intros Hu Hle Hs. revert Hu Hle.
  induction sch as [|ev sch IH] using rev_ind; intros Hu Hle.
  - reflexivity.
  - rewrite only_unrecognized_app in Hu. apply andb_true_iff in Hu as [Hu Hev].
    rewrite fires_app in Hle.
    specialize (IH Hu ltac:(lia)).
    destruct (quiet_poll p sch (only_unrecognized_quiet p sch Hu) ltac:(lia))
      as (Q1 & _ & Q3 & _).
    rewrite poll_snoc.
    destruct ev as [|k r]; cbn [transition].
    + rewrite Q1. cbn [fires filter length] in Hle.
      rewrite fired_fetch by (rewrite Q3; lia).
      cbn [trace]. rewrite !count_app, IH. reflexivity.
    + destruct (in_flight k (poll p sch)); [|exact IH].
      cbn [only_unrecognized forallb] in Hev.
      rewrite andb_true_r in Hev.
      unfold returned. rewrite Hs, (classify_unrecognized p r Hev).
      cbn [trace verdict_actions]. rewrite !count_app, IH.
      count_simpl. reflexivity.
Qed.

(** X8: a snapshot whose status is none of the four the [switch] names
    (a Runway task reported as CANCELLED or THROTTLED, say) does not end
    the session: the tick of each such result makes an UNKNOWN_STATUS
    progress call that carries the raw status, and the interval and the
    promise are left alone.  In a session that sees nothing else, and
    whose progress messages can be delivered, these are the only
    progress calls, one for every fetch that has settled, and the
    promise is rejected with the timeout error at the firing after the
    bound. *)
Theorem unrecognized_status_polls_until_timeout (p : Poller)
    (sch rest : list (Event (fetch_result p))) :
  only_unrecognized p sch = true ->
  fires sch <= max_attempts p ->
  let w := poll p sch in
  cleared w = false
  /\ settled w = None
  /\ (forall pre k r post,
        sch = (pre ++ Returns k r :: post)%list ->
        in_flight k (poll p pre) = true ->
        In (Progress "UNKNOWN_STATUS"
              (Some (JObj [("status", JStr (raw_status p r))]))) (trace w))
  /\ (can_send p = true ->
      count (is_progress "UNKNOWN_STATUS") (trace w) + length (inflight w)
      = fires sch
      /\ count is_progress_call (trace w)
         = count (is_progress "UNKNOWN_STATUS") (trace w)
      /\ (fires sch = max_attempts p ->
          settled (poll p (sch ++ Fires :: rest))
          = Some (Rejected (timeout_error p)))).
Proof.
  intros Hu Hle. cbv zeta.
  pose proof (only_unrecognized_quiet p sch Hu) as Hq.
  destruct (quiet_poll p sch Hq Hle) as (Q1 & Q2 & Q3 & _).
  split; [exact Q1|]. split; [exact Q2|]. split.
  { intros pre k r post -> Hk.
    rewrite only_unrecognized_app in Hu. apply andb_true_iff in Hu as [_ Hu].
    cbn [only_unrecognized forallb] in Hu.
    apply andb_true_iff in Hu as [Hr _].
    rewrite (poll_cons_rest p pre (Returns k r) post).
    destruct (session_extends p post (poll p (pre ++ [Returns k r])))
      as (later & ->).
    apply in_or_app. left.
    rewrite poll_snoc, (transition_returns p k r _ Hk).
    unfold returned. rewrite (classify_unrecognized p r Hr).
    destruct (can_send p); cbn [trace verdict_actions blocked_actions emits];
      apply in_or_app; right; left; reflexivity. }
  intro Hs.
  pose proof (count_unknown_status p sch Hu Hle Hs) as Hc.
  destruct (poll_progress_calls p sch Hs) as [P1 _].
  split; [rewrite Hc, P1; exact Q3|]. split; [symmetry; exact Hc|].
  intro Hf.
  destruct (timeout_firing p sch Hq Hf)
    as (_ & T2 & _ & _ & _ & _ & _ & T8 & _).
  rewrite (poll_cons_rest p sch Fires rest).
  destruct (after_clear p _ rest T2) as (_ & _ & _ & _ & _ & A6 & _).
  apply A6. exact (proj1 (T8 Hs)).
Qed.

Lemma unrecognized_status_polls_until_timeout_witness :
  let p := RunwayPoller
             {| Runway.taskId := "task-1";
                Runway.mcpExchange := {| exchange_progressToken := Some "tok-1";
                                         exchange_has_sendProgress := true |};
                Runway.progressToken := Some "tok-1" |} in
  let cancelled : fetch_result p :=
    inl {| Runway.status := "CANCELLED"; Runway.output := None |} in
  In (Progress "UNKNOWN_STATUS" (Some (JObj [("status", JStr "CANCELLED")])))
     (trace (poll p (sequential (repeat cancelled 60))))
  /\ count (is_progress "UNKNOWN_STATUS")
       (trace (poll p (sequential (repeat cancelled 60)))) + 0 = 60
  /\ settled (poll p (sequential (repeat cancelled 60) ++ [Fires]))
     = Some (Rejected (timeout_error p)).
Proof.
  intros p cancelled.
  destruct (unrecognized_status_polls_until_timeout p
              (sequential (repeat cancelled 60)) []
              eq_refl ltac:(vm_compute; lia))
    as (_ & _ & H3 & H4).
  destruct (H4 eq_refl) as (H5 & _ & H6).
  split; [|split; [exact H5|exact (H6 eq_refl)]].
  exact (H3 [Fires] 1 cancelled (sequential_from 2 (repeat cancelled 59))
            eq_refl eq_refl).
Defined.

(* ------------------------------------------------------------------ *)
(** ** The codes of a poller's rejections *)

(** X9: whatever the fetches return and in whatever order, a poller
    rejects its promise only with an [McpError] of code [InternalError]
    or [InvalidRequest], and [InvalidRequest] only for the not-found
    error of a 404. *)
Theorem poll_rejection_codes (p : Poller)
    (sch : list (Event (fetch_result p))) (e : McpError) :
  settled (poll p sch) = Some (Rejected e) ->
  (err_code e = InternalError \/ err_code e = InvalidRequest)
  /\ (err_code e = InvalidRequest -> e = not_found_error p).
Proof.
  intro H.
  assert (Hcases : err_code e = InternalError \/ e = not_found_error p).
  { destruct (poll_settled_from p sch _ H) as [Ht|(r & s & d & Hc)].
    - injection Ht as ->. left. destruct p; reflexivity.
    - exact (classify_rejected_code p r s d e Hc). }
  split.
  - destruct Hcases as [Hi| ->]; [left; exact Hi|].
    right. destruct p; reflexivity.
  - intro Hc. destruct Hcases as [Hi|He]; [|exact He].
    rewrite Hi in Hc. discriminate Hc.
Qed.

Lemma poll_rejection_codes_witness :
  let p := LumaPoller
             {| Luma.generationId := "gen-1";
                Luma.mcpExchange := {| exchange_progressToken := None;
                                       exchange_has_sendProgress := true |};
                Luma.progressToken := None;
                Luma.expectedAssetType := None |} in
  let gone : fetch_result p :=
    inr {| je_isAPIError := true; je_status := Some 404%Z;
           je_message := "Not Found" |} in
  mkMcpError InvalidRequest "Luma AI generation ID gen-1 not found."
  = not_found_error p.
Proof.
  intros p gone.
  exact (proj2 (poll_rejection_codes p [Fires; Returns 1 gone]
                  (mkMcpError InvalidRequest
                     "Luma AI generation ID gen-1 not found.")
                  eq_refl) eq_refl).
Defined.
(* ------------------------------------------------------------------ *)
(** ** Sessions in which every fetch settles before the next firing *)

Lemma sequential_from_app {R} (a b : list R) : forall k,
  sequential_from k (a ++ b)
  = (sequential_from k a ++ sequential_from (k + length a) b)%list.
Proof.
  induction a as [|r a IH]; intro k; cbn [sequential_from app length].
  - rewrite Nat.add_0_r. reflexivity.
  - rewrite IH. replace (S k + length a) with (k + S (length a)) by lia.
    reflexivity.
Qed.

Lemma sequential_snoc {R} (rs : list R) (r : R) :
  sequential (rs ++ [r])
  = (sequential rs ++ [Fires; Returns (S (length rs)) r])%list.
Proof. unfold sequential. rewrite sequential_from_app. reflexivity. Qed.

Lemma sequential_cons_rest {R} (rs : list R) (r : R) (rest : list R) :
  sequential (rs ++ r :: rest)
  = (sequential (rs ++ [r])
     ++ sequential_from (S (S (length rs))) rest)%list.
Proof.
  unfold sequential. rewrite !sequential_from_app.
  cbn [sequential_from app length]. rewrite <- app_assoc.
  cbn [app]. replace (1 + length rs + 1) with (S (S (length rs))) by lia.
  replace (S (1 + length rs)) with (S (S (length rs))) by lia.
  reflexivity.
Qed.

Lemma fires_sequential_from {R} (rs : list R) : forall k,
  fires (sequential_from k rs) = length rs.
Proof.
  induction rs as [|r rs IH]; intro k; [reflexivity|].
  cbn [sequential_from]. rewrite !fires_cons, IH. reflexivity.
Qed.

Lemma quiet_sequential_from p (rs : list (fetch_result p)) : forall k,
  forallb (fun r => negb (terminal p r)) rs = true ->
  quiet p (sequential_from k rs) = true.
Proof.
  induction rs as [|r rs IH]; intros k H; [reflexivity|].
  cbn [forallb] in H. apply andb_true_iff in H as [Hr Hrs].
  cbn [sequential_from quiet forallb]. rewrite Hr.
  exact (IH (S k) Hrs).
Qed.

(** While no result is terminal, a sequential session has no fetch in
    flight after each result. *)
Lemma sequential_pending p (rs : list (fetch_result p)) :
  forallb (fun r => negb (terminal p r)) rs = true ->
  length rs <= max_attempts p ->
  inflight (poll p (sequential rs)) = []
  /\ attempts (poll p (sequential rs)) = length rs
  /\ cleared (poll p (sequential rs)) = false
  /\ settled (poll p (sequential rs)) = None
  /\ quiet p (sequential rs) = true
  /\ fires (sequential rs) = length rs.
Proof.
  intros Hp Hle.
  pose proof (quiet_sequential_from p rs 1 Hp) as Hq.
  pose proof (fires_sequential_from rs 1) as Hf.
  fold (sequential rs) in Hq, Hf.
  destruct (quiet_poll p (sequential rs) Hq ltac:(rewrite Hf; exact Hle))
    as (Q1 & Q2 & Q3 & _).
  split; [|rewrite Q3, Hf; repeat split; assumption].
  clear Q1 Q2 Q3 Hq Hf. revert Hp Hle.
  induction rs as [|r rs IH] using rev_ind; intros Hp Hle; [reflexivity|].
  rewrite forallb_app in Hp. apply andb_true_iff in Hp as [Hp Hr].
  cbn [forallb] in Hr. rewrite andb_true_r in Hr.
  apply negb_true_iff in Hr.
  rewrite length_app in Hle. cbn [length] in Hle.
  specialize (IH Hp ltac:(lia)).
  pose proof (quiet_sequential_from p rs 1 Hp) as Hq.
  pose proof (fires_sequential_from rs 1) as Hf.
  fold (sequential rs) in Hq, Hf.
  destruct (quiet_poll p (sequential rs) Hq ltac:(rewrite Hf; lia))
    as (Q1 & _ & Q3 & _).
  rewrite sequential_snoc.
  change [Fires; Returns (S (length rs)) r]
    with ([Fires] ++ [Returns (S (length rs)) r])%list.
  rewrite app_assoc, poll_snoc, poll_snoc.
  rewrite (transition_fires p _ Q1).
  rewrite fired_fetch by (rewrite Q3, Hf; lia).
  rewrite IH, Q3, Hf. cbn [app].
  rewrite transition_returns
    by (unfold in_flight; cbn [inflight existsb]; rewrite Nat.eqb_refl;
        reflexivity).
  destruct (returned_pending p (S (length rs)) r
              {| attempts := S (length rs);
                 cleared := cleared (poll p (sequential rs));
                 settled := settled (poll p (sequential rs));
                 inflight := [S (length rs)];
                 trace := trace (poll p (sequential rs))
                          ++ [Fetch (job_id p)] |} Hr)
    as (_ & _ & _ & R4 & _).
  rewrite R4. cbn [inflight remove_first]. rewrite Nat.eqb_refl. reflexivity.
Qed.

(** X26: in a session in which every fetch settles before the interval
    fires again, only the first terminal result is acted upon.  If the
    results before it are not terminal and it comes within the bound,
    the session issues one fetch per result up to it, and, when the
    progress message can be delivered, clears the interval, makes the
    terminal progress call, settles the promise with that result's
    outcome; whatever results follow change nothing at all.  If
    [MAX_POLLING_ATTEMPTS] results were not terminal, the next firing
    ends the session and nothing after it has any effect. *)
Theorem sequential_first_terminal_decides (p : Poller)
    (rs : list (fetch_result p)) (r : fetch_result p)
    (rest : list (fetch_result p)) :
  forallb (fun r => negb (terminal p r)) rs = true ->
  (length rs < max_attempts p -> terminal p r = true ->
   poll p (sequential (rs ++ r :: rest)) = poll p (sequential (rs ++ [r]))
   /\ inflight (poll p (sequential (rs ++ [r]))) = []
   /\ count is_fetch (trace (poll p (sequential (rs ++ [r]))))
      = S (length rs)
   /\ (can_send p = true ->
       exists status data o,
         classify p r = Finish status data o
         /\ settled (poll p (sequential (rs ++ [r]))) = Some o
         /\ trace (poll p (sequential (rs ++ [r])))
            = (trace (poll p (sequential rs))
               ++ Fetch (job_id p) :: ClearInterval
                  :: Progress status data
                  :: delivered p (progress_value p status data)
                  ++ [settle_action o])%list))
  /\ (length rs = max_attempts p ->
      poll p (sequential (rs ++ r :: rest))
      = poll p (sequential rs ++ [Fires])
      /\ cleared (poll p (sequential rs ++ [Fires])) = true
      /\ (can_send p = true ->
          settled (poll p (sequential rs ++ [Fires]))
          = Some (Rejected (timeout_error p)))).
Proof.
  intro Hp. split.
  - intros Hlt Ht.
    destruct (sequential_pending p rs Hp ltac:(lia))
      as (S1 & S2 & S3 & S4 & S5 & S6).
    destruct (quiet_poll p (sequential rs) S5 ltac:(rewrite S6; lia))
      as (_ & _ & _ & _ & Q5).
    assert (Hfire : poll p (sequential rs ++ [Fires])
                    = {| attempts := S (length rs); cleared := false;
                         settled := None;
                         inflight := [S (length rs)];
                         trace := trace (poll p (sequential rs))
                                  ++ [Fetch (job_id p)] |}).
    { rewrite poll_snoc, (transition_fires p _ S3).
      rewrite fired_fetch by (rewrite S2; exact Hlt).
      rewrite S1, S2, S3, S4. reflexivity. }
    assert (Hret : poll p (sequential (rs ++ [r]))
                   = returned p (S (length rs)) r
                       (poll p (sequential rs ++ [Fires]))).
    { rewrite sequential_snoc.
      change [Fires; Returns (S (length rs)) r]
        with ([Fires] ++ [Returns (S (length rs)) r])%list.
      rewrite app_assoc, poll_snoc.
      apply transition_returns. rewrite Hfire.
      unfold in_flight. cbn [inflight existsb]. rewrite Nat.eqb_refl.
      reflexivity. }
    destruct (terminal_finishes p r Ht) as (s & d & o & Hc).
    assert (Hin : inflight (poll p (sequential (rs ++ [r]))) = []).
    { rewrite Hret, Hfire. unfold returned.
      destruct (can_send p); cbn [inflight remove_first];
        rewrite Nat.eqb_refl; reflexivity. }
    assert (Hcl : cleared (poll p (sequential (rs ++ [r]))) = true).
    { rewrite Hret, Hfire. unfold returned. rewrite Hc.
      destruct (can_send p); reflexivity. }
    split.
    { rewrite sequential_cons_rest, poll_app.
      destruct (after_clear p _ (sequential_from (S (S (length rs))) rest) Hcl)
        as (_ & _ & _ & _ & _ & _ & A7 & _).
      exact (A7 Hin). }
    split; [exact Hin|]. split.
    { rewrite Hret, Hfire. unfold returned. rewrite Hc.
      destruct (can_send p);
        cbn [trace verdict_actions blocked_actions];
        rewrite !count_app, Q5, S6; count_simpl; cbn;
        try (destruct o; cbn); lia. }
    intro Hs. exists s, d, o. split; [exact Hc|].
    rewrite Hret, Hfire, (returned_finish p _ r _ s d o Hc Hs).
    cbn [settled trace settle_first]. split; [reflexivity|].
    rewrite <- app_assoc. reflexivity.
  - intro Hlen.
    destruct (sequential_pending p rs Hp ltac:(lia))
      as (S1 & S2 & S3 & S4 & S5 & S6).
    destruct (timeout_firing p (sequential rs) S5 ltac:(rewrite S6; exact Hlen))
      as (_ & T2 & T3 & _ & _ & _ & _ & T8 & _).
    split; [|split; [exact T2|intro Hs; exact (proj1 (T8 Hs))]].
    rewrite sequential_cons_rest, sequential_snoc.
    change [Fires; Returns (S (length rs)) r]
      with ([Fires] ++ [Returns (S (length rs)) r])%list.
    rewrite app_assoc, <- app_assoc, poll_app.
    destruct (after_clear p _
                ([Returns (S (length rs)) r]
                 ++ sequential_from (S (S (length rs))) rest) T2)
      as (_ & _ & _ & _ & _ & _ & A7 & _).
    apply A7. rewrite T3. exact S1.
Qed.

Lemma sequential_first_terminal_decides_witness :
  let p := RunwayPoller
             {| Runway.taskId := "task-1";
                Runway.mcpExchange := {| exchange_progressToken := Some "tok-1";
                                         exchange_has_sendProgress := true |};
                Runway.progressToken := Some "tok-1" |} in
  let running : fetch_result p :=
    inl {| Runway.status := "RUNNING"; Runway.output := None |} in
  let failed : fetch_result p :=
    inl {| Runway.status := "FAILED"; Runway.output := None |} in
  let succeeded : fetch_result p :=
    inl {| Runway.status := "SUCCEEDED";
           Runway.output := Some ["https://x/a.mp4"] |} in
  poll p (sequential [running; failed; succeeded; running])
  = poll p (sequential [running; failed])
  /\ count is_fetch (trace (poll p (sequential [running; failed]))) = 2.
Proof.
  intros p running failed succeeded.
  destruct (proj1 (sequential_first_terminal_decides p [running] failed
                     [succeeded; running] eq_refl)
              ltac:(vm_compute; lia) eq_refl) as (H1 & _ & H3 & _).
  split; [exact H1|exact H3].
Defined.
(** ** The text-to-video schema *)

Lemma existsb_eqb_In (s : string) (l : list string) :
  existsb (String.eqb s) l = true <-> In s l.
Proof.
  rewrite existsb_exists. split.
  - intros (x & Hx & E). apply String.eqb_eq in E. subst x. exact Hx.
  - intro H. exists s. split; [exact H|apply String.eqb_refl].
Qed.

Lemma check_optional_enum_nil path options v :
  check_optional_enum path options v = []
  <-> (forall s, v = Some s -> In s options).
Proof.
  unfold check_optional_enum, check_enum. destruct v as [s|].
  - destruct (existsb (String.eqb s) options) eqn:E.
    + split; [|reflexivity]. intros _ s' H. injection H as <-.
      apply existsb_eqb_In. exact E.
    + split; [discriminate|]. intro H.
      specialize (H s eq_refl). apply existsb_eqb_In in H.
      rewrite H in E. discriminate E.
  - split; [intros _ s H; discriminate H|reflexivity].
Qed.

Lemma check_promptText_nil v :
  TextToVideo.check_promptText v = [] <-> exists t, v = Some t /\ t <> "".
Proof.
  unfold TextToVideo.check_promptText. destruct v as [t|].
  - destruct (t =? "") eqn:E.
    + split; [discriminate|]. intros (t' & H & Hne). injection H as <-.
      apply String.eqb_eq in E. contradiction.
    + split; [|reflexivity]. intros _. exists t. split; [reflexivity|].
      apply String.eqb_neq. exact E.
  - split; [discriminate|]. intros (t & H & _). discriminate H.
Qed.

Lemma check_duration_nil v :
  TextToVideo.check_duration v = []
  <-> (forall d, v = Some d -> isInteger d = true /\ is_positive d = true).
Proof.
  unfold TextToVideo.check_duration, TextToVideo.check_int,
    TextToVideo.check_positive.
  destruct v as [d|].
  - destruct d as [m e| | |]; cbn [isInteger is_positive].
    + destruct (if (0 <=? e)%Z then true else (m mod 2 ^ (- e) =? 0)%Z) eqn:Ei;
        destruct (0 <? m)%Z eqn:Ep; cbn [app].
      * split; [|reflexivity]. intros _ d' H. injection H as <-.
        cbn [isInteger is_positive]. rewrite Ei, Ep. split; reflexivity.
      * split; [discriminate|]. intro H.
        destruct (H _ eq_refl) as [_ H2]. cbn [is_positive] in H2.
        rewrite Ep in H2. discriminate H2.
      * split; [discriminate|]. intro H.
        destruct (H _ eq_refl) as [H1 _]. cbn [isInteger] in H1.
        rewrite Ei in H1. discriminate H1.
      * split; [discriminate|]. intro H.
        destruct (H _ eq_refl) as [H1 _]. cbn [isInteger] in H1.
        rewrite Ei in H1. discriminate H1.
    + cbn [app]. split; [discriminate|]. intro H.
      destruct (H _ eq_refl) as [H1 _]. discriminate H1.
    + cbn [app]. split; [discriminate|]. intro H.
      destruct (H _ eq_refl) as [H1 _]. discriminate H1.
    + split; [discriminate|]. intro H.
      destruct (H _ eq_refl) as [H1 _]. discriminate H1.
  - split; [intros _ d H; discriminate H|reflexivity].
Qed.

Lemma check_seed_nil v :
  TextToVideo.check_seed v = []
  <-> (forall d, v = Some d -> isInteger d = true).
Proof.
  unfold TextToVideo.check_seed, TextToVideo.check_int.
  destruct v as [d|].
  - destruct d as [m e| | |]; cbn [isInteger].
    + destruct (if (0 <=? e)%Z then true else (m mod 2 ^ (- e) =? 0)%Z) eqn:Ei.
      * split; [|reflexivity]. intros _ d' H. injection H as <-.
        cbn [isInteger]. exact Ei.
      * split; [discriminate|]. intro H.
        specialize (H _ eq_refl). cbn [isInteger] in H.
        rewrite Ei in H. discriminate H.
    + split; [discriminate|]. intro H. discriminate (H _ eq_refl).
    + split; [discriminate|]. intro H. discriminate (H _ eq_refl).
    + split; [discriminate|]. intro H. discriminate (H _ eq_refl).
  - split; [intros _ d H; discriminate H|reflexivity].
Qed.

(** An integer that is positive has a positive value. *)
Lemma integer_value_positive x :
  isInteger x = true -> is_positive x = true -> (0 < integer_value x)%Z.
Proof.
  destruct x as [m e| | |]; cbn [isInteger is_positive integer_value];
    try discriminate.
  intros Hi Hp. apply Z.ltb_lt in Hp.
  destruct (0 <=? e)%Z eqn:Ee.
  - apply Z.leb_le in Ee. apply Z.mul_pos_pos; [exact Hp|].
    apply Z.pow_pos_nonneg; lia.
  - apply Z.leb_gt in Ee. apply Z.eqb_eq in Hi.
    assert (Hb : (0 < 2 ^ (- e))%Z) by (apply Z.pow_pos_nonneg; lia).
    pose proof (Z.div_mod m (2 ^ (- e)) ltac:(lia)) as Hd.
    rewrite Hi in Hd. nia.
Qed.

Lemma parse_provider_nil v :
  TextToVideo.issues_of (TextToVideo.parse_provider v) = []
  <-> (v = None \/ v = Some "runwayml" \/ v = Some "lumaai").
Proof.
  unfold TextToVideo.parse_provider. destruct v as [s|].
  - destruct (s =? "runwayml") eqn:E1.
    + apply String.eqb_eq in E1. subst s. cbn. tauto.
    + destruct (s =? "lumaai") eqn:E2.
      * apply String.eqb_eq in E2. subst s. cbn. tauto.
      * cbn. split; [discriminate|].
        intros [H|[H|H]]; try discriminate H; injection H as Hs; subst s;
          [rewrite String.eqb_refl in E1; discriminate E1
          |rewrite String.eqb_refl in E2; discriminate E2].
  - cbn. tauto.
Qed.

Lemma parse_inl_no_issue a v :
  TextToVideo.generateTextToVideoSchema_parse a = inl v -> no_issue a.
Proof.
  unfold TextToVideo.generateTextToVideoSchema_parse, no_issue.
  match goal with
  | |- match ?l with _ => _ end = _ -> _ => destruct l eqn:E
  end; [|discriminate].
  intros _.
  repeat (apply app_eq_nil in E; destruct E as [? E]).
  repeat split; assumption.
Qed.

Lemma parse_inr_issues a issues :
  TextToVideo.generateTextToVideoSchema_parse a = inr issues -> issues <> [].
Proof.
  unfold TextToVideo.generateTextToVideoSchema_parse.
  match goal with
  | |- match ?l with _ => _ end = _ -> _ => destruct l eqn:E
  end.
  - apply app_eq_nil in E as [E1 E]. apply app_eq_nil in E as [E2 _].
    apply check_promptText_nil in E2 as (t & Ht & _). rewrite Ht.
    destruct (TextToVideo.parse_provider (TextToVideo.provider a))
      as [pv|l] eqn:Ep; [discriminate|].
    cbn in E1. subst l. unfold TextToVideo.parse_provider in Ep.
    destruct (TextToVideo.provider a) as [q|]; [|discriminate Ep].
    destruct (q =? "runwayml"); [discriminate Ep|].
    destruct (q =? "lumaai"); discriminate Ep.
  - intro H. injection H as <-. discriminate.
Qed.

Lemma parse_no_issue_inl a :
  no_issue a -> exists v, TextToVideo.generateTextToVideoSchema_parse a = inl v.
Proof.
  intros (H1 & H2 & H3 & H4 & H5 & H6 & H7).
  apply parse_provider_nil in H1.
  pose proof (proj1 (check_promptText_nil _) H2) as (t & Ht & _).
  unfold TextToVideo.generateTextToVideoSchema_parse.
  rewrite H2, H3, H4, H5, H6, H7, Ht.
  destruct H1 as [Hn|[Hn|Hn]]; rewrite Hn; cbn; eexists; reflexivity.
Qed.

(** X10: [generateTextToVideoSchema] accepts the arguments exactly when
    the provider is omitted or one of the two names, [promptText] is
    present and not empty, each of [runway_resolution], [luma_model] and
    [luma_aspect_ratio] is omitted or a member of its enum, [duration]
    is omitted or a positive integer, and [seed] is omitted or an
    integer (a number that passes [Number.isInteger], so neither a
    fraction nor NaN nor an infinity); and a rejection always names at
    least one issue. *)
Theorem text_to_video_schema_accepts (a : TextToVideo.Args) :
  ((exists v, TextToVideo.generateTextToVideoSchema_parse a = inl v)
   <-> ((TextToVideo.provider a = None
         \/ TextToVideo.provider a = Some "runwayml"
         \/ TextToVideo.provider a = Some "lumaai")
        /\ (exists t, TextToVideo.promptText a = Some t /\ t <> "")
        /\ (forall r, TextToVideo.runway_resolution a = Some r ->
                      In r ["1280:768"; "768:1280"])
        /\ (forall m, TextToVideo.luma_model a = Some m ->
                      In m ["ray-flash-2"; "ray-2"; "ray-1-6"])
        /\ (forall r, TextToVideo.luma_aspect_ratio a = Some r ->
                      In r ["16:9"; "1:1"; "3:4"; "4:3"; "9:16"; "9:21"; "21:9"])
        /\ (forall d, TextToVideo.duration a = Some d ->
                      isInteger d = true /\ is_positive d = true)
        /\ (forall s, TextToVideo.seed a = Some s -> isInteger s = true)))
  /\ (forall issues,
        TextToVideo.generateTextToVideoSchema_parse a = inr issues ->
        issues <> []).
Proof.
  split; [|intros issues; apply parse_inr_issues].
  split.
  - intros (v & Hv). destruct (parse_inl_no_issue a v Hv)
      as (H1 & H2 & H3 & H4 & H5 & H6 & H7).
    split; [apply parse_provider_nil; exact H1|].
    split; [apply check_promptText_nil; exact H2|].
    split; [apply (check_optional_enum_nil "runway_resolution"); exact H3|].
    split; [apply (check_optional_enum_nil "luma_model"); exact H4|].
    split; [apply (check_optional_enum_nil "luma_aspect_ratio"); exact H5|].
    split; [apply check_duration_nil; exact H6|].
    apply check_seed_nil; exact H7.
  - intros (H1 & H2 & H3 & H4 & H5 & H6 & H7). apply parse_no_issue_inl.
    split; [apply parse_provider_nil; exact H1|].
    split; [apply check_promptText_nil; exact H2|].
    split; [apply (check_optional_enum_nil "runway_resolution"); exact H3|].
    split; [apply (check_optional_enum_nil "luma_model"); exact H4|].
    split; [apply (check_optional_enum_nil "luma_aspect_ratio"); exact H5|].
    split; [apply check_duration_nil; exact H6|].
    apply check_seed_nil; exact H7.
Qed.

Lemma parse_inl_value a v :
  TextToVideo.generateTextToVideoSchema_parse a = inl v ->
  exists pv text,
    TextToVideo.parse_provider (TextToVideo.provider a) = inl pv
    /\ TextToVideo.promptText a = Some text
    /\ v = {| TextToVideo.v_provider := pv;
              TextToVideo.v_promptText := text;
              TextToVideo.v_runway_model := TextToVideo.runway_model a;
              TextToVideo.v_runway_resolution := TextToVideo.runway_resolution a;
              TextToVideo.v_runway_watermark :=
                match TextToVideo.runway_watermark a with
                | Some b => b
                | None => false
                end;
              TextToVideo.v_luma_model :=
                match TextToVideo.luma_model a with
                | Some m => m
                | None => "ray-2"
                end;
              TextToVideo.v_luma_aspect_ratio :=
                match TextToVideo.luma_aspect_ratio a with
                | Some r => r
                | None => "16:9"
                end;
              TextToVideo.v_luma_loop := TextToVideo.luma_loop a;
              TextToVideo.v_duration :=
                option_map integer_value (TextToVideo.duration a);
              TextToVideo.v_seed :=
                option_map integer_value (TextToVideo.seed a) |}.
Proof.
  unfold TextToVideo.generateTextToVideoSchema_parse.
  match goal with
  | |- match ?l with _ => _ end = _ -> _ => destruct l
  end; [|discriminate].
  destruct (TextToVideo.parse_provider (TextToVideo.provider a)) as [pv|l];
    [|discriminate].
  destruct (TextToVideo.promptText a) as [text|]; [|discriminate].
  intro H. injection H as <-. exists pv, text. repeat split.
Qed.

(** X11: arguments that pass [generateTextToVideoSchema] come out with
    the defaults filled in ([runwayml], ['ray-2'], ['16:9'], no
    watermark) and within the schema: the prompt is not empty, the Luma
    model and aspect ratio are members of their enums whether given or
    defaulted, and a duration is the value of the integer given, which
    is positive; a seed is the value of the integer given. *)
Theorem text_to_video_validated_params (a : TextToVideo.Args)
    (v : TextToVideo.TextToVideoParams) :
  TextToVideo.generateTextToVideoSchema_parse a = inl v ->
  TextToVideo.v_promptText v <> ""
  /\ In (TextToVideo.v_luma_model v) ["ray-flash-2"; "ray-2"; "ray-1-6"]
  /\ In (TextToVideo.v_luma_aspect_ratio v)
        ["16:9"; "1:1"; "3:4"; "4:3"; "9:16"; "9:21"; "21:9"]
  /\ (forall d, TextToVideo.v_duration v = Some d -> (0 < d)%Z)
  /\ TextToVideo.v_duration v
     = option_map integer_value (TextToVideo.duration a)
  /\ TextToVideo.v_seed v = option_map integer_value (TextToVideo.seed a)
  /\ (TextToVideo.provider a = None ->
      TextToVideo.v_provider v = TextToVideo.runwayml)
  /\ (TextToVideo.luma_model a = None -> TextToVideo.v_luma_model v = "ray-2")
  /\ (TextToVideo.luma_aspect_ratio a = None ->
      TextToVideo.v_luma_aspect_ratio v = "16:9")
  /\ (TextToVideo.runway_watermark a = None ->
      TextToVideo.v_runway_watermark v = false).
Proof.
  intro Hv.
  destruct (parse_inl_no_issue a v Hv) as (_ & H2 & _ & H4 & H5 & H6 & _).
  destruct (parse_inl_value a v Hv) as (pv & text & Hpv & Ht & ->).
  cbn [TextToVideo.v_promptText TextToVideo.v_luma_model
       TextToVideo.v_luma_aspect_ratio TextToVideo.v_duration
       TextToVideo.v_seed
       TextToVideo.v_provider TextToVideo.v_runway_watermark].
  apply check_promptText_nil in H2 as (t & Ht' & Hne).
  rewrite Ht in Ht'. injection Ht' as <-.
  pose proof (proj1 (check_optional_enum_nil _ _ _) H4) as Hm.
  pose proof (proj1 (check_optional_enum_nil _ _ _) H5) as Hr.
  pose proof (proj1 (check_duration_nil _) H6) as Hd.
  split; [exact Hne|]. split.
  { destruct (TextToVideo.luma_model a) as [m|];
      [exact (Hm m eq_refl)|cbn; tauto]. }
  split.
  { destruct (TextToVideo.luma_aspect_ratio a) as [r|];
      [exact (Hr r eq_refl)|cbn; tauto]. }
  split.
  { intros d Hdv. destruct (TextToVideo.duration a) as [x|];
      [|discriminate Hdv].
    cbn [option_map] in Hdv. injection Hdv as <-.
    destruct (Hd x eq_refl) as [Hi Hp].
    exact (integer_value_positive x Hi Hp). }
  split; [reflexivity|]. split; [reflexivity|]. split.
  { intro Hn. rewrite Hn in Hpv. cbn in Hpv. injection Hpv as <-. reflexivity. }
  split; [intro Hn; rewrite Hn; reflexivity|].
  split; intro Hn; rewrite Hn; reflexivity.
Qed.

Lemma text_to_video_validated_params_witness :
  let a := {| TextToVideo.provider := None;
              TextToVideo.promptText := Some "a cat surfing";
              TextToVideo.runway_model := None;
              TextToVideo.runway_resolution := None;
              TextToVideo.runway_watermark := None;
              TextToVideo.luma_model := None;
              TextToVideo.luma_aspect_ratio := Some "9:16";
              TextToVideo.luma_loop := None;
              TextToVideo.duration := Some (Finite 5 0);
              TextToVideo.seed := Some (Finite (-3) 2) |} in
  exists v, TextToVideo.generateTextToVideoSchema_parse a = inl v
            /\ TextToVideo.v_promptText v <> ""
            /\ TextToVideo.v_duration v = Some 5%Z
            /\ TextToVideo.v_seed v = Some (-12)%Z.
Proof.
  intro a. eexists. split; [reflexivity|].
  destruct (text_to_video_validated_params a _ eq_refl)
    as (H1 & _ & _ & _ & H5 & H6 & _).
  split; [exact H1|]. split; [exact H5|exact H6].
Defined.

(* ------------------------------------------------------------------ *)
(** ** What the text-to-video tool does *)

Lemma in_exchange_send_opt x msg a :
  In a (exchange_send_opt x msg) -> a = ToolSend msg.
Proof.
  unfold exchange_send_opt. destruct (exchange_has_sendProgress x);
    [intros [<-|[]]; reflexivity|intros []].
Qed.

Lemma filter_creates_job_send x msg :
  filter TextToVideo.creates_job (exchange_send_opt x msg) = [].
Proof.
  unfold exchange_send_opt. destruct (exchange_has_sendProgress x); reflexivity.
Qed.

(** X12: [generateTextToVideoTool] returns a response exactly when it has
    started a Luma poll session.  It then has created exactly one job,
    the session polls the non-empty id that [generations.create] returned,
    on the tool's exchange, with the exchange's progress token and no
    expected asset type (so the default [video]).  It never creates more than one job and never
    starts a Runway poll session. *)
Theorem text_to_video_response_iff_poll (env : Env) (a : TextToVideo.Args)
    (x : Exchange) :
  let acts := fst (TextToVideo.generateTextToVideoTool env a x) in
  let res := snd (TextToVideo.generateTextToVideoTool env a x) in
  ((exists response, res = inl response)
   <-> (exists o, In (StartLumaPoll o) acts))
  /\ length (filter TextToVideo.creates_job acts) <= 1
  /\ (forall o, In (StartLumaPoll o) acts ->
        Luma.generationId o <> ""
        /\ Luma.mcpExchange o = x
        /\ Luma.progressToken o = exchange_progressToken x
        /\ Luma.expectedAssetType o = None
        /\ exists payload c,
             filter TextToVideo.creates_job acts = [CreateVideoJob payload]
             /\ generations_create env payload = inl c
             /\ created_id c = Some (Luma.generationId o))
  /\ (forall o, ~ In (StartRunwayPoll o) acts).
Proof.
  unfold TextToVideo.generateTextToVideoTool.
  destruct (TextToVideo.generateTextToVideoSchema_parse a) as [v|issues].
  2:{ cbn. split; [split; [intros (r & H); discriminate H|intros (o & [])]|].
      split; [lia|]. split; [intros o []|intros o []]. }
  unfold TextToVideo.try_block.
  destruct (TextToVideo.v_provider v).
  { cbn. split; [split; [intros (r & H); discriminate H|intros (o & [])]|].
    split; [lia|]. split; [intros o []|intros o []]. }
  destruct (truthy (LUMAAI_API_KEY env)).
  2:{ cbn. split; [split; [intros (r & H); discriminate H|intros (o & [])]|].
      split; [lia|]. split; [intros o []|intros o []]. }
  match goal with
  | |- context [generations_create env ?pl] =>
      set (payload := pl); destruct (generations_create env payload)
        as [c|t] eqn:Ec
  end.
  2:{ cbn. split; [split; [intros (r & H); discriminate H
                          |intros (o & [H|[]]); discriminate H]|].
      split; [lia|].
      split; intros o [H|[]]; discriminate H. }
  destruct (js_or (created_id c) "" =? "") eqn:Eid.
  { cbn. split; [split; [intros (r & H); discriminate H
                        |intros (o & [H|[]]); discriminate H]|].
    split; [lia|].
    split; intros o [H|[]]; discriminate H. }
  cbn [fst snd]. cbn [filter TextToVideo.creates_job].
  rewrite filter_creates_job_send. cbn [length].
  split.
  { split; [intros _|intros _; eexists; reflexivity].
    eexists. right. left. reflexivity. }
  split; [lia|]. split.
  - intros o [H|[H|H]]; [discriminate H| |].
    + injection H as <-. cbn.
      split; [apply String.eqb_neq; exact Eid|].
      split; [reflexivity|]. split; [reflexivity|]. split; [reflexivity|].
      exists payload, c. split; [reflexivity|]. split; [exact Ec|].
      unfold js_or in *. destruct (created_id c) as [i|].
      * destruct (i =? "") eqn:Ei; [|reflexivity].
        rewrite String.eqb_refl in Eid. discriminate Eid.
      * rewrite String.eqb_refl in Eid. discriminate Eid.
    + apply in_exchange_send_opt in H. discriminate H.
  - intros o [H|[H|H]]; try discriminate H.
    apply in_exchange_send_opt in H. discriminate H.
Qed.




(* ------------------------------------------------------------------ *)
(** ** What the image-to-video tool does *)

Lemma in_send_opt x msg a : In a (send_opt x msg) -> a = Send msg.
Proof.
  unfold send_opt. destruct (exchange_has_sendProgress x);
    [intros [<-|[]]; reflexivity|intros []].
Qed.

Lemma filter_send_opt q x msg :
  q (Send msg) = false -> filter q (send_opt x msg) = [].
Proof.
  intro H. unfold send_opt. destruct (exchange_has_sendProgress x);
    [cbn; rewrite H|]; reflexivity.
Qed.

Lemma js_or_empty_default (a : option string) :
  (js_or a "" =? "") = false -> a = Some (js_or a "").
Proof.
  unfold js_or. destruct a as [i|].
  - destruct (i =? "") eqn:Ei; [|reflexivity].
    rewrite String.eqb_refl. discriminate.
  - rewrite String.eqb_refl. discriminate.
Qed.

Ltac no_effect_case :=
  cbn;
  split; [split; [intros (? & H); discriminate H
                 |intros (? & H); cbn in H;
                  repeat (destruct H as [H|H]; [discriminate H|]);
                  contradiction]|];
  split; [lia|]; split; [lia|];
  intros ? H; cbn in H;
  repeat (destruct H as [H|H]; [discriminate H|]); contradiction.

(** X14: [generateImageToVideoTool] returns a response exactly when it
    has started a poll session, and it starts at most one and creates at
    most one job.  The session is a Runway one for provider [runwayml],
    polling whatever id [imageToVideo.create] returned, and a Luma one for
    provider [lumaai], polling the non-empty id that [generations.create]
    returned with no expected asset type; either is given the tool's
    exchange and its progress token. *)
Theorem image_to_video_response_iff_poll (sv : Services)
    (parsed : ImageToVideo.ImageToVideoParams + list ZodIssue)
    (x : Exchange) :
  let effects := fst (ImageToVideo.generateImageToVideoTool sv parsed x) in
  let res := snd (ImageToVideo.generateImageToVideoTool sv parsed x) in
  ((exists response, res = inl response)
   <-> (exists p, In (StartPoll p) effects))
  /\ length (filter ImageToVideo.creates_job effects) <= 1
  /\ length (filter ImageToVideo.starts_poll effects) <= 1
  /\ (forall p, In (StartPoll p) effects ->
        exists v,
          parsed = inl v
          /\ exchange p = x
          /\ token p = exchange_progressToken x
          /\ match p with
             | RunwayPoller o =>
                 ImageToVideo.provider v = TextToVideo.runwayml
                 /\ exists params,
                      In (CreateRunwayVideo params) effects
                      /\ imageToVideo_create sv params = inl (Runway.taskId o)
             | LumaPoller o =>
                 ImageToVideo.provider v = TextToVideo.lumaai
                 /\ Luma.generationId o <> ""
                 /\ Luma.expectedAssetType o = None
                 /\ exists payload c,
                      In (CreateLumaKeyframeVideo payload) effects
                      /\ generations_create_keyframes sv payload = inl c
                      /\ created_id c = Some (Luma.generationId o)
             end).
Proof.
  unfold ImageToVideo.generateImageToVideoTool.
  destruct parsed as [v|issues]; [|no_effect_case].
  unfold ImageToVideo.try_block.
  destruct (ImageToVideo.provider v) eqn:Hp.
  - destruct (truthy (RUNWAYML_API_SECRET sv)); [|no_effect_case].
    match goal with
    | |- context [imageToVideo_create sv ?pl] =>
        set (params := pl); destruct (imageToVideo_create sv params)
          as [taskId|t] eqn:Ec
    end; [|no_effect_case].
    cbn [fst snd filter ImageToVideo.creates_job ImageToVideo.starts_poll].
    rewrite !filter_send_opt by reflexivity. cbn [length].
    split.
    { split; intros _; eexists; [right; left|]; reflexivity. }
    split; [lia|]. split; [lia|].
    intros p [H|[H|H]]; [discriminate H| |apply in_send_opt in H; discriminate H].
    injection H as <-. exists v. split; [reflexivity|].
    split; [reflexivity|]. split; [reflexivity|]. split; [exact Hp|].
    exists params. split; [left; reflexivity|exact Ec].
  - destruct (truthy (LUMAAI_API_KEY (base sv))); [|no_effect_case].
    destruct (ImageToVideo.lumaInputImageUrl_of (ImageToVideo.promptImage v))
      as [url|]; [|no_effect_case].
    match goal with
    | |- context [generations_create_keyframes sv ?pl] =>
        set (payload := pl);
        destruct (generations_create_keyframes sv payload) as [c|t] eqn:Ec
    end; [|no_effect_case].
    destruct (js_or (created_id c) "" =? "") eqn:Eid; [no_effect_case|].
    cbn [fst snd filter ImageToVideo.creates_job ImageToVideo.starts_poll].
    rewrite !filter_send_opt by reflexivity. cbn [length].
    split.
    { split; intros _; eexists; [right; left|]; reflexivity. }
    split; [lia|]. split; [lia|].
    intros p [H|[H|H]]; [discriminate H| |apply in_send_opt in H; discriminate H].
    injection H as <-. exists v. split; [reflexivity|].
    split; [reflexivity|]. split; [reflexivity|]. split; [exact Hp|].
    split; [apply String.eqb_neq; exact Eid|]. split; [reflexivity|].
    exists payload, c. split; [left; reflexivity|]. split; [exact Ec|].
    apply js_or_empty_default. exact Eid.
Qed.

(** X15: every Luma job the image-to-video tool creates takes its
    keyframe from [promptImage]: the string itself, or the [uri] of the
    first element when an array was given, later elements being ignored;
    its prompt is [promptText], or the empty string when that is missing
    or empty. *)
Theorem image_to_video_luma_payload (sv : Services)
    (v : ImageToVideo.ImageToVideoParams) (x : Exchange)
    (payload : LumaKeyframePayload) :
  In (CreateLumaKeyframeVideo payload)
     (fst (ImageToVideo.generateImageToVideoTool sv (inl v) x)) ->
  ImageToVideo.provider v = TextToVideo.lumaai
  /\ (forall url, ImageToVideo.promptImage v = inl url ->
                  kp_frame0_url payload = url)
  /\ (forall first others,
        ImageToVideo.promptImage v = inr (first :: others) ->
        kp_frame0_url payload = uri first)
  /\ ImageToVideo.promptImage v <> inr []
  /\ kp_prompt payload = js_or (ImageToVideo.promptText v) ""
  /\ kp_model payload = ImageToVideo.luma_model v
  /\ kp_aspect_ratio payload = ImageToVideo.luma_aspect_ratio v.
Proof.
  unfold ImageToVideo.generateImageToVideoTool, ImageToVideo.try_block.
  destruct (ImageToVideo.provider v) eqn:Hp.
  - destruct (truthy (RUNWAYML_API_SECRET sv)); [|intros []].
    destruct (imageToVideo_create sv _); cbn.
    + intros [H|[H|H]]; try discriminate H.
      apply in_send_opt in H. discriminate H.
    + intros [H|[]]. discriminate H.
  - destruct (truthy (LUMAAI_API_KEY (base sv))); [|intros []].
    destruct (ImageToVideo.lumaInputImageUrl_of (ImageToVideo.promptImage v))
      as [url|] eqn:Eu; [|intros []].
    assert (Hpayload :
      In (CreateLumaKeyframeVideo payload)
         [CreateLumaKeyframeVideo
            {| kp_prompt := js_or (ImageToVideo.promptText v) "";
               kp_model := ImageToVideo.luma_model v;
               kp_aspect_ratio := ImageToVideo.luma_aspect_ratio v;
               kp_loop := ImageToVideo.luma_loop v;
               kp_frame0_url := url |}] ->
      TextToVideo.lumaai = TextToVideo.lumaai
      /\ (forall url0, ImageToVideo.promptImage v = inl url0 ->
                       kp_frame0_url payload = url0)
      /\ (forall first others,
            ImageToVideo.promptImage v = inr (first :: others) ->
            kp_frame0_url payload = uri first)
      /\ ImageToVideo.promptImage v <> inr []
      /\ kp_prompt payload = js_or (ImageToVideo.promptText v) ""
      /\ kp_model payload = ImageToVideo.luma_model v
      /\ kp_aspect_ratio payload = ImageToVideo.luma_aspect_ratio v).
    { intros [H|[]]. injection H as <-. cbn.
      unfold ImageToVideo.lumaInputImageUrl_of in Eu.
      split; [reflexivity|]. split.
      { intros u Hu. rewrite Hu in Eu. injection Eu as <-. reflexivity. }
      split.
      { intros f o Hf. rewrite Hf in Eu. injection Eu as <-. reflexivity. }
      split; [intro Hn; rewrite Hn in Eu; discriminate Eu|].
      repeat split. }
    destruct (generations_create_keyframes sv _) as [c|t].
    + destruct (js_or (created_id c) "" =? ""); cbn.
      * exact Hpayload.
      * intros [H|[H|H]].
        -- apply Hpayload. left. exact H.
        -- discriminate H.
        -- apply in_send_opt in H. discriminate H.
    + cbn. exact Hpayload.
Qed.

Lemma image_to_video_luma_payload_witness :
  let sv := {| base := {| zod_default_message := fun _ => "Invalid input";
                          sdk_message := fun e => "MCP error: " ++ err_text e;
                          LUMAAI_API_KEY := Some "key";
                          generations_create :=
                            fun _ => inl {| created_id := Some "gen-1" |};
                          generations_image_create :=
                            fun _ => inl {| created_id := Some "img-1" |} |};
               RUNWAYML_API_SECRET := Some "secret";
               OPENROUTER_API_KEY := Some "or-key";
               imageToVideo_create := fun _ => inl "task-1";
               generations_create_keyframes :=
                 fun _ => inl {| created_id := Some "gen-2" |};
               generations_list := fun _ _ => inr (RaisedOther "offline");
               generations_get := fun _ => inr (RaisedOther "offline");
               generations_delete := fun _ => inr (RaisedOther "offline");
               cameraMotion_list := inr (RaisedOther "offline");
               client_request := fun _ _ => inr (RaisedOther "offline");
               axios_post := fun _ _ _ => inr (RaisedOther "offline") |} in
  let v := {| ImageToVideo.provider := TextToVideo.lumaai;
              ImageToVideo.promptImage :=
                inr [{| uri := "https://x/a.png"; position := "first" |};
                     {| uri := "https://x/b.png"; position := "last" |}];
              ImageToVideo.promptText := None;
              ImageToVideo.runway_model := None;
              ImageToVideo.runway_duration := 5;
              ImageToVideo.runway_ratio := None;
              ImageToVideo.runway_watermark := false;
              ImageToVideo.luma_model := "ray-2";
              ImageToVideo.luma_aspect_ratio := "16:9";
              ImageToVideo.luma_loop := None;
              ImageToVideo.seed := None |} in
  let x := {| exchange_progressToken := Some "tok-1";
              exchange_has_sendProgress := true |} in
  let payload := {| kp_prompt := ""; kp_model := "ray-2";
                    kp_aspect_ratio := "16:9"; kp_loop := None;
                    kp_frame0_url := "https://x/a.png" |} in
  In (CreateLumaKeyframeVideo payload)
     (fst (ImageToVideo.generateImageToVideoTool sv (inl v) x))
  /\ kp_prompt payload = "".
Proof.
  intros sv v x payload.
  assert (Hin : In (CreateLumaKeyframeVideo payload)
                   (fst (ImageToVideo.generateImageToVideoTool sv (inl v) x)))
    by (left; reflexivity).
  split; [exact Hin|].
  destruct (image_to_video_luma_payload sv v x payload Hin)
    as (_ & _ & _ & _ & Hprompt & _).
  exact Hprompt.
Defined.




(* ------------------------------------------------------------------ *)
(** ** Tools that hand a job to the Luma poller *)

Lemma luma_session_resolves o pre k g rest url :
  quiet (LumaPoller o) pre = true ->
  fires pre <= Luma.MAX_POLLING_ATTEMPTS ->
  in_flight k (poll (LumaPoller o) pre) = true ->
  can_send (LumaPoller o) = true ->
  Luma.state g = "completed" ->
  Luma.expected_asset o g = Some url ->
  url <> "" ->
  poll (LumaPoller o) (pre ++ [Returns k (inl g)])
  = {| attempts := fires pre; cleared := true;
       settled := Some (Resolved url);
       inflight := remove_first k (inflight (poll (LumaPoller o) pre));
       trace := (trace (poll (LumaPoller o) pre)
                 ++ ClearInterval
                    :: Progress "SUCCEEDED"
                         (Some (JObj [(Luma.assetKey o, JStr url)]))
                    :: delivered (LumaPoller o)
                         (JObj [("status", JStr "SUCCEEDED");
                                ("result",
                                 JObj [(Luma.assetKey o, JStr url)])])
                    ++ [Resolve url])%list |}
  /\ settled (poll (LumaPoller o) (pre ++ Returns k (inl g) :: rest))
     = Some (Resolved url).
Proof.
  intros Hq Hle Hk Hcs Hs He Hne.
  assert (Hu : (url =? "") = false) by (apply String.eqb_neq; exact Hne).
  assert (Hc : classify (LumaPoller o) (inl g)
               = Finish "SUCCEEDED"
                   (Some (JObj [(Luma.assetKey o, JStr url)]))
                   (Resolved url)).
  { cbn. rewrite Hs, He. cbn [truthy js_or]. rewrite Hu. reflexivity. }
  pose proof (ending_return (LumaPoller o) pre k (inl g) _ _ _
                Hq Hle Hk Hc Hcs) as E.
  rewrite emits_some in E. cbn [app settle_action data_key] in E.
  split; [exact E|].
  assert (Hrest : poll (LumaPoller o) (pre ++ Returns k (inl g) :: rest)
                  = session (LumaPoller o) rest
                      (poll (LumaPoller o) (pre ++ [Returns k (inl g)])))
    by apply poll_cons_rest.
  rewrite Hrest.
  destruct (after_clear (LumaPoller o) _ rest (f_equal cleared E))
    as (_ & _ & _ & _ & _ & A6 & _).
  apply A6. exact (f_equal settled E).
Qed.

(** X17: a session started by [lumaGenerateImageTool] resolves only
    through [assets.video].  When it does, with a token and a
    [sendProgress] on the exchange, the client is told twice: the poller
    sends SUCCEEDED with the URL under [result.videoUrl], and the tool's
    [then] handler sends SUCCEEDED again with the same URL as
    [imageUrl]. *)
Theorem image_tool_success_is_reported_twice (env : Env)
    (v : LumaImage.LumaImageParams) (x : Exchange)
    (acts : list ToolAction) (response : ToolResponse + McpError)
    (o : Luma.LumaPollOptions) (t : string)
    (pre : list (Event Luma.FetchResult)) (k : nat)
    (g : Luma.Generation) (url : string)
    (rest : list (Event Luma.FetchResult)) :
  LumaImage.lumaGenerateImageTool env (inl v) x = (acts, response) ->
  In (StartLumaPoll o) acts ->
  exchange_progressToken x = Some t -> t <> "" ->
  exchange_has_sendProgress x = true ->
  quiet (LumaPoller o) pre = true ->
  fires pre <= Luma.MAX_POLLING_ATTEMPTS ->
  in_flight k (Luma.pollLumaTask o pre) = true ->
  Luma.state g = "completed" ->
  Luma.assets_video_of g = Some url -> url <> "" ->
  let w := Luma.pollLumaTask o (pre ++ [Returns k (inl g)]) in
  settled w = Some (Resolved url)
  /\ settled (Luma.pollLumaTask o (pre ++ Returns k (inl g) :: rest))
     = Some (Resolved url)
  /\ sent (trace w)
     = (sent (trace (Luma.pollLumaTask o pre))
        ++ [JObj [("token", JStr t);
                  ("value", JObj [("status", JStr "SUCCEEDED");
                                  ("result",
                                   JObj [("videoUrl", JStr url)])])]])%list
  /\ LumaImage.on_poll_settled x (Resolved url)
     = [ToolSend (JObj [("token", JStr t);
                        ("value", JObj [("status", JStr "SUCCEEDED");
                                        ("imageUrl", JStr url)])])].
Proof.
  intros Htool Hin Htok Hne Hsend Hq Hle Hk Hs Ha Hu w. subst w.
  destruct (image_tool_poll_options env v x acts response o Htool Hin)
    as (He & Ht & Hex & _).
  assert (Hx : Luma.expected o = Luma.video)
    by (unfold Luma.expected; rewrite He; reflexivity).
  assert (Hea : Luma.expected_asset o g = Some url)
    by (unfold Luma.expected_asset; rewrite Hx; exact Ha).
  assert (Hcs : can_send (LumaPoller o) = true).
  { unfold can_send. cbn [exchange]. rewrite Hex, Hsend. apply orb_true_r. }
  destruct (luma_session_resolves o pre k g rest url Hq Hle Hk Hcs Hs Hea Hu)
    as [E E'].
  unfold Luma.assetKey in E. rewrite Hx in E.
  split; [exact (f_equal settled E)|]. split; [exact E'|]. split.
  - pose proof (f_equal (fun w => sent (trace w)) E) as F. cbn beta in F.
    cbn [trace] in F.
    rewrite sent_app, sent_cons, sent_cons, sent_app in F.
    rewrite (sent_delivered (LumaPoller o) t) in F
      by (cbn [token]; congruence).
    exact F.
  - unfold LumaImage.on_poll_settled, exchange_send_opt.
    rewrite Hsend, Htok. reflexivity.
Qed.

Lemma image_tool_success_is_reported_twice_witness :
  let env := {| zod_default_message := fun _ => "Invalid input";
                sdk_message := fun e => "MCP error: " ++ err_text e;
                LUMAAI_API_KEY := Some "key";
                generations_create :=
                  fun _ => inl {| created_id := Some "gen-1" |};
                generations_image_create :=
                  fun _ => inl {| created_id := Some "img-1" |} |} in
  let v := {| LumaImage.prompt := "a lighthouse at dusk";
              LumaImage.aspect_ratio := "16:9";
              LumaImage.model := "photon-1";
              LumaImage.image_ref := None;
              LumaImage.style_ref := None;
              LumaImage.character_ref := None;
              LumaImage.modify_image_ref := None |} in
  let x := {| exchange_progressToken := Some "tok-1";
              exchange_has_sendProgress := true |} in
  let o := {| Luma.generationId := "img-1";
              Luma.mcpExchange := x;
              Luma.progressToken := Some "tok-1";
              Luma.expectedAssetType := None |} in
  let g := {| Luma.state := "completed";
              Luma.assets := Some {| Luma.assets_video := Some "https://x/v.mp4";
                                     Luma.assets_image := None |};
              Luma.failure_reason := None |} in
  settled (Luma.pollLumaTask o [Fires; Returns 1 (inl g)])
  = Some (Resolved "https://x/v.mp4")
  /\ sent (trace (Luma.pollLumaTask o [Fires; Returns 1 (inl g)]))
     = [JObj [("token", JStr "tok-1");
              ("value", JObj [("status", JStr "SUCCEEDED");
                              ("result",
                               JObj [("videoUrl",
                                      JStr "https://x/v.mp4")])])]].
Proof.
  intros env v x o g.
  assert (Hin : In (StartLumaPoll o)
                   (fst (LumaImage.lumaGenerateImageTool env (inl v) x)))
    by (vm_compute; tauto).
  assert (Hle : fires (@cons (Event Luma.FetchResult) Fires nil)
                <= Luma.MAX_POLLING_ATTEMPTS)
    by (vm_compute; lia).
  assert (Ht : "tok-1" <> "") by discriminate.
  assert (Hu : "https://x/v.mp4" <> "") by discriminate.
  destruct (image_tool_success_is_reported_twice env v x _ _ o "tok-1"
              [Fires] 1 g "https://x/v.mp4" [] (surjective_pairing _) Hin
              eq_refl Ht eq_refl eq_refl Hle eq_refl eq_refl eq_refl Hu)
    as (H1 & _ & H3 & _).
  split; [exact H1|exact H3].
Defined.

(** X18: with the API key set and a non-empty generation id, a
    [lumaUpscaleTool] call whose request succeeds always starts one Luma
    poll session, after the INITIATED message, and returns a response: the
    'no pollable task ID' error cannot occur.  The session polls the id of
    the response when that is a non-empty string and the given generation
    id otherwise, is given the tool's exchange and token, expects an
    [upscaled_video], and so, on an exchange that can take the progress
    messages (no token, or a [sendProgress] method), resolves with the
    [assets.video] URL of a completed snapshot that arrives before any
    other terminal result and before the timeout. *)
Theorem upscale_polls_response_or_given_id (sv : Services)
    (v : LumaManagement.UpscaleParams) (x : Exchange)
    (upscaleResponse : SdkObject) :
  truthy (LUMAAI_API_KEY (base sv)) = true ->
  LumaManagement.upscale_generation_id v <> "" ->
  client_request sv
    ("/generations/" ++ LumaManagement.upscale_generation_id v ++ "/upscale")
    [("resolution", JStr (LumaManagement.upscale_resolution v))]
  = inl upscaleResponse ->
  let id := js_or (object_id upscaleResponse)
              (LumaManagement.upscale_generation_id v) in
  let o := {| Luma.generationId := id;
              Luma.mcpExchange := x;
              Luma.progressToken := exchange_progressToken x;
              Luma.expectedAssetType := Some Luma.upscaled_video |} in
  let effects := fst (LumaManagement.lumaUpscaleTool sv (inl v) x) in
  id <> ""
  /\ (forall i, object_id upscaleResponse = Some i -> i <> "" -> id = i)
  /\ (object_id upscaleResponse = None \/ object_id upscaleResponse = Some "" ->
      id = LumaManagement.upscale_generation_id v)
  /\ snd (LumaManagement.lumaUpscaleTool sv (inl v) x)
     = inl ("Luma AI upscale task initiated for ID: " ++ id
            ++ ". Upscaling is in progress. Status updates will follow.")
  /\ filter ImageToVideo.starts_poll effects = [StartPoll (LumaPoller o)]
  /\ last effects (Send JUndefined) = StartPoll (LumaPoller o)
  /\ (forall pre k g url rest,
        truthy (exchange_progressToken x) = false
        \/ exchange_has_sendProgress x = true ->
        quiet (LumaPoller o) pre = true ->
        fires pre <= Luma.MAX_POLLING_ATTEMPTS ->
        in_flight k (Luma.pollLumaTask o pre) = true ->
        Luma.state g = "completed" ->
        Luma.assets_video_of g = Some url -> url <> "" ->
        settled (Luma.pollLumaTask o (pre ++ Returns k (inl g) :: rest))
        = Some (Resolved url)).
Proof.
  intros Hkey Hid Hreq id o effects.
  assert (Hne : id <> "").
  { subst id. unfold js_or. destruct (object_id upscaleResponse) as [i|].
    - destruct (i =? "") eqn:Ei; [exact Hid|].
      apply String.eqb_neq. exact Ei.
    - exact Hid. }
  assert (Eid : (id =? "") = false) by (apply String.eqb_neq; exact Hne).
  split; [exact Hne|]. split.
  { intros i Hi Hin. subst id. rewrite Hi. unfold js_or.
    apply String.eqb_neq in Hin. rewrite Hin. reflexivity. }
  split.
  { intros [Hn|Hn]; subst id; rewrite Hn; reflexivity. }
  subst effects.
  unfold LumaManagement.lumaUpscaleTool, LumaManagement.upscale_try_block.
  rewrite Hkey, Hreq. fold id. rewrite Eid. cbn [fst snd].
  split; [reflexivity|]. split.
  { cbn [filter ImageToVideo.starts_poll]. rewrite filter_app.
    rewrite filter_send_opt by reflexivity. reflexivity. }
  split.
  { change (ClientRequest ?p ?b :: ?l ++ ?m)%list
      with ((ClientRequest p b :: l) ++ m)%list.
    apply last_last. }
  intros pre k g url rest Hx Hq Hle Hk Hs Ha Hu.
  assert (Hea : Luma.expected_asset o g = Some url) by exact Ha.
  assert (Hcs : can_send (LumaPoller o) = true).
  { unfold can_send. cbn [token exchange o Luma.progressToken Luma.mcpExchange].
    destruct Hx as [-> | ->]; [reflexivity|apply orb_true_r]. }
  exact (proj2 (luma_session_resolves o pre k g rest url
                  Hq Hle Hk Hcs Hs Hea Hu)).
Qed.

Lemma upscale_polls_response_or_given_id_witness :
  let sv := {| base := {| zod_default_message := fun _ => "Invalid input";
                          sdk_message := fun e => "MCP error: " ++ err_text e;
                          LUMAAI_API_KEY := Some "key";
                          generations_create :=
                            fun _ => inl {| created_id := Some "gen-1" |};
                          generations_image_create :=
                            fun _ => inl {| created_id := Some "img-1" |} |};
               RUNWAYML_API_SECRET := Some "secret";
               OPENROUTER_API_KEY := Some "or-key";
               imageToVideo_create := fun _ => inl "task-1";
               generations_create_keyframes :=
                 fun _ => inl {| created_id := Some "gen-2" |};
               generations_list := fun _ _ => inr (RaisedOther "offline");
               generations_get := fun _ => inr (RaisedOther "offline");
               generations_delete := fun _ => inr (RaisedOther "offline");
               cameraMotion_list := inr (RaisedOther "offline");
               client_request :=
                 fun _ _ => inl {| object_id := None; object_json := "{}" |};
               axios_post := fun _ _ _ => inr (RaisedOther "offline") |} in
  let v := {| LumaManagement.upscale_generation_id :=
                "123e4567-e89b-12d3-a456-426614174000";
              LumaManagement.upscale_resolution := "4k" |} in
  let x := {| exchange_progressToken := Some "tok-1";
              exchange_has_sendProgress := true |} in
  snd (LumaManagement.lumaUpscaleTool sv (inl v) x)
  = inl "Luma AI upscale task initiated for ID: 123e4567-e89b-12d3-a456-426614174000. Upscaling is in progress. Status updates will follow.".
Proof.
  intros sv v x.
  assert (Hid : LumaManagement.upscale_generation_id v <> "") by discriminate.
  destruct (upscale_polls_response_or_given_id sv v x
              {| object_id := None; object_json := "{}" |}
              eq_refl Hid eq_refl) as (_ & _ & _ & Hr & _).
  exact Hr.
Defined.

(* ------------------------------------------------------------------ *)
(** ** The errors of the Luma management tools *)

Lemma catch_with_id_code sv not_found failed error :
  err_code (LumaManagement.catch_with_id sv not_found failed error)
  = InternalError
  \/ (LumaManagement.catch_with_id sv not_found failed error
      = mkMcpError InvalidRequest not_found
      /\ exists m, error = RaisedLumaAPI (Some 404%Z) m).
Proof.
  unfold LumaManagement.catch_with_id.
  destruct error as [e|st m|st m|st rm m|m]; try (left; reflexivity).
  destruct st as [z|]; [|left; reflexivity].
  destruct (Z.eq_dec z 404) as [->|Hz].
  - right. split; [reflexivity|]. exists m. reflexivity.
  - left. destruct z as [|q|q]; try reflexivity.
    repeat (destruct q as [q|q|]; try reflexivity).
    contradiction Hz. reflexivity.
Qed.

Lemma catch_plain_code sv failed error :
  err_code (LumaManagement.catch_plain sv failed error) = InternalError.
Proof. destruct error; reflexivity. Qed.

(** X19: in the four management tools that name a generation (get,
    delete, add audio, upscale), with the API key configured, a 404
    APIError from the tool's Luma call leaves the tool as an
    [InvalidRequest] error whose message names the generation id; and
    every other error after validation has code [InternalError]: an
    [InvalidRequest] error is that not-found error, and the Luma call
    did raise a 404. *)
Theorem management_not_found_is_invalid_request (sv : Services)
    (id : string) (audio : LumaManagement.AddAudioParams)
    (up : LumaManagement.UpscaleParams) (x : Exchange) :
  truthy (LUMAAI_API_KEY (base sv)) = true ->
  ((forall m, generations_get sv id = inr (RaisedLumaAPI (Some 404%Z) m) ->
      snd (LumaManagement.lumaGetGenerationTool sv (inl id))
      = inr (mkMcpError InvalidRequest
               ("Luma generation ID " ++ id ++ " not found.")))
   /\ (forall m, generations_delete sv id = inr (RaisedLumaAPI (Some 404%Z) m) ->
        snd (LumaManagement.lumaDeleteGenerationTool sv (inl id))
        = inr (mkMcpError InvalidRequest
                 ("Luma generation ID " ++ id ++ " not found.")))
   /\ (forall m,
        client_request sv
          ("/generations/" ++ LumaManagement.audio_generation_id audio
           ++ "/audio")
          (("prompt", JStr (LumaManagement.audio_prompt audio))
           :: match LumaManagement.audio_negative_prompt audio with
              | Some n => [("negative_prompt", JStr n)]
              | None => []
              end)
        = inr (RaisedLumaAPI (Some 404%Z) m) ->
        snd (LumaManagement.lumaAddAudioTool sv (inl audio))
        = inr (mkMcpError InvalidRequest
                 ("Luma generation ID "
                  ++ LumaManagement.audio_generation_id audio
                  ++ " not found.")))
   /\ (forall m,
        client_request sv
          ("/generations/" ++ LumaManagement.upscale_generation_id up
           ++ "/upscale")
          [("resolution", JStr (LumaManagement.upscale_resolution up))]
        = inr (RaisedLumaAPI (Some 404%Z) m) ->
        snd (LumaManagement.lumaUpscaleTool sv (inl up) x)
        = inr (mkMcpError InvalidRequest
                 ("Luma generation ID "
                  ++ LumaManagement.upscale_generation_id up
                  ++ " not found for upscaling."))))
  /\ (forall e : McpError,
  (snd (LumaManagement.lumaGetGenerationTool sv (inl id)) = inr e ->
   err_code e = InternalError
   \/ (e = mkMcpError InvalidRequest
              ("Luma generation ID " ++ id ++ " not found.")
       /\ exists m, generations_get sv id = inr (RaisedLumaAPI (Some 404%Z) m)))
  /\ (snd (LumaManagement.lumaDeleteGenerationTool sv (inl id)) = inr e ->
      err_code e = InternalError
      \/ (e = mkMcpError InvalidRequest
                 ("Luma generation ID " ++ id ++ " not found.")
          /\ exists m,
               generations_delete sv id = inr (RaisedLumaAPI (Some 404%Z) m)))
  /\ (snd (LumaManagement.lumaAddAudioTool sv (inl audio)) = inr e ->
      err_code e = InternalError
      \/ (e = mkMcpError InvalidRequest
                 ("Luma generation ID "
                  ++ LumaManagement.audio_generation_id audio ++ " not found.")
          /\ exists m body,
               client_request sv
                 ("/generations/" ++ LumaManagement.audio_generation_id audio
                  ++ "/audio") body
               = inr (RaisedLumaAPI (Some 404%Z) m)))
  /\ (snd (LumaManagement.lumaUpscaleTool sv (inl up) x) = inr e ->
      err_code e = InternalError
      \/ (e = mkMcpError InvalidRequest
                 ("Luma generation ID "
                  ++ LumaManagement.upscale_generation_id up
                  ++ " not found for upscaling.")
          /\ exists m body,
               client_request sv
                 ("/generations/" ++ LumaManagement.upscale_generation_id up
                  ++ "/upscale") body
               = inr (RaisedLumaAPI (Some 404%Z) m)))).
Proof.
  intro Hkey. split.
  { repeat split.
    - intros m Hm. unfold LumaManagement.lumaGetGenerationTool.
      rewrite Hkey, Hm. reflexivity.
    - intros m Hm. unfold LumaManagement.lumaDeleteGenerationTool.
      rewrite Hkey, Hm. reflexivity.
    - intros m Hm. unfold LumaManagement.lumaAddAudioTool.
      rewrite Hkey, Hm. reflexivity.
    - intros m Hm.
      unfold LumaManagement.lumaUpscaleTool, LumaManagement.upscale_try_block.
      rewrite Hkey, Hm. reflexivity. }
  clear Hkey. intro e. repeat split.
  - unfold LumaManagement.lumaGetGenerationTool.
    destruct (truthy (LUMAAI_API_KEY (base sv)));
      [|intro H; injection H as <-; left; reflexivity].
    destruct (generations_get sv id) as [g|r] eqn:Eg; [discriminate|].
    cbn [snd]. intro H. injection H as <-.
    destruct (catch_with_id_code sv
                ("Luma generation ID " ++ id ++ " not found.")
                "Failed to get Luma generation: " r) as [Hc|[Hc (m & Hm)]];
      [left; exact Hc
      |right; split; [exact Hc|exists m; rewrite Hm; reflexivity]].
  - unfold LumaManagement.lumaDeleteGenerationTool.
    destruct (truthy (LUMAAI_API_KEY (base sv)));
      [|intro H; injection H as <-; left; reflexivity].
    destruct (generations_delete sv id) as [g|r] eqn:Eg; [discriminate|].
    cbn [snd]. intro H. injection H as <-.
    destruct (catch_with_id_code sv
                ("Luma generation ID " ++ id ++ " not found.")
                "Failed to delete Luma generation: " r) as [Hc|[Hc (m & Hm)]];
      [left; exact Hc
      |right; split; [exact Hc|exists m; rewrite Hm; reflexivity]].
  - unfold LumaManagement.lumaAddAudioTool.
    destruct (truthy (LUMAAI_API_KEY (base sv)));
      [|intro H; injection H as <-; left; reflexivity].
    match goal with
    | |- context [client_request sv ?pa ?bo] =>
        destruct (client_request sv pa bo) as [g|r] eqn:Eg
    end; [discriminate|].
    cbn [snd]. intro H. injection H as <-.
    match goal with
    | |- context [LumaManagement.catch_with_id sv ?nf ?fl r] =>
        destruct (catch_with_id_code sv nf fl r) as [Hc|[Hc (m & Hm)]]
    end; [left; exact Hc|right; split; [exact Hc|]].
    subst r. eexists _, _. exact Eg.
  - unfold LumaManagement.lumaUpscaleTool.
    destruct (truthy (LUMAAI_API_KEY (base sv)));
      [|intro H; injection H as <-; left; reflexivity].
    destruct (LumaManagement.upscale_try_block sv up x)
      as [effects [resp|r]] eqn:Et; [discriminate|].
    cbn [snd]. intro H. injection H as <-.
    match goal with
    | |- context [LumaManagement.catch_with_id sv ?nf ?fl r] =>
        destruct (catch_with_id_code sv nf fl r) as [Hc|[Hc (m & Hm)]]
    end; [left; exact Hc|right; split; [exact Hc|]].
    subst r. unfold LumaManagement.upscale_try_block in Et.
    match type of Et with
    | context [client_request sv ?pa ?bo] =>
        destruct (client_request sv pa bo) as [g|r] eqn:Eg
    end.
    + destruct (js_or (object_id g) (LumaManagement.upscale_generation_id up)
                =? ""); discriminate Et.
    + injection Et as _ Hr. subst r. eexists _, _. exact Eg.
Qed.

Lemma management_not_found_is_invalid_request_witness :
  let sv := {| base := {| zod_default_message := fun _ => "Invalid input";
                          sdk_message := fun e => "MCP error: " ++ err_text e;
                          LUMAAI_API_KEY := Some "key";
                          generations_create :=
                            fun _ => inl {| created_id := Some "gen-1" |};
                          generations_image_create :=
                            fun _ => inl {| created_id := Some "img-1" |} |};
               RUNWAYML_API_SECRET := Some "secret";
               OPENROUTER_API_KEY := Some "or-key";
               imageToVideo_create := fun _ => inl "task-1";
               generations_create_keyframes :=
                 fun _ => inl {| created_id := Some "gen-2" |};
               generations_list := fun _ _ => inr (RaisedOther "offline");
               generations_get :=
                 fun _ => inr (RaisedLumaAPI (Some 404%Z) "Not Found");
               generations_delete :=
                 fun _ => inr (RaisedLumaAPI (Some 500%Z) "Server Error");
               cameraMotion_list := inr (RaisedOther "offline");
               client_request :=
                 fun _ _ => inr (RaisedLumaAPI (Some 404%Z) "Not Found");
               axios_post := fun _ _ _ => inr (RaisedOther "offline") |} in
  let up := {| LumaManagement.upscale_generation_id := "gen-9";
               LumaManagement.upscale_resolution := "4k" |} in
  let audio := {| LumaManagement.audio_generation_id := "gen-9";
                  LumaManagement.audio_prompt := "rain";
                  LumaManagement.audio_negative_prompt := None |} in
  let x := {| exchange_progressToken := None;
              exchange_has_sendProgress := true |} in
  snd (LumaManagement.lumaGetGenerationTool sv (inl "gen-9"))
  = inr (mkMcpError InvalidRequest "Luma generation ID gen-9 not found.")
  /\ snd (LumaManagement.lumaUpscaleTool sv (inl up) x)
     = inr (mkMcpError InvalidRequest
              "Luma generation ID gen-9 not found for upscaling.")
  /\ snd (LumaManagement.lumaDeleteGenerationTool sv (inl "gen-9"))
     = inr (mkMcpError InternalError "Luma API Error: Server Error").
Proof.
  intros sv up audio x.
  destruct (management_not_found_is_invalid_request sv "gen-9" audio up x
              eq_refl) as ((H1 & _ & _ & H4) & _).
  split; [exact (H1 "Not Found" eq_refl)|].
  split; [exact (H4 "Not Found" eq_refl)|reflexivity].
Defined.

(** X20: the two management tools that name no generation (list, camera
    motions) answer every failure with an [InternalError], a 404 from the
    API included; and a rejection by a tool's schema is always an
    [InvalidParams] error reached before any call is made. *)
Theorem management_plain_errors_are_internal (sv : Services)
    (v : LumaManagement.ListParams) (issues : list ZodIssue) (e : McpError) :
  (snd (LumaManagement.lumaListGenerationsTool sv (inl v)) = inr e ->
   err_code e = InternalError)
  /\ (snd (LumaManagement.lumaGetCameraMotionsTool sv) = inr e ->
      err_code e = InternalError)
  /\ LumaManagement.lumaListGenerationsTool sv (inr issues)
     = ([], inr (invalid_arguments_messages (base sv) issues))
  /\ LumaManagement.lumaGetGenerationTool sv (inr issues)
     = ([], inr (invalid_arguments_messages (base sv) issues))
  /\ err_code (invalid_arguments_messages (base sv) issues) = InvalidParams.
Proof.
  repeat split.
  - unfold LumaManagement.lumaListGenerationsTool.
    destruct (truthy (LUMAAI_API_KEY (base sv)));
      [|intro H; injection H as <-; reflexivity].
    destruct (generations_list sv _ _) as [g|r]; [discriminate|].
    cbn [snd]. intro H. injection H as <-. apply catch_plain_code.
  - unfold LumaManagement.lumaGetCameraMotionsTool.
    destruct (truthy (LUMAAI_API_KEY (base sv)));
      [|intro H; injection H as <-; reflexivity].
    destruct (cameraMotion_list sv) as [g|r]; [discriminate|].
    cbn [snd]. intro H. injection H as <-. apply catch_plain_code.
Qed.

(* ------------------------------------------------------------------ *)
(** ** The prompt enhancer *)

(** X21: [enhancePromptTool] never returns an empty text.  A response is
    the trimmed content of the first choice of exactly one chat-completion
    request, sent to the OpenRouter endpoint with the configured key as
    bearer token, the fixed model, the system prompt built from the use
    case and the prompt itself as the user message. *)
Theorem enhance_prompt_response_nonempty (sv : Services)
    (parsed : EnhancePrompt.EnhancePromptParams + list ZodIssue)
    (text : string) :
  snd (EnhancePrompt.enhancePromptTool sv parsed) = inl text ->
  text <> ""
  /\ exists v key,
       parsed = inl v
       /\ OPENROUTER_API_KEY sv = Some key /\ key <> ""
       /\ let body :=
            {| chat_model := "anthropic/claude-3-haiku";
               chat_system := EnhancePrompt.systemPrompt
                                (EnhancePrompt.useCase v);
               chat_user := EnhancePrompt.promptText v;
               chat_max_tokens := 500;
               chat_temperature := "0.7" |} in
          axios_post sv "https://openrouter.ai/api/v1/chat/completions"
            ("Bearer " ++ key) body = inl (Some text)
          /\ fst (EnhancePrompt.enhancePromptTool sv parsed)
             = [HttpPost "https://openrouter.ai/api/v1/chat/completions"
                  ("Bearer " ++ key) body].
Proof.
  unfold EnhancePrompt.enhancePromptTool.
  destruct parsed as [v|issues]; [|discriminate].
  destruct (OPENROUTER_API_KEY sv) as [key|]; [|discriminate].
  destruct (key =? "") eqn:Ek; [discriminate|].
  match goal with
  | |- context [axios_post sv ?u ?a ?b] =>
      destruct (axios_post sv u a b) as [content|r] eqn:Ea
  end; [|discriminate].
  destruct content as [c|]; cbn [truthy]; [|discriminate].
  destruct (c =? "") eqn:Ec; cbn [negb snd fst]; [discriminate|].
  intro H. injection H as <-. cbn [js_or]. rewrite Ec.
  split; [apply String.eqb_neq; exact Ec|].
  exists v, key. split; [reflexivity|]. split; [reflexivity|].
  split; [apply String.eqb_neq; exact Ek|].
  cbv zeta. split; [exact Ea|reflexivity].
Qed.

Lemma enhance_prompt_response_nonempty_witness :
  let sv := {| base := {| zod_default_message := fun _ => "Invalid input";
                          sdk_message := fun e => "MCP error: " ++ err_text e;
                          LUMAAI_API_KEY := Some "key";
                          generations_create :=
                            fun _ => inl {| created_id := Some "gen-1" |};
                          generations_image_create :=
                            fun _ => inl {| created_id := Some "img-1" |} |};
               RUNWAYML_API_SECRET := Some "secret";
               OPENROUTER_API_KEY := Some "or-key";
               imageToVideo_create := fun _ => inl "task-1";
               generations_create_keyframes :=
                 fun _ => inl {| created_id := Some "gen-2" |};
               generations_list := fun _ _ => inr (RaisedOther "offline");
               generations_get := fun _ => inr (RaisedOther "offline");
               generations_delete := fun _ => inr (RaisedOther "offline");
               cameraMotion_list := inr (RaisedOther "offline");
               client_request := fun _ _ => inr (RaisedOther "offline");
               axios_post :=
                 fun _ _ _ => inl (Some "A cat rides a wave at dawn.") |} in
  let parsed := inl {| EnhancePrompt.promptText := "a cat surfing";
                       EnhancePrompt.useCase := Some "advert" |} in
  snd (EnhancePrompt.enhancePromptTool sv parsed)
  = inl "A cat rides a wave at dawn."
  /\ "A cat rides a wave at dawn." <> "".
Proof.
  intros sv parsed. split; [reflexivity|].
  exact (proj1 (enhance_prompt_response_nonempty sv parsed _ eq_refl)).
Defined.



(* ------------------------------------------------------------------ *)
(** ** The request handler *)

Lemma dispatch_name name t :
  Server.dispatch name = Some t ->
  name = match t with
         | Server.generate_text_to_video => "generate_text_to_video"
         | Server.generate_image_to_video => "generate_image_to_video"
         | Server.enhance_prompt => "enhance_prompt"
         | Server.luma_generate_image => "luma_generate_image"
         | Server.luma_list_generations => "luma_list_generations"
         | Server.luma_get_generation => "luma_get_generation"
         | Server.luma_delete_generation => "luma_delete_generation"
         | Server.luma_get_camera_motions => "luma_get_camera_motions"
         | Server.luma_add_audio => "luma_add_audio"
         | Server.luma_upscale => "luma_upscale"
         end.
Proof.
  unfold Server.dispatch.
  repeat match goal with
         | |- (if ?b then _ else _) = _ -> _ =>
             destruct b eqn:E;
             [apply String.eqb_eq in E; subst name;
              intro H; injection H as <-; reflexivity
             |clear E]
         end.
  discriminate.
Qed.

(** X23: the tools the server announces are the tools it serves: the
    [CallTool] switch has a case for a name exactly when the [ListTools]
    answer lists it, the ten listed names are distinct, and no two names
    reach the same tool. *)
Theorem listed_tools_are_served (name : string) :
  ((exists t, Server.dispatch name = Some t)
   <-> In name (map fst Server.listed_tools))
  /\ NoDup (map fst Server.listed_tools)
  /\ (forall name' t,
        Server.dispatch name = Some t -> Server.dispatch name' = Some t ->
        name = name').
Proof.
  split; [split|split].
  - intros (t & H). apply dispatch_name in H. subst name.
    destruct t; cbn; tauto.
  - intro H. cbn in H.
    repeat (destruct H as [<-|H]; [eexists; reflexivity|]). contradiction.
  - cbn.
    repeat (constructor;
            [cbn; intro H;
             repeat (destruct H as [H|H]; [discriminate H|]); exact H|]).
    constructor.
  - intros name' t H H'. apply dispatch_name in H, H'.
    rewrite H, H'. reflexivity.
Qed.

Lemma api_error_code_known st :
  TextToVideo.api_error_code st <> MethodNotFound.
Proof.
  unfold TextToVideo.api_error_code. destruct st as [z|]; [|discriminate].
  destruct ((z =? 401)%Z || (z =? 403)%Z); [discriminate|].
  destruct ((z =? 400)%Z || (z =? 422)%Z); discriminate.
Qed.

Ltac tool_error_code :=
  let H := fresh "H" in
  intro H; injection H as <-; cbn [err_code];
  first [discriminate | apply api_error_code_known].

Lemma text_to_video_code env a x e :
  snd (TextToVideo.generateTextToVideoTool env a x) = inr e ->
  err_code e <> MethodNotFound.
Proof.
  unfold TextToVideo.generateTextToVideoTool.
  destruct (TextToVideo.generateTextToVideoSchema_parse a) as [v|issues];
    [|cbn [snd]; tool_error_code].
  destruct (TextToVideo.try_block env v x) as [acts [r|t]];
    cbn [snd]; [discriminate|].
  unfold TextToVideo.catch_clause.
  destruct (TextToVideo.v_provider v); destruct t; tool_error_code.
Qed.

Lemma image_to_video_code sv parsed x e :
  snd (ImageToVideo.generateImageToVideoTool sv parsed x) = inr e ->
  err_code e <> MethodNotFound.
Proof.
  unfold ImageToVideo.generateImageToVideoTool.
  destruct parsed as [v|issues]; [|cbn [snd]; tool_error_code].
  destruct (ImageToVideo.try_block sv v x) as [acts [r|t]];
    cbn [snd]; [discriminate|].
  unfold ImageToVideo.catch_clause.
  destruct (ImageToVideo.provider v); destruct t; tool_error_code.
Qed.

Lemma enhance_prompt_code sv parsed e :
  snd (EnhancePrompt.enhancePromptTool sv parsed) = inr e ->
  err_code e <> MethodNotFound.
Proof.
  unfold EnhancePrompt.enhancePromptTool.
  destruct parsed as [v|issues]; [|cbn [snd]; tool_error_code].
  destruct (OPENROUTER_API_KEY sv) as [key|]; [|cbn [snd]; tool_error_code].
  destruct (key =? ""); [cbn [snd]; tool_error_code|].
  destruct (axios_post sv _ _ _) as [content|t].
  - destruct (truthy content); cbn [snd]; [discriminate|tool_error_code].
  - cbn [snd]. unfold EnhancePrompt.catch_clause. destruct t; tool_error_code.
Qed.

Lemma generate_image_code env parsed x e :
  snd (LumaImage.lumaGenerateImageTool env parsed x) = inr e ->
  err_code e <> MethodNotFound.
Proof.
  unfold LumaImage.lumaGenerateImageTool.
  destruct parsed as [v|issues]; [|cbn [snd]; tool_error_code].
  destruct (truthy (LUMAAI_API_KEY env)); [|cbn [snd]; tool_error_code].
  destruct (LumaImage.try_block env v x) as [acts [r|t]];
    cbn [snd]; [discriminate|].
  unfold LumaImage.catch_clause. destruct t; tool_error_code.
Qed.

Lemma catch_with_id_known sv nf fl r :
  err_code (LumaManagement.catch_with_id sv nf fl r) <> MethodNotFound.
Proof.
  destruct (catch_with_id_code sv nf fl r) as [H|[H _]]; rewrite H;
    discriminate.
Qed.

Lemma catch_plain_known sv fl r :
  err_code (LumaManagement.catch_plain sv fl r) <> MethodNotFound.
Proof. rewrite catch_plain_code. discriminate. Qed.

Ltac management_code :=
  let H := fresh "H" in
  intro H; injection H as <-;
  first [discriminate | apply catch_with_id_known | apply catch_plain_known].

Lemma management_codes sv req x e :
  (snd (LumaManagement.lumaListGenerationsTool sv (Server.list_parsed req))
   = inr e -> err_code e <> MethodNotFound)
  /\ (snd (LumaManagement.lumaGetGenerationTool sv (Server.get_parsed req))
      = inr e -> err_code e <> MethodNotFound)
  /\ (snd (LumaManagement.lumaDeleteGenerationTool sv
             (Server.delete_parsed req))
      = inr e -> err_code e <> MethodNotFound)
  /\ (snd (LumaManagement.lumaGetCameraMotionsTool sv) = inr e ->
      err_code e <> MethodNotFound)
  /\ (snd (LumaManagement.lumaAddAudioTool sv (Server.add_audio_parsed req))
      = inr e -> err_code e <> MethodNotFound)
  /\ (snd (LumaManagement.lumaUpscaleTool sv (Server.upscale_parsed req) x)
      = inr e -> err_code e <> MethodNotFound).
Proof.
  repeat split.
  - unfold LumaManagement.lumaListGenerationsTool.
    destruct (Server.list_parsed req); [|cbn [snd]; management_code].
    destruct (truthy (LUMAAI_API_KEY (base sv))); [|cbn [snd]; management_code].
    destruct (generations_list sv _ _); cbn [snd];
      [discriminate|management_code].
  - unfold LumaManagement.lumaGetGenerationTool.
    destruct (Server.get_parsed req); [|cbn [snd]; management_code].
    destruct (truthy (LUMAAI_API_KEY (base sv))); [|cbn [snd]; management_code].
    destruct (generations_get sv _); cbn [snd];
      [discriminate|management_code].
  - unfold LumaManagement.lumaDeleteGenerationTool.
    destruct (Server.delete_parsed req); [|cbn [snd]; management_code].
    destruct (truthy (LUMAAI_API_KEY (base sv))); [|cbn [snd]; management_code].
    destruct (generations_delete sv _); cbn [snd];
      [discriminate|management_code].
  - unfold LumaManagement.lumaGetCameraMotionsTool.
    destruct (truthy (LUMAAI_API_KEY (base sv))); [|cbn [snd]; management_code].
    destruct (cameraMotion_list sv); cbn [snd];
      [discriminate|management_code].
  - unfold LumaManagement.lumaAddAudioTool.
    destruct (Server.add_audio_parsed req); [|cbn [snd]; management_code].
    destruct (truthy (LUMAAI_API_KEY (base sv))); [|cbn [snd]; management_code].
    destruct (client_request sv _ _); cbn [snd];
      [discriminate|management_code].
  - unfold LumaManagement.lumaUpscaleTool.
    destruct (Server.upscale_parsed req) as [v|]; [|cbn [snd]; management_code].
    destruct (truthy (LUMAAI_API_KEY (base sv))); [|cbn [snd]; management_code].
    destruct (LumaManagement.upscale_try_block sv v x) as [ef [r|t]];
      cbn [snd]; [discriminate|management_code].
Qed.

Lemma run_tool_raises_mcp sv req x t r :
  Server.run_tool sv req x t = inr r ->
  exists e, r = RaisedMcp e /\ err_code e <> MethodNotFound.
Proof.
  destruct t; cbn [Server.run_tool]; unfold Server.awaited;
    match goal with
    | |- match ?res with _ => _ end = _ -> _ =>
        destruct res as [resp|e] eqn:E; [discriminate|]
    end;
    intro H; injection H as <-; exists e; (split; [reflexivity|]);
    cbn [err_code] in *.
  - exact (text_to_video_code _ _ _ _ E).
  - exact (image_to_video_code _ _ _ _ E).
  - exact (enhance_prompt_code _ _ _ E).
  - exact (generate_image_code _ _ _ _ E).
  - exact (proj1 (management_codes sv req x e) E).
  - exact (proj1 (proj2 (management_codes sv req x e)) E).
  - exact (proj1 (proj2 (proj2 (management_codes sv req x e))) E).
  - exact (proj1 (proj2 (proj2 (proj2 (management_codes sv req x e)))) E).
  - exact (proj1 (proj2 (proj2 (proj2 (proj2
             (management_codes sv req x e))))) E).
  - exact (proj2 (proj2 (proj2 (proj2 (proj2
             (management_codes sv req x e))))) E).
Qed.

(** X24: the handler passes a tool's outcome through unchanged, a thrown
    [McpError] included, so the error the client gets for a served tool
    is the tool's own; and an error with code [MethodNotFound] means
    exactly that the tool name is unknown, its message being
    ['Unknown tool: ' + name]. *)
Theorem handler_passes_tool_errors (sv : Services) (name : string)
    (req : Server.Request) (x : Exchange) :
  (forall t, Server.dispatch name = Some t ->
     Server.awaited (Server.handle sv name req x)
     = Server.run_tool sv req x t)
  /\ (Server.dispatch name = None ->
      Server.handle sv name req x
      = inr (mkMcpError MethodNotFound ("Unknown tool: " ++ name)))
  /\ (forall e, Server.handle sv name req x = inr e ->
        (err_code e = MethodNotFound <-> Server.dispatch name = None)).
Proof.
  unfold Server.handle, Server.call_tool.
  destruct (Server.dispatch name) as [t|] eqn:Ed.
  - split; [|split; [discriminate|]].
    + intros t' H. injection H as <-.
      destruct (Server.run_tool sv req x t) as [r|r] eqn:Er; [reflexivity|].
      destruct (run_tool_raises_mcp sv req x t r Er) as (e & -> & _).
      reflexivity.
    + intros e.
      destruct (Server.run_tool sv req x t) as [r|r] eqn:Er; [discriminate|].
      destruct (run_tool_raises_mcp sv req x t r Er) as (e' & -> & Hc).
      cbn. intro H. injection H as <-.
      split; [intro Hm; contradiction|discriminate].
  - split; [discriminate|]. split; [reflexivity|].
    intros e H. injection H as <-. split; reflexivity.
Qed.

(* ------------------------------------------------------------------ *)
(** ** Starting the server *)

(** X25: [run] connects the server exactly when all three API keys are
    set, non-empty, and the connection does not throw; otherwise the
    process exits with status 1.  On a server that started, the key guard
    of every Luma management tool, of the image tool and of the prompt
    enhancer passes: a validated call reaches its SDK or HTTP call. *)
Theorem run_requires_all_keys (sv : Services) (connect : option string) :
  (Server.run sv connect = Server.Running
   <-> (truthy (RUNWAYML_API_SECRET sv) = true
        /\ truthy (OPENROUTER_API_KEY sv) = true
        /\ truthy (LUMAAI_API_KEY (base sv)) = true
        /\ connect = None))
  /\ (Server.run sv connect <> Server.Running ->
      exists message, Server.run sv connect = Server.Exited 1 message)
  /\ (Server.run sv connect = Server.Running ->
      (forall v, fst (LumaManagement.lumaListGenerationsTool sv (inl v)) <> [])
      /\ (forall id, fst (LumaManagement.lumaGetGenerationTool sv (inl id)) <> [])
      /\ (forall id,
            fst (LumaManagement.lumaDeleteGenerationTool sv (inl id)) <> [])
      /\ fst (LumaManagement.lumaGetCameraMotionsTool sv) <> []
      /\ (forall v, fst (LumaManagement.lumaAddAudioTool sv (inl v)) <> [])
      /\ (forall v x, fst (LumaManagement.lumaUpscaleTool sv (inl v) x) <> [])
      /\ (forall v x,
            fst (LumaImage.lumaGenerateImageTool (base sv) (inl v) x) <> [])
      /\ (forall v, fst (EnhancePrompt.enhancePromptTool sv (inl v)) <> [])).
Proof.
  unfold Server.run.
  destruct (truthy (RUNWAYML_API_SECRET sv)) eqn:Hr; cbn [negb].
  2:{ split; [split; [discriminate|intros (H & _); discriminate H]|].
      split; [intros _; eexists; reflexivity|discriminate]. }
  destruct (truthy (OPENROUTER_API_KEY sv)) eqn:Ho; cbn [negb].
  2:{ split; [split; [discriminate|intros (_ & H & _); discriminate H]|].
      split; [intros _; eexists; reflexivity|discriminate]. }
  destruct (truthy (LUMAAI_API_KEY (base sv))) eqn:Hl; cbn [negb].
  2:{ split; [split; [discriminate|intros (_ & _ & H & _); discriminate H]|].
      split; [intros _; eexists; reflexivity|discriminate]. }
  destruct connect as [m|].
  { split; [split; [discriminate|intros (_ & _ & _ & H); discriminate H]|].
    split; [intros _; eexists; reflexivity|discriminate]. }
  split; [split; [intros _; repeat split|reflexivity]|].
  split; [intro H; contradiction H; reflexivity|].
  intros _.
  unfold LumaManagement.lumaListGenerationsTool,
    LumaManagement.lumaGetGenerationTool,
    LumaManagement.lumaDeleteGenerationTool,
    LumaManagement.lumaGetCameraMotionsTool,
    LumaManagement.lumaAddAudioTool, LumaManagement.lumaUpscaleTool,
    LumaManagement.upscale_try_block,
    LumaImage.lumaGenerateImageTool, LumaImage.try_block,
    EnhancePrompt.enhancePromptTool.
  rewrite Hl.
  repeat split; intros.
  - destruct (generations_list sv _ _); discriminate.
  - destruct (generations_get sv _); discriminate.
  - destruct (generations_delete sv _); discriminate.
  - destruct (cameraMotion_list sv); discriminate.
  - destruct (client_request sv _ _); discriminate.
  - destruct (client_request sv _ _) as [g|r]; [|discriminate].
    destruct (js_or (object_id g) (LumaManagement.upscale_generation_id v) =? "");
      discriminate.
  - destruct (generations_image_create (base sv) _) as [c|r]; [|discriminate].
    destruct (js_or (created_id c) "" =? ""); discriminate.
  - unfold truthy in Ho. destruct (OPENROUTER_API_KEY sv) as [key|];
      [|discriminate Ho].
    destruct (key =? ""); [discriminate Ho|].
    destruct (axios_post sv _ _ _) as [c|r]; [|discriminate].
    destruct (truthy c); discriminate.
Qed.
